(** * XAES-256-GCM: a shallow embedding of [XAES-256-GCM.go]

    The Go package derives a per-message AES-256-GCM key from a 32-byte
    master key and the first half of a 24-byte nonce, and seals or opens
    with the second half as the GCM nonce.  This file embeds the package
    function by function and proves its key-derivation, error and layout
    contracts.

    Conventions.
    - A Go [byte] is [Init.Byte.byte]; arithmetic goes through
      [byte.unsigned] and [byte.of_Z], which wraps modulo 256.
    - The package is embedded twice.  On values, a Go slice that the code
      writes to or reslices past its length is a [Go.slice], the visible
      elements and the spare capacity behind them, and the byte strings
      that are only read ([nonce], [plaintext], [additionalData],
      [ciphertext]) are lists: this is the package on arguments that share
      no storage with [dst].  On shared storage ([Module Mem]) every
      argument is a slice header into a heap of arrays, so that the
      in-place calls [dst = plaintext[:0]] and [dst = ciphertext[:0]] are
      calls like any other.  The two agree on slices that keep apart from
      [dst].
    - A call ends in [Ret v] (normal return), [Err e] (a returned Go
      [error]) or [Panic msg].
    - The standard library is a collaborator: AES block encryption and the
      GCM transformation are the fields of [Primitives], their contract is
      [PrimitivesOk]; the wrappers [aes_NewCipher], [cipher_NewGCM],
      [AEAD_Seal], [AEAD_Open], [subtle_XORBytes] and [rand_Read] carry the
      argument checks the library documents.  The library's 64 GiB bound
      on a GCM message is not modelled. *)

From Stdlib Require Import String DecimalString ZArith List Lia Bool Arith Btauto.
From coqutil Require Import Byte.
Import ListNotations.
Import Init.Byte.

Local Open Scope string_scope.
Local Open Scope nat_scope.
Local Open Scope list_scope.

(* ===================================================================== *)
(** ** Go values: outcomes and slices *)
(* ===================================================================== *)

Module Go.

(** A Go [error] made by [errors.New]: identified by its message. *)
Definition error := string.

Definition errors_New (msg : string) : error := msg.

Inductive outcome (A : Type) : Type :=
| Ret (a : A)
| Err (e : error)
| Panic (msg : string).

Arguments Ret {A} a.
Arguments Err {A} e.
Arguments Panic {A} msg.

Definition bind {A B : Type} (m : outcome A) (k : A -> outcome B) : outcome B :=
  match m with
  | Ret a => k a
  | Err e => Err e
  | Panic msg => Panic msg
  end.

(** [elems] are the bytes at indices [0 .. len), [spare] those at
    [len .. cap) of the same backing array. *)
Record slice : Type := mkSlice { elems : list byte; spare : list byte }.

Definition len (s : slice) : nat := length (elems s).
Definition cap (s : slice) : nat := length (elems s) + length (spare s).
Definition mem (s : slice) : list byte := elems s ++ spare s.

Definition nil_slice : slice := mkSlice [] [].

(** [make([]byte, l, c)] *)
Definition make (l c : nat) : outcome slice :=
  if c <? l then Panic "makeslice: cap out of range"
  else Ret (mkSlice (repeat x00 l) (repeat x00 (c - l))).

(** [copy(d, src)]: the first [min(len(d), len(src))] elements. *)
Definition copy (d : slice) (src : list byte) : slice :=
  let n := Nat.min (len d) (length src) in
  mkSlice (firstn n src ++ skipn n (elems d)) (spare d).

(** Capacity chosen by the runtime when [append] has to reallocate;
    only [needed <= growcap old needed] matters. *)
Definition growcap (old needed : nat) : nat := Nat.max needed (2 * old).

(** [append(s, bs...)] *)
Definition append (s : slice) (bs : list byte) : slice :=
  if length bs <=? length (spare s)
  then mkSlice (elems s ++ bs) (skipn (length bs) (spare s))
  else mkSlice (elems s ++ bs)
               (repeat x00 (growcap (cap s) (len s + length bs) - (len s + length bs))).

(** The bytes of [s[lo:hi]]; [hi] may reach into the capacity. *)
Definition sub (s : slice) (lo hi : nat) : outcome (list byte) :=
  if (lo <=? hi) && (hi <=? cap s)
  then Ret (firstn (hi - lo) (skipn lo (mem s)))
  else Panic "slice bounds out of range".

(** The bytes of [s[lo:]]; the upper bound is [len(s)]. *)
Definition sub_from (s : slice) (lo : nat) : outcome (list byte) :=
  if lo <=? len s then Ret (skipn lo (elems s))
  else Panic "slice bounds out of range".

(** [s[:hi]] as a slice value over the same backing array. *)
Definition upto (s : slice) (hi : nat) : outcome slice :=
  if hi <=? cap s then Ret (mkSlice (firstn hi (mem s)) (skipn hi (mem s)))
  else Panic "slice bounds out of range".

(** A write of [bs] through a sub-slice that starts at offset [off]. *)
Definition store (s : slice) (off : nat) (bs : list byte) : slice :=
  let m := firstn off (mem s) ++ bs ++ skipn (off + length bs) (mem s) in
  mkSlice (firstn (len s) m) (skipn (len s) m).

(** Read-only byte strings: [b[:hi]] and [b[lo:]] within the length. *)
Definition bytes_upto (b : list byte) (hi : nat) : outcome (list byte) :=
  if hi <=? length b then Ret (firstn hi b)
  else Panic "slice bounds out of range".

Definition bytes_from (b : list byte) (lo : nat) : outcome (list byte) :=
  if lo <=? length b then Ret (skipn lo b)
  else Panic "slice bounds out of range".

(** [a[i] = v] on an array. *)
Definition set_nth (i : nat) (v : byte) (a : list byte) : list byte :=
  firstn i a ++ v :: skipn (S i) a.

End Go.

Import Go.

Notation "x <- m ;; k" := (Go.bind m (fun x => k))
  (at level 61, m at next level, right associativity).

(** Go's operators on [byte]. *)
Definition shr (b : byte) (n : Z) : byte := byte.of_Z (Z.shiftr (byte.unsigned b) n).
Definition shl (b : byte) (n : Z) : byte := byte.of_Z (Z.shiftl (byte.unsigned b) n).
Definition bor (a b : byte) : byte := byte.of_Z (Z.lor (byte.unsigned a) (byte.unsigned b)).
Definition bmul (a b : byte) : byte := byte.of_Z (byte.unsigned a * byte.unsigned b).

Fixpoint xor_bytes (x y : list byte) : list byte :=
  match x, y with
  | a :: x', b :: y' => byte.xor a b :: xor_bytes x' y'
  | _, _ => []
  end.

(* ===================================================================== *)
(** ** The standard library, as far as the package uses it *)
(* ===================================================================== *)

(** The two transformations the package takes from [crypto/aes] and
    [crypto/cipher]: one AES block under a key, and GCM under a key. *)
Class Primitives : Type := {
  aes_encrypt_block : list byte -> list byte -> list byte;
  gcm_seal : list byte -> list byte -> list byte -> list byte -> list byte;
  gcm_open : list byte -> list byte -> list byte -> list byte -> option (list byte)
}.

Class PrimitivesOk (P : Primitives) : Prop := {
  aes_encrypt_block_length : forall key b,
    length key = 32 -> length b = 16 -> length (aes_encrypt_block key b) = 16;
  gcm_seal_length : forall key n p a,
    length (gcm_seal key n p a) = length p + 16;
  gcm_open_seal : forall key n p a,
    length key = 32 -> length n = 12 ->
    gcm_open key n (gcm_seal key n p a) a = Some p
}.

Definition aes_BlockSize : nat := 16.

(** [*aes.Block]: the expanded key, kept as the key bytes. *)
Record Block : Type := mkBlock { blk_key : list byte }.

(** [cipher.AEAD] as built by [cipher.NewGCM]. *)
Record AEAD : Type := mkAEAD { aead_block : Block }.

Definition aes_KeySizeError (n : nat) : error :=
  String.append "crypto/aes: invalid key size " (NilZero.string_of_uint (Nat.to_uint n)).

(** [aes.NewCipher]: returns the pair (block, error); the block is nil
    exactly when the error is not. *)
Definition aes_NewCipher (key : list byte) : option Block * option error :=
  if (length key =? 16) || (length key =? 24) || (length key =? 32)
  then (Some (mkBlock key), None)
  else (None, Some (aes_KeySizeError (length key))).

Definition Block_BlockSize (b : Block) : nat := aes_BlockSize.

Definition nil_dereference : string :=
  "runtime error: invalid memory address or nil pointer dereference".

Section Library.
Context {P : Primitives}.

(** [c.Encrypt(dst, src)]: the new contents of [dst]. *)
Definition Block_Encrypt (c : option Block) (dst src : list byte) : outcome (list byte) :=
  match c with
  | None => Panic nil_dereference
  | Some b =>
      if length src <? aes_BlockSize then Panic "crypto/aes: input not full block"
      else if length dst <? aes_BlockSize then Panic "crypto/aes: output not full block"
      else Ret (aes_encrypt_block (blk_key b) (firstn aes_BlockSize src)
                  ++ skipn aes_BlockSize dst)
  end.

(** [cipher.NewGCM(c)] *)
Definition cipher_NewGCM (c : option Block) : outcome (option AEAD * option error) :=
  match c with
  | None => Panic nil_dereference
  | Some b =>
      if Block_BlockSize b =? 16 then Ret (Some (mkAEAD b), None)
      else Ret (None, Some (errors_New "cipher: NewGCM requires 128-bit block cipher"))
  end.

Definition gcmStandardNonceSize : nat := 12.

Definition cipher_errOpen : error := errors_New "cipher: message authentication failed".

(** The result is appended to [dst]: in place when the capacity allows,
    in a fresh array of the exact size otherwise. *)
Definition appendTo (dst : slice) (out : list byte) : slice :=
  if length out <=? length (spare dst)
  then mkSlice (elems dst ++ out) (skipn (length out) (spare dst))
  else mkSlice (elems dst ++ out) [].

(** [a.Seal(dst, nonce, plaintext, additionalData)] *)
Definition AEAD_Seal (a : option AEAD) (dst : slice) (nonce plaintext additionalData : list byte)
  : outcome slice :=
  match a with
  | None => Panic nil_dereference
  | Some g =>
      if negb (length nonce =? gcmStandardNonceSize)
      then Panic "crypto/cipher: incorrect nonce length given to GCM"
      else Ret (appendTo dst (gcm_seal (blk_key (aead_block g)) nonce plaintext additionalData))
  end.

(** [a.Open(dst, nonce, ciphertext, additionalData)] *)
Definition AEAD_Open (a : option AEAD) (dst : slice) (nonce ciphertext additionalData : list byte)
  : outcome slice :=
  match a with
  | None => Panic nil_dereference
  | Some g =>
      if negb (length nonce =? gcmStandardNonceSize)
      then Panic "crypto/cipher: incorrect nonce length given to GCM"
      else match gcm_open (blk_key (aead_block g)) nonce ciphertext additionalData with
           | Some p => Ret (appendTo dst p)
           | None => Err cipher_errOpen
           end
  end.

(** [subtle.XORBytes(dst, x, y)]: the new contents of [dst]. *)
Definition subtle_XORBytes (dst x y : list byte) : outcome (list byte) :=
  let n := Nat.min (length x) (length y) in
  if length dst <? n then Panic "subtle.XORBytes: dst too short"
  else Ret (xor_bytes (firstn n x) (firstn n y) ++ skipn n dst).

End Library.

(** [crypto/rand]: the source is a pool of bytes still to be handed out;
    a read of more bytes than are left is a failure of the source, and
    uses up what was left.  [Seal] panics on that failure; since Go 1.24
    the library ends the process itself, and the [Panic] of the model
    stands for both. *)
Definition Rand : Type := list byte.

Definition rand_Read (r : Rand) (n : nat) : option (list byte) * Rand :=
  if n <=? length r then (Some (firstn n r), skipn n r) else (None, []).

(* ===================================================================== *)
(** ** The package *)
(* ===================================================================== *)

Definition KeySize : nat := 32.
Definition NonceSize : nat := 24.
Definition OverheadWithManualNonces : nat := 16.
Definition Overhead : nat := 40.

Record xaes256gcmManual : Type := mkManual { c : option Block; k1 : list byte }.

Record xaes256gcm : Type := mkAuto { manual : xaes256gcmManual }.

(** A [cipher.AEAD] interface value of this package: the nil interface, a
    [*xaes256gcmManual] (which may be the nil pointer), or an
    [xaes256gcm]. *)
Inductive cipher_AEAD : Type :=
| AEAD_nil
| AEAD_manual (p : option xaes256gcmManual)
| AEAD_auto (x : xaes256gcm).

(** [a.NonceSize()] on an interface value: the method of
    [*xaes256gcmManual] does not read its receiver. *)
Definition cipher_AEAD_NonceSize (a : cipher_AEAD) : outcome nat :=
  match a with
  | AEAD_nil => Panic nil_dereference
  | AEAD_manual _ => Ret NonceSize
  | AEAD_auto _ => Ret 0
  end.

Definition errOpen : error := errors_New "xaes256gcm: message authentication failed".

Section Package.
Context {P : Primitives}.

(** The loop [for i := len(x.k1) - 1; i >= 0; i--] with [n = i + 1]. *)
Fixpoint shift_loop (n : nat) (msb : byte) (a : list byte) : byte * list byte :=
  match n with
  | O => (msb, a)
  | S i =>
      let b := nth i a x00 in
      shift_loop i (shr b 7) (set_nth i (bor (shl b 1) msb) a)
  end.

Definition newWithManualNonces (key : list byte) : outcome xaes256gcmManual :=
  if negb (length key =? KeySize) then Err (errors_New "xaes256gcm: bad key length")
  else
    let xc := fst (aes_NewCipher key) in
    let zero := repeat x00 aes_BlockSize in
    l <- Block_Encrypt xc zero zero ;;
    let '(msb, a) := shift_loop (length l) x00 l in
    let last := length a - 1 in
    let a := set_nth last (byte.xor (nth last a x00) (bmul msb x87)) a in
    Ret (mkManual xc a).

(** [NewWithManualNonces] returns [newWithManualNonces(key)] as it is:
    the [*xaes256gcmManual], nil or not, goes into the [cipher.AEAD] it
    returns, beside the error. *)
Definition NewWithManualNonces (key : list byte) : outcome (cipher_AEAD * option error) :=
  match newWithManualNonces key with
  | Ret x => Ret (AEAD_manual (Some x), None)
  | Err e => Ret (AEAD_manual None, Some e)
  | Panic msg => Panic msg
  end.

(** [New]: [Err e] is the return [nil, err], with the nil interface. *)
Definition New (key : list byte) : outcome xaes256gcm :=
  match newWithManualNonces key with
  | Ret x => Ret (mkAuto x)
  | Err e => Err e
  | Panic msg => Panic msg
  end.

Definition xaes256gcmManual_NonceSize (x : xaes256gcmManual) : nat := NonceSize.
Definition xaes256gcmManual_Overhead (x : xaes256gcmManual) : nat := OverheadWithManualNonces.
Definition xaes256gcm_NonceSize (x : xaes256gcm) : nat := 0.
Definition xaes256gcm_Overhead (x : xaes256gcm) : nat := Overhead.

Definition deriveKey (x : xaes256gcmManual) (nonce : list byte) : outcome slice :=
  k <- make 0 (2 * aes_BlockSize) ;;
  let k := append k [x00; x01; x58; x00] in
  let k := append k nonce in
  let k := append k [x00; x02; x58; x00] in
  let k := append k nonce in
  lo <- sub k 0 aes_BlockSize ;;
  r <- subtle_XORBytes lo lo (k1 x) ;;
  let k := store k 0 r in
  hi <- sub_from k aes_BlockSize ;;
  r <- subtle_XORBytes hi hi (k1 x) ;;
  let k := store k aes_BlockSize r in
  lo <- sub k 0 aes_BlockSize ;;
  r <- Block_Encrypt (c x) lo lo ;;
  let k := store k 0 r in
  hi <- sub_from k aes_BlockSize ;;
  r <- Block_Encrypt (c x) hi hi ;;
  let k := store k aes_BlockSize r in
  Ret k.

Definition xaes256gcmManual_Seal (x : xaes256gcmManual) (dst : slice)
    (nonce plaintext additionalData : list byte) : outcome slice :=
  if negb (length nonce =? NonceSize) then Panic "xaes256gcm: bad nonce length"
  else
    n1 <- bytes_upto nonce 12 ;;
    k <- deriveKey x n1 ;;
    n <- bytes_from nonce 12 ;;
    let blk := fst (aes_NewCipher (elems k)) in
    r <- cipher_NewGCM blk ;;
    AEAD_Seal (fst r) dst n plaintext additionalData.

Definition xaes256gcmManual_Open (x : xaes256gcmManual) (dst : slice)
    (nonce ciphertext additionalData : list byte) : outcome slice :=
  if negb (length nonce =? NonceSize) then Err (errors_New "xaes256gcm: bad nonce length")
  else
    n1 <- bytes_upto nonce 12 ;;
    k <- deriveKey x n1 ;;
    n <- bytes_from nonce 12 ;;
    let blk := fst (aes_NewCipher (elems k)) in
    r <- cipher_NewGCM blk ;;
    AEAD_Open (fst r) dst n ciphertext additionalData.

Definition xaes256gcm_Seal (x : xaes256gcm) (rng : Rand) (dst : slice)
    (nonce plaintext additionalData : list byte) : outcome slice * Rand :=
  if negb (length nonce =? 0) then (Panic "xaes256gcm: bad nonce length", rng)
  else
    let total := len dst + length plaintext + Overhead in
    let dst1 :=
      if cap dst <? total
      then tmp <- make (len dst) total ;; Ret (copy tmp (elems dst))
      else Ret dst in
    match dst1 with
    | Ret dst =>
        match sub dst (len dst) (len dst + NonceSize) with
        | Ret window =>
            match rand_Read rng (length window) with
            | (Some nonce, rng') =>
                let dst := store dst (len dst) nonce in
                (dst <- upto dst (len dst + NonceSize) ;;
                 xaes256gcmManual_Seal (manual x) dst nonce plaintext additionalData,
                 rng')
            | (None, rng') => (Panic "crypto/rand: read failed", rng')
            end
        | Err e => (Err e, rng)
        | Panic msg => (Panic msg, rng)
        end
    | Err e => (Err e, rng)
    | Panic msg => (Panic msg, rng)
    end.

Definition xaes256gcm_Open (x : xaes256gcm) (dst : slice)
    (nonce ciphertext additionalData : list byte) : outcome slice :=
  if negb (length nonce =? 0) then Err (errors_New "xaes256gcm: bad nonce length")
  else if length ciphertext <? NonceSize then Err errOpen
  else
    n <- bytes_upto ciphertext NonceSize ;;
    ct <- bytes_from ciphertext NonceSize ;;
    xaes256gcmManual_Open (manual x) dst n ct additionalData.

End Package.

(* ===================================================================== *)
(** ** The package on shared storage

    Above, the byte strings a call reads are values, so they cannot share
    storage with [dst].  Here every argument is a slice header into a heap
    of arrays, as in Go: [dst = plaintext[:0]] and [dst = ciphertext[:0]]
    are calls like any other.  [deriveKey], [aes.NewCipher] and
    [cipher.NewGCM] work on storage of their own and are taken from
    above.  GCM refuses an output that overlaps its input other than at
    the same start, or that overlaps the additional data (the latter check
    is that of Go 1.24 on); what the theorems below take of the slices,
    that they keep apart from [dst] or start where the output starts,
    passes both checks in every version. *)
(* ===================================================================== *)

Module Mem.

(** The arrays allocated so far, by number; [next] is the number of the
    array the next allocation makes. *)
Record heap : Type := mkHeap { arrays : nat -> list byte; next : nat }.

(** A slice: its array, where it starts there, its length and capacity. *)
Record ref : Type := mkRef { arr : nat; off : nat; rlen : nat; rcap : nat }.

(** The nil slice. *)
Definition nil_ref : ref := mkRef 0 0 0 0.

(** The heap that holds the arrays [l], numbered from 0. *)
Definition of_arrays (l : list (list byte)) : heap :=
  mkHeap (fun a => nth a l []) (length l).

(** The whole of array [a], of [n] bytes. *)
Definition whole (a n : nat) : ref := mkRef a 0 n n.

Definition read (h : heap) (r : ref) : list byte :=
  firstn (rlen r) (skipn (off r) (arrays h (arr r))).

(** The bytes of the capacity behind the length. *)
Definition room (h : heap) (r : ref) : list byte :=
  firstn (rcap r - rlen r) (skipn (off r + rlen r) (arrays h (arr r))).

(** A slice of the heap as the value it is above. *)
Definition view (h : heap) (r : ref) : slice := mkSlice (read h r) (room h r).

(** [r] lies within an allocated array of [h]; a slice without capacity
    lies nowhere. *)
Definition well_formed (h : heap) (r : ref) : Prop :=
  rlen r <= rcap r
  /\ (rcap r = 0
      \/ (arr r < next h /\ off r + rcap r <= length (arrays h (arr r)))).

(** [r] shares no byte with the array of [dst]: it is empty, or [dst]
    has no array, or the two lie in different arrays. *)
Definition apart (r dst : ref) : Prop :=
  rlen r = 0 \/ rcap dst = 0 \/ arr r <> arr dst.

(** [r] starts where what is appended to [dst] starts, in the array of
    [dst]: so it is for [dst = r[:0]]. *)
Definition in_place (r dst : ref) : Prop :=
  arr r = arr dst /\ off r = off dst + rlen dst.

(** [h'] has the arrays of [h], each of the length it had, and maybe
    more. *)
Definition extends (h h' : heap) : Prop :=
  next h <= next h'
  /\ forall a, a < next h -> length (arrays h' a) = length (arrays h a).

(** [s[lo:]] and [s[:hi]] on slice headers. *)
Definition from (r : ref) (lo : nat) : ref :=
  mkRef (arr r) (off r + lo) (rlen r - lo) (rcap r - lo).

Definition upto (r : ref) (hi : nat) : ref :=
  mkRef (arr r) (off r) hi (rcap r).

(** [bs] written into array [a] from position [pos]. *)
Definition write (h : heap) (a pos : nat) (bs : list byte) : heap :=
  mkHeap (fun a' => if a' =? a
                    then firstn pos (arrays h a) ++ bs
                         ++ skipn (pos + length bs) (arrays h a)
                    else arrays h a')
         (next h).

(** A new array holding [bs]. *)
Definition alloc (h : heap) (bs : list byte) : heap * nat :=
  (mkHeap (fun a' => if a' =? next h then bs else arrays h a') (S (next h)), next h).

(** [alias.AnyOverlap] and [alias.InexactOverlap] on two byte ranges,
    each given by array, start and length. *)
Definition any_overlap (a1 o1 l1 a2 o2 l2 : nat) : bool :=
  (0 <? l1) && (0 <? l2) && (a1 =? a2) && (o1 <? o2 + l2) && (o2 <? o1 + l1).

Definition inexact_overlap (a1 o1 l1 a2 o2 l2 : nat) : bool :=
  if (l1 =? 0) || (l2 =? 0) || ((a1 =? a2) && (o1 =? o2)) then false
  else any_overlap a1 o1 l1 a2 o2 l2.

(** What a call leaves: its outcome and the heap. *)
Definition result : Type := outcome ref * heap.

(** The outcome with the returned slice read from the heap. *)
Definition lift (r : result) : outcome slice :=
  match fst r with
  | Ret p => Ret (view (snd r) p)
  | Err e => Err e
  | Panic msg => Panic msg
  end.

(** [sliceForAppend] of [crypto/cipher]: [dst] extended by [n] bytes, in
    place when the capacity allows, in a new array of the exact size
    otherwise. *)
Definition sliceForAppend (h : heap) (dst : ref) (n : nat) : ref * heap :=
  if rlen dst + n <=? rcap dst
  then (mkRef (arr dst) (off dst) (rlen dst + n) (rcap dst), h)
  else let '(h', a) := alloc h (read h dst ++ repeat x00 n) in
       (mkRef a 0 (rlen dst + n) (rlen dst + n), h').

Definition gcmTagSize : nat := 16.

Section Package.
Context {P : Primitives}.

(** [a.Seal(dst, nonce, plaintext, additionalData)] of GCM. *)
Definition AEAD_Seal (a : option AEAD) (h : heap) (dst nonce plaintext additionalData : ref)
  : result :=
  match a with
  | None => (Panic nil_dereference, h)
  | Some g =>
      if negb (rlen nonce =? gcmStandardNonceSize)
      then (Panic "crypto/cipher: incorrect nonce length given to GCM", h)
      else
        let n := rlen plaintext + gcmTagSize in
        let '(ret, h1) := sliceForAppend h dst n in
        let start := off ret + rlen dst in
        if inexact_overlap (arr ret) start n
             (arr plaintext) (off plaintext) (rlen plaintext)
        then (Panic "crypto/cipher: invalid buffer overlap", h1)
        else if any_overlap (arr ret) start n
                  (arr additionalData) (off additionalData) (rlen additionalData)
        then (Panic "crypto/cipher: invalid buffer overlap of output and additional data", h1)
        else (Ret ret,
              write h1 (arr ret) start
                (gcm_seal (blk_key (aead_block g)) (read h1 nonce) (read h1 plaintext)
                   (read h1 additionalData)))
  end.

(** [a.Open(dst, nonce, ciphertext, additionalData)] of GCM; on a failed
    authentication the output range is cleared.  The overlap check takes
    the input with its tag, as from Go 1.24 on (before, without). *)
Definition AEAD_Open (a : option AEAD) (h : heap) (dst nonce ciphertext additionalData : ref)
  : result :=
  match a with
  | None => (Panic nil_dereference, h)
  | Some g =>
      if negb (rlen nonce =? gcmStandardNonceSize)
      then (Panic "crypto/cipher: incorrect nonce length given to GCM", h)
      else if rlen ciphertext <? gcmTagSize then (Err cipher_errOpen, h)
      else
        let n := rlen ciphertext - gcmTagSize in
        let '(ret, h1) := sliceForAppend h dst n in
        let start := off ret + rlen dst in
        if inexact_overlap (arr ret) start n
             (arr ciphertext) (off ciphertext) (rlen ciphertext)
        then (Panic "crypto/cipher: invalid buffer overlap", h1)
        else if any_overlap (arr ret) start n
                  (arr additionalData) (off additionalData) (rlen additionalData)
        then (Panic "crypto/cipher: invalid buffer overlap of output and additional data", h1)
        else match gcm_open (blk_key (aead_block g)) (read h1 nonce) (read h1 ciphertext)
                     (read h1 additionalData) with
             | Some p => (Ret ret, write h1 (arr ret) start p)
             | None => (Err cipher_errOpen, write h1 (arr ret) start (repeat x00 n))
             end
  end.

Definition xaes256gcmManual_Seal (x : xaes256gcmManual) (h : heap)
    (dst nonce plaintext additionalData : ref) : result :=
  if negb (rlen nonce =? NonceSize) then (Panic "xaes256gcm: bad nonce length", h)
  else
    match deriveKey x (firstn 12 (read h nonce)) with
    | Ret k =>
        let n := mkRef (arr nonce) (off nonce + 12) (rlen nonce - 12) (rcap nonce - 12) in
        match cipher_NewGCM (fst (aes_NewCipher (elems k))) with
        | Ret r => AEAD_Seal (fst r) h dst n plaintext additionalData
        | Err e => (Err e, h)
        | Panic msg => (Panic msg, h)
        end
    | Err e => (Err e, h)
    | Panic msg => (Panic msg, h)
    end.

Definition xaes256gcmManual_Open (x : xaes256gcmManual) (h : heap)
    (dst nonce ciphertext additionalData : ref) : result :=
  if negb (rlen nonce =? NonceSize)
  then (Err (errors_New "xaes256gcm: bad nonce length"), h)
  else
    match deriveKey x (firstn 12 (read h nonce)) with
    | Ret k =>
        let n := mkRef (arr nonce) (off nonce + 12) (rlen nonce - 12) (rcap nonce - 12) in
        match cipher_NewGCM (fst (aes_NewCipher (elems k))) with
        | Ret r => AEAD_Open (fst r) h dst n ciphertext additionalData
        | Err e => (Err e, h)
        | Panic msg => (Panic msg, h)
        end
    | Err e => (Err e, h)
    | Panic msg => (Panic msg, h)
    end.

Definition xaes256gcm_Seal (x : xaes256gcm) (rng : Rand) (h : heap)
    (dst nonce plaintext additionalData : ref) : result * Rand :=
  if negb (rlen nonce =? 0) then ((Panic "xaes256gcm: bad nonce length", h), rng)
  else
    let total := rlen dst + rlen plaintext + Overhead in
    (* tmp := make([]byte, len(dst), total); copy(tmp, dst); dst = tmp *)
    let '(dst, h) :=
      if rcap dst <? total
      then let '(h', a) := alloc h (read h dst ++ repeat x00 (total - rlen dst)) in
           (mkRef a 0 (rlen dst) total, h')
      else (dst, h) in
    (* nonce = dst[len(dst) : len(dst)+NonceSize] *)
    if rcap dst <? rlen dst + NonceSize
    then ((Panic "slice bounds out of range", h), rng)
    else
      let nonce := mkRef (arr dst) (off dst + rlen dst) NonceSize (rcap dst - rlen dst) in
      match rand_Read rng NonceSize with
      | (Some r, rng') =>
          let h := write h (arr nonce) (off nonce) r in
          (* dst = dst[:len(dst)+NonceSize] *)
          let dst := mkRef (arr dst) (off dst) (rlen dst + NonceSize) (rcap dst) in
          (xaes256gcmManual_Seal (manual x) h dst nonce plaintext additionalData, rng')
      | (None, rng') => ((Panic "crypto/rand: read failed", h), rng')
      end.

Definition xaes256gcm_Open (x : xaes256gcm) (h : heap)
    (dst nonce ciphertext additionalData : ref) : result :=
  if negb (rlen nonce =? 0) then (Err (errors_New "xaes256gcm: bad nonce length"), h)
  else if rlen ciphertext <? NonceSize then (Err errOpen, h)
  else
    (* nonce, ciphertext = ciphertext[:NonceSize], ciphertext[NonceSize:] *)
    let nonce := mkRef (arr ciphertext) (off ciphertext) NonceSize (rcap ciphertext) in
    let ciphertext :=
      mkRef (arr ciphertext) (off ciphertext + NonceSize) (rlen ciphertext - NonceSize)
            (rcap ciphertext - NonceSize) in
    xaes256gcmManual_Open (manual x) h dst nonce ciphertext additionalData.

End Package.

End Mem.

(* ===================================================================== *)
(** ** AES-256 (FIPS 197) and GCM (SP 800-38D), executable

    An instance of [Primitives] to run the package on concrete inputs:
    the published test vectors are checked against it below. *)
(* ===================================================================== *)

Module FIPS197.

Definition xtime (b : byte) : byte :=
  byte.xor (shl b 1) (if Z.testbit (byte.unsigned b) 7 then x1b else x00).

Fixpoint gmul_loop (n : nat) (a b acc : byte) : byte :=
  match n with
  | O => acc
  | S n' =>
      gmul_loop n' (xtime a) (shr b 1)
        (if Z.testbit (byte.unsigned b) 0 then byte.xor acc a else acc)
  end.

Definition gmul (a b : byte) : byte := gmul_loop 8 a b x00.

Fixpoint gpow (a : byte) (n : nat) : byte :=
  match n with
  | O => x01
  | S n' => gmul a (gpow a n')
  end.

Definition rotl8 (b : byte) (n : Z) : byte := bor (shl b n) (shr b (8 - n)).

Definition sbox_of (a : byte) : byte :=
  let x := gpow a 254 in
  byte.xor x (byte.xor (rotl8 x 1) (byte.xor (rotl8 x 2)
    (byte.xor (rotl8 x 3) (byte.xor (rotl8 x 4) x63)))).

Definition sbox_table : list byte :=
  Eval vm_compute in map (fun i => sbox_of (byte.of_Z (Z.of_nat i))) (seq 0 256).

Definition sbox (a : byte) : byte :=
  nth (Z.to_nat (byte.unsigned a)) sbox_table x00.

Definition at16 (st : list byte) (i : nat) : byte := nth i st x00.

Definition build16 (f : nat -> byte) : list byte := map f (seq 0 16).

Definition AddRoundKey (st rk : list byte) : list byte :=
  build16 (fun i => byte.xor (at16 st i) (at16 rk i)).

Definition SubBytes (st : list byte) : list byte :=
  build16 (fun i => sbox (at16 st i)).

Definition ShiftRows (st : list byte) : list byte :=
  build16 (fun i => let r := i mod 4 in let col := i / 4 in
                    at16 st (r + 4 * ((col + r) mod 4))).

Definition MixColumns (st : list byte) : list byte :=
  build16 (fun i =>
    let r := i mod 4 in
    let col := i / 4 in
    let a := fun j => at16 st ((r + j) mod 4 + 4 * col) in
    byte.xor (gmul x02 (a 0)) (byte.xor (gmul x03 (a 1)) (byte.xor (a 2) (a 3)))).

Definition word := list byte.

Definition xor_word (u v : word) : word :=
  map (fun i => byte.xor (nth i u x00) (nth i v x00)) (seq 0 4).

Definition RotWord (w : word) : word :=
  map (fun i => nth ((i + 1) mod 4) w x00) (seq 0 4).

Definition SubWord (w : word) : word := map sbox w.

Fixpoint expand (n i : nat) (rcon : byte) (w : list word) : list word :=
  match n with
  | O => w
  | S n' =>
      let t := nth (i - 1) w [] in
      let t' := if i mod 8 =? 0 then xor_word (SubWord (RotWord t)) [rcon; x00; x00; x00]
                else if i mod 8 =? 4 then SubWord t
                else t in
      expand n' (S i) (if i mod 8 =? 0 then xtime rcon else rcon)
             (w ++ [xor_word (nth (i - 8) w []) t'])
  end.

Definition KeyExpansion (key : list byte) : list word :=
  expand 52 8 x01 (map (fun i => firstn 4 (skipn (4 * i) key)) (seq 0 8)).

Definition round_key (w : list word) (r : nat) : list byte :=
  concat (firstn 4 (skipn (4 * r) w)).

Fixpoint rounds (n r : nat) (w : list word) (st : list byte) : list byte :=
  match n with
  | O => st
  | S n' =>
      rounds n' (S r) w
        (AddRoundKey (MixColumns (ShiftRows (SubBytes st))) (round_key w r))
  end.

Definition Cipher (key block : list byte) : list byte :=
  let w := KeyExpansion key in
  let st := AddRoundKey block (round_key w 0) in
  let st := rounds 13 1 w st in
  AddRoundKey (ShiftRows (SubBytes st)) (round_key w 14).

End FIPS197.


Module SP800_38D.

Definition be_to_Z (l : list byte) : Z :=
  fold_left (fun acc b => (acc * 256 + byte.unsigned b)%Z) l 0%Z.

Fixpoint Z_to_be (n : nat) (z : Z) : list byte :=
  match n with
  | O => []
  | S n' => byte.of_Z (Z.shiftr z (8 * Z.of_nat n')) :: Z_to_be n' z
  end.

Definition R : Z := Z.shiftl 0xe1 120.

Fixpoint gf_mul_loop (n : nat) (x v z : Z) : Z :=
  match n with
  | O => z
  | S n' =>
      gf_mul_loop n' x
        (if Z.testbit v 0 then Z.lxor (Z.shiftr v 1) R else Z.shiftr v 1)
        (if Z.testbit x (Z.of_nat n') then Z.lxor z v else z)
  end.

Definition gf_mul (x y : Z) : Z := gf_mul_loop 128 x y 0%Z.

Definition block_at (data : list byte) (i : nat) : Z :=
  be_to_Z (firstn 16 (skipn (16 * i) data ++ repeat x00 16)).

Definition blocks (data : list byte) : list Z :=
  map (block_at data) (seq 0 ((length data + 15) / 16)).

Definition GHASH (h : Z) (a ct : list byte) : Z :=
  let lens := (Z.shiftl (8 * Z.of_nat (length a)) 64 + 8 * Z.of_nat (length ct))%Z in
  fold_left (fun y x => gf_mul (Z.lxor y x) h) (blocks a ++ blocks ct ++ [lens]) 0%Z.

Definition counter_block (iv : list byte) (n : Z) : list byte :=
  iv ++ Z_to_be 4 (n mod 2 ^ 32).

Definition keystream (key iv : list byte) (i : nat) : byte :=
  nth (i mod 16) (FIPS197.Cipher key (counter_block iv (Z.of_nat (i / 16) + 2))) x00.

Fixpoint GCTR (key iv : list byte) (off : nat) (p : list byte) : list byte :=
  match p with
  | [] => []
  | b :: p' => byte.xor b (keystream key iv off) :: GCTR key iv (S off) p'
  end.

Definition tag (key iv a ct : list byte) : list byte :=
  let h := be_to_Z (FIPS197.Cipher key (repeat x00 16)) in
  FIPS197.AddRoundKey (FIPS197.Cipher key (counter_block iv 1))
                      (Z_to_be 16 (GHASH h a ct)).

Fixpoint bytes_eqb (x y : list byte) : bool :=
  match x, y with
  | [], [] => true
  | a :: x', b :: y' => Byte.eqb a b && bytes_eqb x' y'
  | _, _ => false
  end.

Definition seal (key iv p a : list byte) : list byte :=
  let ct := GCTR key iv 0 p in
  ct ++ tag key iv a ct.

Definition open (key iv ct a : list byte) : option (list byte) :=
  if length ct <? 16 then None
  else
    let body := firstn (length ct - 16) ct in
    let t := skipn (length ct - 16) ct in
    if bytes_eqb t (tag key iv a body) then Some (GCTR key iv 0 body) else None.

End SP800_38D.


Definition Std : Primitives := {|
  aes_encrypt_block := FIPS197.Cipher;
  gcm_seal := SP800_38D.seal;
  gcm_open := SP800_38D.open
|}.

(** Big-endian value of a byte string, the reading under which [k1] is an
    element of GF(2^128). *)
Definition be_value (l : list byte) : Z := SP800_38D.be_to_Z l.

Definition bytes_of_Z (l : list Z) : list byte := map byte.of_Z l.

Definition ascii_bytes (s : string) : list byte := list_byte_of_string s.


(** The derived key as the specification words it: the two blocks
    [00 01 'X' 00 || N1] and [00 02 'X' 00 || N1], each XORed with [K1]
    and encrypted under the master key, concatenated. *)
Definition DerivedKey_spec {P : Primitives} (masterKey K1 N1 : list byte) : list byte :=
  aes_encrypt_block masterKey (xor_bytes ([x00; x01; x58; x00] ++ N1) K1)
  ++ aes_encrypt_block masterKey (xor_bytes ([x00; x02; x58; x00] ++ N1) K1).

(** Doubling in GF(2^128) as the specification words it: the 16-byte value
    shifted left by one bit, then the last byte XORed with 0x87 when the
    most significant bit of the original was set. *)
Definition double_spec (L : list byte) : list byte :=
  let shifted := SP800_38D.Z_to_be 16 (Z.shiftl (be_value L) 1) in
  if Z.testbit (be_value L) 127
  then set_nth 15 (byte.xor (nth 15 shifted x00) x87) shifted
  else shifted.

(* ===================================================================== *)
(** ** AES-256 decryption

    The inverse cipher of FIPS 197, used to show that encryption under a
    key is one-to-one. *)
(* ===================================================================== *)

Module FIPS197_Inv.
Import FIPS197.

Definition inv_sbox_table : list byte :=
  Eval vm_compute in
    map (fun j => match find (fun i => Byte.eqb (sbox (byte.of_Z (Z.of_nat i)))
                                                (byte.of_Z (Z.of_nat j))) (seq 0 256) with
                  | Some i => byte.of_Z (Z.of_nat i)
                  | None => x00
                  end) (seq 0 256).

Definition inv_sbox (a : byte) : byte :=
  nth (Z.to_nat (byte.unsigned a)) inv_sbox_table x00.

Definition InvSubBytes (st : list byte) : list byte :=
  build16 (fun i => inv_sbox (at16 st i)).

Definition InvShiftRows (st : list byte) : list byte :=
  build16 (fun i => let r := i mod 4 in let col := i / 4 in
                    at16 st (r + 4 * ((col + 4 - r) mod 4))).

Definition InvMixColumns (st : list byte) : list byte :=
  build16 (fun i =>
    let r := i mod 4 in
    let col := i / 4 in
    let a := fun j => at16 st ((r + j) mod 4 + 4 * col) in
    byte.xor (gmul x0e (a 0)) (byte.xor (gmul x0b (a 1))
      (byte.xor (gmul x0d (a 2)) (gmul x09 (a 3))))).

Definition undo_round (w : list word) (r : nat) (st : list byte) : list byte :=
  InvSubBytes (InvShiftRows (InvMixColumns (AddRoundKey st (round_key w r)))).

Fixpoint inv_rounds (n r : nat) (w : list word) (st : list byte) : list byte :=
  match n with
  | O => st
  | S n' => undo_round w r (inv_rounds n' (S r) w st)
  end.

Definition InvCipher (key block : list byte) : list byte :=
  let w := KeyExpansion key in
  let st := InvSubBytes (InvShiftRows (AddRoundKey block (round_key w 14))) in
  let st := inv_rounds 13 1 w st in
  AddRoundKey st (round_key w 0).

End FIPS197_Inv.

(** Inputs of the published XAES-256-GCM test vector, and the instance
    its key gives. *)
Definition kat_key : list byte := repeat x01 32.
Definition kat_nonce : list byte := ascii_bytes "ABCDEFGHIJKLMNOPQRSTUVWX".
Definition kat_plaintext : list byte := ascii_bytes "XAES-256-GCM".

Definition kat_k1 : list byte :=
  [xe5; x31; x95; x4a; xca; x06; x3d; x5b; x8d; x9c; x47; xa4; x7d; x4c; xc6; xf0].

Definition kat_manual : xaes256gcmManual := mkManual (Some (mkBlock kat_key)) kat_k1.
Definition kat_auto : xaes256gcm := mkAuto kat_manual.

Definition kat_derived_key : list byte :=
  [xc8; x61; x2c; x9e; xd5; x3f; xe4; x3e; x8e; x00; x5b; x82; x8a; x16; x31; xa0;
   xbb; xcb; x6a; xb2; xf4; x65; x14; xec; x4f; x43; x9f; xcf; xd0; xfa; x96; x9b].

Definition kat_ciphertext : list byte :=
  [xce; x54; x6e; xf6; x3c; x9c; xc6; x07; x65; x92; x36; x09; xb3; x3a; x9a; x19;
   x74; xe9; x6e; x52; xda; xf2; xfc; xf7; x07; x5e; x22; x71].

(** A destination with 3 bytes in use and room for 64 more, and one with
    no room at all. *)
Definition roomy_dst : slice := mkSlice [xaa; xbb; xcc] (repeat x00 64).
Definition tight_dst : slice := mkSlice [xaa; xbb; xcc] [].

(** A second random source for the test vector's inputs, and what
    automatic Seal returns on it. *)
Definition kat_nonce2 : list byte := rev kat_nonce.

Definition kat_sealed2 : slice :=
  Eval vm_compute in
    match fst (@xaes256gcm_Seal Std kat_auto kat_nonce2 tight_dst [] kat_plaintext []) with
    | Ret s => s
    | _ => nil_slice
    end.

(** Storage for in-place calls: a buffer of 64 bytes that starts with the
    plaintext of the vector, and the nonce in an array of its own.
    [shared_plaintext] is [buf[:12]], so [Mem.upto shared_plaintext 0] is
    [plaintext[:0]]. *)
Definition shared_heap : Mem.heap :=
  Mem.of_arrays [kat_plaintext ++ repeat x00 52; kat_nonce].

Definition shared_plaintext : Mem.ref := Mem.mkRef 0 0 12 64.
Definition shared_nonce : Mem.ref := Mem.whole 1 24.

(** The same with a plaintext of 30 bytes in a buffer of 100. *)
Definition long_heap : Mem.heap := Mem.of_arrays [repeat x61 30 ++ repeat x00 70].
Definition long_plaintext : Mem.ref := Mem.mkRef 0 0 30 100.

(** A sealed message of 30 bytes 'a', nonce in front, in an array of its
    own. *)
Definition long_sealed : list byte :=
  Eval vm_compute in
    match fst (@xaes256gcm_Seal Std kat_auto kat_nonce nil_slice [] (repeat x61 30) []) with
    | Ret s => elems s
    | _ => []
    end.

Definition long_sealed_heap : Mem.heap := Mem.of_arrays [long_sealed].
Definition long_sealed_ref : Mem.ref := Mem.whole 0 70.

(** Storage with every slice in an array of its own: the plaintext, one
    byte of additional data, [roomy_dst], [tight_dst], the nonce with 64
    bytes of capacity, and the vector's nonce and ciphertext as one
    message. *)
Definition apart_heap : Mem.heap :=
  Mem.of_arrays [kat_plaintext; [x2a]; elems roomy_dst ++ spare roomy_dst;
                 elems tight_dst; kat_nonce ++ repeat x00 40;
                 kat_nonce ++ kat_ciphertext].

Definition apart_plaintext : Mem.ref := Mem.whole 0 12.
Definition apart_ad : Mem.ref := Mem.whole 1 1.
Definition apart_roomy : Mem.ref := Mem.mkRef 2 0 3 67.
Definition apart_tight : Mem.ref := Mem.whole 3 3.
Definition apart_nonce : Mem.ref := Mem.mkRef 4 0 24 64.
Definition apart_sealed : Mem.ref := Mem.whole 5 52.

(** [r] is what a call returns with destination [dst] when [r0] is what
    it returns with an empty destination: the same error, or the contents
    of [dst] followed by the bytes of [r0]; and [r0] is no panic. *)
Definition appends_to (dst : slice) (r0 r : outcome slice) : Prop :=
  match r0 with
  | Ret p => exists s, r = Ret s /\ elems s = elems dst ++ elems p
  | Err e => r = Err e
  | Panic _ => False
  end.

(** The shift loop read as a recursion from the last byte: the carry
    leaving a byte string and the shifted string, for a carry [cin]
    entering at the right end. *)
Fixpoint shift_left1 (l : list byte) (cin : byte) : byte * list byte :=
  match l with
  | [] => (cin, [])
  | b :: t =>
      let r := shift_left1 t cin in
      (shr b 7, bor (shl b 1) (fst r) :: snd r)
  end.

(* ===================================================================== *)
(** ** Lists and slices *)
(* ===================================================================== *)

Lemma length_xor_bytes (x y : list byte) :
  length (xor_bytes x y) = Nat.min (length x) (length y).
Proof.
  revert y. induction x as [|a x IH]; intros [|b y]; simpl; auto.
Qed.

Lemma firstn_exact {A} (l : list A) n : length l = n -> firstn n l = l.
Proof. intros <-. apply firstn_all. Qed.

Lemma skipn_exact {A} (l : list A) n : length l = n -> skipn n l = [].
Proof. intros <-. apply skipn_all. Qed.

Lemma firstn_app_exact {A} (a b : list A) n : length a = n -> firstn n (a ++ b) = a.
Proof.
  intros <-. rewrite firstn_app, firstn_all, Nat.sub_diag. simpl. apply app_nil_r.
Qed.

Lemma skipn_app_exact {A} (a b : list A) n : length a = n -> skipn n (a ++ b) = b.
Proof.
  intros <-. rewrite skipn_app, skipn_all, Nat.sub_diag. reflexivity.
Qed.

Lemma sub_elems (a b r sp : list byte) lo hi :
  length a = lo -> lo + length b = hi ->
  sub (mkSlice (a ++ b ++ r) sp) lo hi = Ret b.
Proof.
  intros Ha Hb. unfold sub, cap, mem. cbn [elems spare].
  replace ((lo <=? hi) && (hi <=? length (a ++ b ++ r) + length sp)) with true.
  - f_equal. rewrite <- !app_assoc, (skipn_app_exact a _ lo Ha).
    apply firstn_app_exact. lia.
  - symmetry. apply andb_true_intro. rewrite !length_app.
    split; apply Nat.leb_le; lia.
Qed.

Lemma sub_from_elems (a b sp : list byte) lo :
  length a = lo -> sub_from (mkSlice (a ++ b) sp) lo = Ret b.
Proof.
  intros Ha. unfold sub_from, len. cbn [elems].
  replace (lo <=? length (a ++ b)) with true.
  - f_equal. apply skipn_app_exact, Ha.
  - symmetry. apply Nat.leb_le. rewrite length_app. lia.
Qed.

Lemma store_elems (a b r sp w : list byte) off :
  length a = off -> length w = length b ->
  store (mkSlice (a ++ b ++ r) sp) off w = mkSlice (a ++ w ++ r) sp.
Proof.
  intros Ha Hw. unfold store, mem, len. cbn [elems spare].
  assert (E1 : firstn off ((a ++ b ++ r) ++ sp) = a).
  { rewrite <- app_assoc. now apply firstn_app_exact. }
  assert (E2 : skipn (off + length w) ((a ++ b ++ r) ++ sp) = r ++ sp).
  { replace ((a ++ b ++ r) ++ sp) with ((a ++ b) ++ r ++ sp)
      by (now rewrite <- !app_assoc).
    apply skipn_app_exact. rewrite length_app. lia. }
  rewrite E1, E2.
  replace (a ++ w ++ r ++ sp) with ((a ++ w ++ r) ++ sp)
    by (now rewrite <- !app_assoc).
  assert (E3 : length (a ++ w ++ r) = length (a ++ b ++ r))
    by (rewrite !length_app; lia).
  now rewrite firstn_app_exact, skipn_app_exact.
Qed.

Lemma append_fits (e sp bs : list byte) :
  length bs <= length sp ->
  append (mkSlice e sp) bs = mkSlice (e ++ bs) (skipn (length bs) sp).
Proof.
  intros H. unfold append. cbn [elems spare].
  apply Nat.leb_le in H. now rewrite H.
Qed.

Lemma elems_appendTo dst out : elems (appendTo dst out) = elems dst ++ out.
Proof. unfold appendTo. destruct (_ <=? _); reflexivity. Qed.

Lemma appendTo_fits (e sp out : list byte) :
  length out <= length sp ->
  appendTo (mkSlice e sp) out = mkSlice (e ++ out) (skipn (length out) sp).
Proof.
  intros H. unfold appendTo. cbn [elems spare].
  apply Nat.leb_le in H. now rewrite H.
Qed.

(* ===================================================================== *)
(** ** Bytes and big-endian values *)
(* ===================================================================== *)

Local Open Scope Z_scope.

Lemma unsigned_shr7 (b : byte) : byte.unsigned (shr b 7) = byte.unsigned b / 128.
Proof. destruct b; reflexivity. Qed.

Lemma carry_cases (cy : byte) : byte.unsigned cy <= 1 -> cy = x00 \/ cy = x01.
Proof.
  intros H. pose proof (byte.unsigned_range cy) as R.
  assert (E : byte.unsigned cy = 0 \/ byte.unsigned cy = 1) by lia.
  destruct E as [E|E]; [left|right]; apply byte.unsigned_inj; rewrite E; reflexivity.
Qed.

Lemma unsigned_shl1_bor (b cy : byte) :
  byte.unsigned cy <= 1 ->
  byte.unsigned (bor (shl b 1) cy) = (2 * byte.unsigned b) mod 256 + byte.unsigned cy.
Proof.
  intros H. destruct (carry_cases cy H) as [-> | ->]; destruct b; reflexivity.
Qed.

Lemma byte_split_msb (b : byte) :
  (2 * byte.unsigned b) mod 256 + 256 * (byte.unsigned b / 128) = 2 * byte.unsigned b.
Proof. destruct b; reflexivity. Qed.

Lemma xor_x00_r (b : byte) : byte.xor b x00 = b.
Proof. destruct b; reflexivity. Qed.

Lemma be_to_Z_acc (l : list byte) (acc : Z) :
  fold_left (fun a b => a * 256 + byte.unsigned b) l acc
  = acc * 256 ^ Z.of_nat (length l) + SP800_38D.be_to_Z l.
Proof.
  unfold SP800_38D.be_to_Z. revert acc.
  induction l as [|b t IH]; intros acc.
  - simpl. lia.
  - cbn [fold_left length]. rewrite IH, (IH (0 * 256 + _)).
    rewrite Nat2Z.inj_succ, Z.pow_succ_r by lia. ring.
Qed.

Lemma be_value_cons (b : byte) (t : list byte) :
  be_value (b :: t) = byte.unsigned b * 256 ^ Z.of_nat (length t) + be_value t.
Proof.
  unfold be_value at 1. unfold SP800_38D.be_to_Z. cbn [fold_left].
  rewrite be_to_Z_acc. reflexivity.
Qed.

Lemma be_value_range (l : list byte) : 0 <= be_value l < 256 ^ Z.of_nat (length l).
Proof.
  induction l as [|b t IH].
  - cbv. split; congruence.
  - rewrite be_value_cons. cbn [length].
    rewrite Nat2Z.inj_succ, Z.pow_succ_r by lia.
    pose proof (byte.unsigned_range b) as R. change (2 ^ 8) with 256 in R.
    nia.
Qed.

Lemma Z_to_be_be_value (l : list byte) (k : Z) :
  SP800_38D.Z_to_be (length l) (be_value l + k * 256 ^ Z.of_nat (length l)) = l.
Proof.
  revert k. induction l as [|b t IH]; intros k; [reflexivity|].
  cbn [length SP800_38D.Z_to_be]. rewrite be_value_cons.
  rewrite Nat2Z.inj_succ, Z.pow_succ_r by lia.
  set (m := 256 ^ Z.of_nat (length t)).
  assert (Hm : 0 < m) by (apply Z.pow_pos_nonneg; lia).
  pose proof (be_value_range t) as Rt. fold m in Rt.
  replace (byte.unsigned b * m + be_value t + k * (256 * m))
    with (be_value t + (byte.unsigned b + 256 * k) * m) by ring.
  f_equal.
  - rewrite Z.shiftr_div_pow2 by lia.
    replace (2 ^ (8 * Z.of_nat (length t))) with m
      by (unfold m; rewrite Z.pow_mul_r by lia; reflexivity).
    rewrite Z.div_add by lia. rewrite Z.div_small by lia.
    apply byte.unsigned_inj. rewrite byte.unsigned_of_Z. unfold byte.wrap.
    change (2 ^ 8) with 256.
    rewrite Z.add_0_l, Z.mul_comm, Z_mod_plus_full.
    apply Z.mod_small. apply byte.unsigned_range.
  - apply IH.
Qed.

Lemma Z_to_be_length n z : length (SP800_38D.Z_to_be n z) = n.
Proof. induction n; simpl; congruence. Qed.

(* ===================================================================== *)
(** ** The doubling loop *)
(* ===================================================================== *)

Lemma shift_left1_snoc (p : list byte) (b cin : byte) :
  shift_left1 (p ++ [b]) cin
  = (fst (shift_left1 p (shr b 7)),
     snd (shift_left1 p (shr b 7)) ++ [bor (shl b 1) cin]).
Proof.
  induction p as [|a p IH]; [reflexivity|].
  cbn [app shift_left1]. rewrite IH. reflexivity.
Qed.

Lemma set_nth_middle (p suf : list byte) (b v : byte) :
  set_nth (length p) v (p ++ b :: suf) = p ++ v :: suf.
Proof.
  unfold set_nth.
  rewrite firstn_app_exact by reflexivity.
  replace (p ++ b :: suf) with ((p ++ [b]) ++ suf) by (now rewrite <- app_assoc).
  rewrite skipn_app_exact; [reflexivity|].
  rewrite length_app. simpl. lia.
Qed.

(** The loop over indices [length pre - 1 .. 0] leaves the bytes behind
    [pre] alone and shifts [pre] as [shift_left1] does. *)
Lemma shift_loop_app (pre suf : list byte) (msb : byte) :
  shift_loop (length pre) msb (pre ++ suf)
  = (fst (shift_left1 pre msb), snd (shift_left1 pre msb) ++ suf).
Proof.
  revert suf msb. induction pre as [|b p IH] using rev_ind; intros suf msb.
  - reflexivity.
  - rewrite length_app, Nat.add_comm. cbn [length Nat.add shift_loop].
    rewrite <- app_assoc. cbn [app].
    rewrite nth_middle, set_nth_middle, IH, shift_left1_snoc.
    cbn [fst snd]. now rewrite <- app_assoc.
Qed.

Lemma shift_loop_whole (l : list byte) :
  shift_loop (length l) x00 l = shift_left1 l x00.
Proof.
  rewrite <- (app_nil_r l) at 2. rewrite shift_loop_app, app_nil_r.
  now destruct (shift_left1 l x00).
Qed.

Lemma shift_left1_value (l : list byte) (cin : byte) :
  byte.unsigned cin <= 1 ->
  be_value (snd (shift_left1 l cin))
    + byte.unsigned (fst (shift_left1 l cin)) * 256 ^ Z.of_nat (length l)
  = 2 * be_value l + byte.unsigned cin
  /\ byte.unsigned (fst (shift_left1 l cin)) <= 1
  /\ length (snd (shift_left1 l cin)) = length l.
Proof.
  intros Hc. induction l as [|b t (IHv & IHc & IHl)].
  - cbn. repeat split; auto. unfold be_value, SP800_38D.be_to_Z. simpl. lia.
  - cbn [shift_left1 fst snd]. rewrite !be_value_cons. cbn [length].
    rewrite IHl, unsigned_shl1_bor, unsigned_shr7 by assumption.
    rewrite Nat2Z.inj_succ, Z.pow_succ_r by lia.
    pose proof (byte_split_msb b) as Hs.
    pose proof (byte.unsigned_range b) as Rb. change (2 ^ 8) with 256 in Rb.
    repeat split.
    + set (m := 256 ^ Z.of_nat (length t)) in *.
      transitivity (((2 * byte.unsigned b) mod 256 + 256 * (byte.unsigned b / 128)) * m
                    + (be_value (snd (shift_left1 t cin))
                       + byte.unsigned (fst (shift_left1 t cin)) * m)); [ring|].
      rewrite Hs, IHv. ring.
    + assert (byte.unsigned b / 128 < 2) by (apply Z.div_lt_upper_bound; lia). lia.
Qed.

Lemma set_nth_same (a : list byte) (i : nat) :
  (i < length a)%nat -> set_nth i (nth i a x00) a = a.
Proof.
  intros H. unfold set_nth. apply firstn_skipn_middle.
  now apply nth_error_nth'.
Qed.

Lemma testbit_127_of_carry (v r cy : Z) :
  0 <= v < 2 ^ 128 -> 0 <= r < 2 ^ 128 -> 0 <= cy <= 1 ->
  r + cy * 2 ^ 128 = 2 * v ->
  Z.testbit v 127 = (cy =? 1).
Proof.
  intros Hv Hr Hcy E.
  assert (C : cy = 0 \/ cy = 1) by lia. destruct C as [-> | ->].
  - change (0 =? 1) with false. apply Z.testbit_false; [lia|].
    rewrite Z.div_small; [reflexivity|].
    change (2 ^ 128) with (2 * 2 ^ 127) in *. lia.
  - change (1 =? 1) with true. apply Z.testbit_true; [lia|].
    replace (v / 2 ^ 127) with 1; [reflexivity|].
    change (2 ^ 128) with (2 * 2 ^ 127) in *.
    apply Z.div_unique with (r := v - 2 ^ 127); lia.
Qed.

(** The loop and the conditional XOR of [newWithManualNonces] double a
    16-byte string in GF(2^128). *)
Lemma shift_loop_double (L : list byte) :
  length L = 16%nat ->
  (let '(msb, a) := shift_loop (length L) x00 L in
   set_nth (length a - 1) (byte.xor (nth (length a - 1) a x00) (bmul msb x87)) a)
  = double_spec L.
Proof.
  intros HL. rewrite shift_loop_whole.
  destruct (shift_left1_value L x00) as (Hv & Hc & Hl); [cbv; congruence|].
  destruct (shift_left1 L x00) as [msb a]. cbn [fst snd] in *.
  rewrite HL in *. rewrite Hl.
  change (byte.unsigned x00) with 0 in Hv. rewrite Z.add_0_r in Hv.
  unfold double_spec.
  assert (Hs : SP800_38D.Z_to_be 16 (Z.shiftl (be_value L) 1) = a).
  { rewrite Z.shiftl_mul_pow2 by lia. change (2 ^ 1) with 2.
    rewrite Z.mul_comm, <- Hv, <- Hl. apply Z_to_be_be_value. }
  rewrite Hs.
  pose proof (be_value_range L) as RL. pose proof (be_value_range a) as Ra.
  rewrite HL in RL. rewrite Hl in Ra.
  change (256 ^ Z.of_nat 16) with (2 ^ 128) in *.
  pose proof (byte.unsigned_range msb) as Rm.
  rewrite (testbit_127_of_carry (be_value L) (be_value a) (byte.unsigned msb))
    by (auto; lia).
  change (16 - 1)%nat with 15%nat.
  destruct (carry_cases msb Hc) as [-> | ->].
  - change (byte.unsigned x00 =? 1) with false. cbv iota.
    change (bmul x00 x87) with x00. rewrite xor_x00_r.
    apply set_nth_same. lia.
  - change (byte.unsigned x01 =? 1) with true. cbv iota.
    change (bmul x01 x87) with x87. reflexivity.
Qed.

Local Close Scope Z_scope.

(* ===================================================================== *)
(** ** Construction *)
(* ===================================================================== *)

Section Construction.
Context {P : Primitives} {Pok : PrimitivesOk P}.

Lemma aes_NewCipher_32 (key : list byte) :
  length key = 32 -> aes_NewCipher key = (Some (mkBlock key), None).
Proof. intros H. unfold aes_NewCipher. now rewrite H. Qed.

Lemma Block_Encrypt_block (key blk : list byte) :
  length blk = 16 ->
  Block_Encrypt (Some (mkBlock key)) blk blk = Ret (aes_encrypt_block key blk).
Proof.
  intros H. unfold Block_Encrypt, aes_BlockSize. rewrite H. cbn [Nat.ltb Nat.leb blk_key].
  rewrite firstn_exact, skipn_exact, app_nil_r by assumption. reflexivity.
Qed.

Lemma newWithManualNonces_32 (key : list byte) :
  length key = 32 ->
  newWithManualNonces key
  = Ret (mkManual (Some (mkBlock key))
                  (double_spec (aes_encrypt_block key (repeat x00 16)))).
Proof.
  intros H. unfold newWithManualNonces, KeySize. rewrite H. cbn [Nat.eqb negb].
  rewrite aes_NewCipher_32 by assumption. cbn [fst].
  rewrite Block_Encrypt_block by reflexivity. cbn [bind].
  pose proof (shift_loop_double (aes_encrypt_block key (repeat x00 aes_BlockSize))) as D.
  destruct (shift_loop _ _ _) as [msb a].
  rewrite D; [reflexivity|]. now apply aes_encrypt_block_length.
Qed.

Lemma newWithManualNonces_bad (key : list byte) :
  length key <> 32 ->
  newWithManualNonces key = Err (errors_New "xaes256gcm: bad key length").
Proof.
  intros H. unfold newWithManualNonces, KeySize.
  apply Nat.eqb_neq in H. now rewrite H.
Qed.

End Construction.

(* ===================================================================== *)
(** ** Key derivation *)
(* ===================================================================== *)

Section Derivation.
Context {P : Primitives} {Pok : PrimitivesOk P}.

Lemma sub_lo (b1 b2 sp : list byte) :
  length b1 = 16 -> sub (mkSlice (b1 ++ b2) sp) 0 aes_BlockSize = Ret b1.
Proof. intros H. apply (sub_elems [] b1 b2 sp 0 16); auto. Qed.

Lemma sub_from_hi (b1 b2 sp : list byte) :
  length b1 = 16 -> sub_from (mkSlice (b1 ++ b2) sp) aes_BlockSize = Ret b2.
Proof. intros H. now apply sub_from_elems. Qed.

Lemma store_lo (b1 b2 sp w : list byte) :
  length b1 = 16 -> length w = 16 ->
  store (mkSlice (b1 ++ b2) sp) 0 w = mkSlice (w ++ b2) sp.
Proof. intros H1 Hw. apply (store_elems [] b1 b2 sp w 0); [reflexivity | congruence]. Qed.

Lemma store_hi (b1 b2 sp w : list byte) :
  length b1 = 16 -> length w = length b2 ->
  store (mkSlice (b1 ++ b2) sp) aes_BlockSize w = mkSlice (b1 ++ w) sp.
Proof.
  intros H1 Hw.
  pose proof (store_elems b1 b2 [] sp w 16 H1 Hw) as E.
  now rewrite !app_nil_r in E.
Qed.

Lemma subtle_XORBytes_block (x y : list byte) :
  length x = 16 -> length y = 16 ->
  subtle_XORBytes x x y = Ret (xor_bytes x y).
Proof.
  intros Hx Hy. unfold subtle_XORBytes. rewrite Hx, Hy.
  cbn [Nat.min Nat.ltb Nat.leb].
  rewrite !firstn_exact, skipn_exact, app_nil_r by assumption. reflexivity.
Qed.

Lemma four_appends (n1 : list byte) :
  length n1 = 12 ->
  append (append (append (append (mkSlice [] (repeat x00 32)) [x00; x01; x58; x00]) n1)
                 [x00; x02; x58; x00]) n1
  = mkSlice (([x00; x01; x58; x00] ++ n1) ++ [x00; x02; x58; x00] ++ n1) [].
Proof.
  intros Hn.
  rewrite append_fits by (simpl; lia). cbn [length skipn repeat app].
  rewrite append_fits by (rewrite Hn; simpl; lia). rewrite Hn. cbn [skipn].
  rewrite append_fits by (simpl; lia). cbn [length skipn].
  rewrite append_fits by (rewrite Hn; simpl; lia). rewrite Hn. cbn [skipn].
  now rewrite <- !app_assoc.
Qed.

(** On a 12-byte prefix, [deriveKey] returns the two encrypted blocks in
    a slice with no spare capacity. *)
Lemma deriveKey_12 (key K1 n1 : list byte) :
  length key = 32 -> length K1 = 16 -> length n1 = 12 ->
  deriveKey (mkManual (Some (mkBlock key)) K1) n1
  = Ret (mkSlice (DerivedKey_spec key K1 n1) []).
Proof.
  intros Hk H1 Hn. unfold deriveKey, DerivedKey_spec.
  change (make 0 (2 * aes_BlockSize)) with (Ret (mkSlice [] (repeat x00 32))).
  cbn [bind c k1]. rewrite four_appends by assumption.
  set (b1 := [x00; x01; x58; x00] ++ n1).
  set (b2 := [x00; x02; x58; x00] ++ n1).
  assert (L1 : length b1 = 16) by (unfold b1; rewrite length_app, Hn; reflexivity).
  assert (L2 : length b2 = 16) by (unfold b2; rewrite length_app, Hn; reflexivity).
  assert (X1 : length (xor_bytes b1 K1) = 16)
    by (rewrite length_xor_bytes, L1, H1; reflexivity).
  assert (X2 : length (xor_bytes b2 K1) = 16)
    by (rewrite length_xor_bytes, L2, H1; reflexivity).
  rewrite sub_lo by assumption. cbn [bind].
  rewrite subtle_XORBytes_block by assumption. cbn [bind].
  rewrite store_lo by assumption.
  rewrite sub_from_hi by assumption. cbn [bind].
  rewrite subtle_XORBytes_block by assumption. cbn [bind].
  rewrite store_hi by (auto; congruence).
  rewrite sub_lo by assumption. cbn [bind].
  rewrite Block_Encrypt_block by assumption. cbn [bind].
  rewrite store_lo by (auto using aes_encrypt_block_length).
  rewrite sub_from_hi by (auto using aes_encrypt_block_length). cbn [bind].
  rewrite Block_Encrypt_block by assumption. cbn [bind].
  rewrite store_hi; auto using aes_encrypt_block_length.
  rewrite X2. auto using aes_encrypt_block_length.
Qed.

Lemma DerivedKey_spec_length (key K1 n1 : list byte) :
  length key = 32 -> length K1 = 16 -> length n1 = 12 ->
  length (DerivedKey_spec key K1 n1) = 32.
Proof.
  intros Hk H1 Hn. unfold DerivedKey_spec.
  rewrite length_app, !aes_encrypt_block_length; auto;
    rewrite length_xor_bytes, length_app, Hn, H1; reflexivity.
Qed.

Lemma double_spec_length (L : list byte) : length (double_spec L) = 16.
Proof.
  unfold double_spec. destruct (Z.testbit _ _).
  - unfold set_nth. rewrite length_app. cbn [length].
    rewrite length_firstn, length_skipn, Z_to_be_length. reflexivity.
  - apply Z_to_be_length.
Qed.

End Derivation.

(* ===================================================================== *)
(** ** Seal and Open with manual nonces *)
(* ===================================================================== *)

Section Manual.
Context {P : Primitives} {Pok : PrimitivesOk P}.

Lemma cipher_NewGCM_aes (b : Block) :
  cipher_NewGCM (Some b) = Ret (Some (mkAEAD b), None).
Proof. reflexivity. Qed.

Lemma nonce_halves (nonce : list byte) :
  length nonce = 24 ->
  bytes_upto nonce 12 = Ret (firstn 12 nonce)
  /\ bytes_from nonce 12 = Ret (skipn 12 nonce)
  /\ length (firstn 12 nonce) = 12
  /\ length (skipn 12 nonce) = 12.
Proof.
  intros H. unfold bytes_upto, bytes_from.
  rewrite length_firstn, length_skipn, H. repeat split.
Qed.

Lemma xaes256gcmManual_Seal_24 (key K1 : list byte) dst (nonce pt ad : list byte) :
  length key = 32 -> length K1 = 16 -> length nonce = 24 ->
  xaes256gcmManual_Seal (mkManual (Some (mkBlock key)) K1) dst nonce pt ad
  = Ret (appendTo dst (gcm_seal (DerivedKey_spec key K1 (firstn 12 nonce))
                                (skipn 12 nonce) pt ad)).
Proof.
  intros Hk H1 Hn. unfold xaes256gcmManual_Seal, NonceSize.
  destruct (nonce_halves nonce Hn) as (E1 & E2 & L1 & L2).
  rewrite Hn, E1, E2. cbn [Nat.eqb negb bind].
  rewrite deriveKey_12 by assumption. cbn [bind elems].
  rewrite aes_NewCipher_32 by (now apply DerivedKey_spec_length).
  cbn [fst]. rewrite cipher_NewGCM_aes. cbn [bind fst].
  unfold AEAD_Seal, gcmStandardNonceSize. rewrite L2. reflexivity.
Qed.

Lemma xaes256gcmManual_Open_24 (key K1 : list byte) dst (nonce ct ad : list byte) :
  length key = 32 -> length K1 = 16 -> length nonce = 24 ->
  xaes256gcmManual_Open (mkManual (Some (mkBlock key)) K1) dst nonce ct ad
  = match gcm_open (DerivedKey_spec key K1 (firstn 12 nonce)) (skipn 12 nonce) ct ad with
    | Some p => Ret (appendTo dst p)
    | None => Err cipher_errOpen
    end.
Proof.
  intros Hk H1 Hn. unfold xaes256gcmManual_Open, NonceSize.
  destruct (nonce_halves nonce Hn) as (E1 & E2 & L1 & L2).
  rewrite Hn, E1, E2. cbn [Nat.eqb negb bind].
  rewrite deriveKey_12 by assumption. cbn [bind elems].
  rewrite aes_NewCipher_32 by (now apply DerivedKey_spec_length).
  cbn [fst]. rewrite cipher_NewGCM_aes. cbn [bind fst].
  unfold AEAD_Open, gcmStandardNonceSize. rewrite L2. reflexivity.
Qed.

(** What construction establishes about an instance. *)
Lemma newWithManualNonces_inv (key : list byte) (x : xaes256gcmManual) :
  newWithManualNonces key = Ret x ->
  length key = 32
  /\ x = mkManual (Some (mkBlock key))
                  (double_spec (aes_encrypt_block key (repeat x00 16))).
Proof.
  intros H. destruct (Nat.eq_dec (length key) 32) as [E|E].
  - rewrite newWithManualNonces_32 in H by assumption. split; congruence.
  - rewrite newWithManualNonces_bad in H by assumption. discriminate.
Qed.

End Manual.

(* ===================================================================== *)
(** ** Seal with automatic nonces: the destination buffer *)
(* ===================================================================== *)

Lemma sub_spare (e sp : list byte) (n : nat) :
  n <= length sp ->
  sub (mkSlice e sp) (length e) (length e + n) = Ret (firstn n sp).
Proof.
  intros H. unfold sub, cap, mem. cbn [elems spare].
  replace ((length e <=? length e + n) && (length e + n <=? length e + length sp))
    with true.
  - rewrite skipn_app_exact by reflexivity.
    now replace (length e + n - length e) with n by lia.
  - symmetry. apply andb_true_intro. split; apply Nat.leb_le; lia.
Qed.

Lemma store_spare (e sp w : list byte) :
  length w <= length sp ->
  store (mkSlice e sp) (length e) w = mkSlice e (w ++ skipn (length w) sp).
Proof.
  intros H. unfold store, mem, len. cbn [elems spare].
  assert (E1 : firstn (length e) (e ++ sp) = e) by now apply firstn_app_exact.
  assert (E2 : skipn (length e + length w) (e ++ sp) = skipn (length w) sp).
  { rewrite skipn_app, skipn_all2 by lia.
    now replace (length e + length w - length e) with (length w) by lia. }
  rewrite E1, E2. now rewrite firstn_app_exact, skipn_app_exact.
Qed.

Lemma upto_spare (e w t : list byte) :
  upto (mkSlice e (w ++ t)) (length e + length w) = Ret (mkSlice (e ++ w) t).
Proof.
  unfold upto, cap, mem. cbn [elems spare].
  replace (length e + length w <=? length e + length (w ++ t)) with true
    by (symmetry; apply Nat.leb_le; rewrite length_app; lia).
  rewrite app_assoc, firstn_app_exact, skipn_app_exact; auto using length_app.
Qed.

Lemma make_copy (e : list byte) (total : nat) :
  length e <= total ->
  (tmp <- make (length e) total ;; Ret (copy tmp e))
  = Ret (mkSlice e (repeat x00 (total - length e))).
Proof.
  intros H. unfold make.
  replace (total <? length e) with false by (symmetry; apply Nat.ltb_ge; lia).
  cbn [bind]. unfold copy, len. cbn [elems spare].
  rewrite repeat_length, Nat.min_id, firstn_all.
  rewrite skipn_exact by apply repeat_length. now rewrite app_nil_r.
Qed.

Lemma rand_Read_some (rng r rng' : Rand) (n : nat) :
  rand_Read rng n = (Some r, rng') ->
  n <= length rng /\ r = firstn n rng /\ rng' = skipn n rng /\ length r = n.
Proof.
  unfold rand_Read. destruct (n <=? length rng) eqn:E; [|discriminate].
  apply Nat.leb_le in E. intros H. inversion H; subst.
  repeat split; auto. rewrite length_firstn. lia.
Qed.

Section Automatic.
Context {P : Primitives}.

(** With an empty [nonce], [Seal] makes room behind [dst], reads 24
    bytes from the random source into that room and hands the extended
    [dst] to the manual [Seal]. *)
Lemma xaes256gcm_Seal_shape (m : xaes256gcmManual) (rng : Rand) dst (pt ad : list byte) :
  exists sp',
    length pt + 40 <= length sp'
    /\ xaes256gcm_Seal (mkAuto m) rng dst [] pt ad
       = match rand_Read rng NonceSize with
         | (Some r, rng') =>
             (xaes256gcmManual_Seal m (mkSlice (elems dst ++ r) (skipn 24 sp')) r pt ad,
              rng')
         | (None, rng') => (Panic "crypto/rand: read failed", rng')
         end.
Proof.
  destruct dst as [e sp].
  unfold xaes256gcm_Seal. cbn [length Nat.eqb negb manual]. cbv zeta.
  set (total := len (mkSlice e sp) + length pt + Overhead).
  assert (D : exists sp',
    (if cap (mkSlice e sp) <? total
     then tmp <- make (len (mkSlice e sp)) total ;; Ret (copy tmp (elems (mkSlice e sp)))
     else Ret (mkSlice e sp)) = Ret (mkSlice e sp')
    /\ length pt + 40 <= length sp').
  { destruct (cap (mkSlice e sp) <? total) eqn:C.
    - exists (repeat x00 (total - length e)). split.
      + apply make_copy. unfold total, len. cbn [elems]. lia.
      + rewrite repeat_length. unfold total, len, Overhead. cbn [elems]. lia.
    - exists sp. split; [reflexivity|].
      apply Nat.ltb_ge in C. unfold total, cap, len, Overhead in C.
      cbn [elems spare] in C. lia. }
  destruct D as (sp' & -> & Hsp). exists sp'. split; [exact Hsp|].
  change (len (mkSlice e sp')) with (length e). unfold NonceSize in *.
  rewrite sub_spare by lia.
  assert (Lw : length (firstn 24 sp') = 24) by (rewrite length_firstn; lia).
  rewrite Lw. cbn [elems].
  destruct (rand_Read rng 24) as [[r|] rng'] eqn:Hr; [|reflexivity].
  destruct (rand_Read_some _ _ _ _ Hr) as (_ & _ & _ & Lr).
  rewrite store_spare by lia.
  change (len (mkSlice e (r ++ skipn (length r) sp'))) with (length e).
  replace (length e + 24) with (length e + length r) by (now rewrite Lr).
  rewrite upto_spare. cbn [bind]. now rewrite Lr.
Qed.

End Automatic.

(* ===================================================================== *)
(** ** The executable instance meets the contract *)
(* ===================================================================== *)

Lemma byte_xor_involutive (a k : byte) : byte.xor (byte.xor a k) k = a.
Proof.
  apply byte.unsigned_inj. unfold byte.xor.
  rewrite !byte.unsigned_of_Z. unfold byte.wrap.
  rewrite <- (byte.wrap_unsigned a) at 2. unfold byte.wrap.
  apply Z.bits_inj'. intros n Hn.
  destruct (Z.lt_ge_cases n 8) as [Lt|Ge].
  - rewrite !Z.mod_pow2_bits_low by lia.
    rewrite Z.lxor_spec, Z.mod_pow2_bits_low, Z.lxor_spec by lia.
    now destruct (Z.testbit (byte.unsigned a) n), (Z.testbit (byte.unsigned k) n).
  - rewrite !Z.mod_pow2_bits_high by lia. reflexivity.
Qed.

Lemma bytes_eqb_refl (l : list byte) : SP800_38D.bytes_eqb l l = true.
Proof.
  induction l as [|b t IH]; [reflexivity|].
  cbn [SP800_38D.bytes_eqb]. rewrite IH, (@Byte.byte_dec_lb b b eq_refl). reflexivity.
Qed.

Lemma Cipher_length (key b : list byte) : length (FIPS197.Cipher key b) = 16.
Proof.
  unfold FIPS197.Cipher, FIPS197.AddRoundKey, FIPS197.build16.
  now rewrite length_map, length_seq.
Qed.

Lemma tag_length (key iv a ct : list byte) : length (SP800_38D.tag key iv a ct) = 16.
Proof.
  unfold SP800_38D.tag, FIPS197.AddRoundKey, FIPS197.build16.
  now rewrite length_map, length_seq.
Qed.

Lemma GCTR_length (key iv : list byte) (off : nat) (p : list byte) :
  length (SP800_38D.GCTR key iv off p) = length p.
Proof.
  revert off. induction p as [|b t IH]; intros off; [reflexivity|].
  cbn [SP800_38D.GCTR length]. now rewrite IH.
Qed.

Lemma GCTR_involutive (key iv : list byte) (off : nat) (p : list byte) :
  SP800_38D.GCTR key iv off (SP800_38D.GCTR key iv off p) = p.
Proof.
  revert off. induction p as [|b t IH]; intros off; [reflexivity|].
  cbn [SP800_38D.GCTR]. now rewrite byte_xor_involutive, IH.
Qed.

Lemma Std_open_seal (key iv p a : list byte) :
  SP800_38D.open key iv (SP800_38D.seal key iv p a) a = Some p.
Proof.
  unfold SP800_38D.open, SP800_38D.seal.
  set (ct := SP800_38D.GCTR key iv 0 p).
  set (t := SP800_38D.tag key iv a ct).
  assert (Lt : length t = 16) by apply tag_length.
  assert (Ll : length (ct ++ t) - 16 = length ct) by (rewrite length_app; lia).
  replace (length (ct ++ t) <? 16) with false
    by (symmetry; apply Nat.ltb_ge; rewrite length_app; lia).
  rewrite Ll, firstn_app_exact, skipn_app_exact by reflexivity.
  fold t. rewrite bytes_eqb_refl. unfold ct. now rewrite GCTR_involutive.
Qed.

Lemma StdOk : PrimitivesOk Std.
Proof.
  constructor; cbn [aes_encrypt_block gcm_seal gcm_open Std].
  - intros key b _ _. apply Cipher_length.
  - intros key n p a. unfold SP800_38D.seal.
    now rewrite length_app, GCTR_length, tag_length.
  - intros key n p a _ _. apply Std_open_seal.
Qed.

(* ===================================================================== *)
(** ** Published test vectors *)
(* ===================================================================== *)

Example fips197_c3 :
  FIPS197.Cipher
    (bytes_of_Z (map Z.of_nat (seq 0 32)))
    [x00; x11; x22; x33; x44; x55; x66; x77; x88; x99; xaa; xbb; xcc; xdd; xee; xff]
  = [x8e; xa2; xb7; xca; x51; x67; x45; xbf; xea; xfc; x49; x90; x4b; x49; x60; x89].
Proof. vm_compute. reflexivity. Qed.

Example gcm_zero_key_one_block :
  SP800_38D.seal (repeat x00 32) (repeat x00 12) (repeat x00 16) []
  = [xce; xa7; x40; x3d; x4d; x60; x6b; x6e; x07; x4e; xc5; xd3; xba; xf3; x9d; x18;
     xd0; xd1; xc8; xa7; x99; x99; x6b; xf0; x26; x5b; x98; xb5; xd4; x8a; xb9; x19].
Proof. vm_compute. reflexivity. Qed.

Example xaes_vector_k1 : @newWithManualNonces Std kat_key = Ret kat_manual.
Proof. vm_compute. reflexivity. Qed.

Example xaes_vector_derived_key :
  @deriveKey Std kat_manual (firstn 12 kat_nonce) = Ret (mkSlice kat_derived_key []).
Proof. vm_compute. reflexivity. Qed.

(** Outside its call sites: a prefix shorter than 12 bytes makes
    [deriveKey] panic, at [k[aes.BlockSize:]] or in the second [Encrypt]. *)
Example deriveKey_prefix_of_2 :
  @deriveKey Std kat_manual (firstn 2 kat_nonce) = Panic "slice bounds out of range".
Proof. vm_compute. reflexivity. Qed.

Example deriveKey_prefix_of_8 :
  @deriveKey Std kat_manual (firstn 8 kat_nonce) = Panic "crypto/aes: input not full block".
Proof. vm_compute. reflexivity. Qed.

Example xaes_vector_seal :
  @xaes256gcmManual_Seal Std kat_manual nil_slice kat_nonce kat_plaintext []
  = Ret (mkSlice kat_ciphertext []).
Proof. vm_compute. reflexivity. Qed.

Example xaes_vector_open :
  @xaes256gcmManual_Open Std kat_manual nil_slice kat_nonce kat_ciphertext []
  = Ret (mkSlice kat_plaintext []).
Proof. vm_compute. reflexivity. Qed.

(* ===================================================================== *)
(** ** The claims *)
(* ===================================================================== *)

(** What a proof knows of an instance [x] returned by the constructor from
    [Hx : newWithManualNonces key = Ret x]: the key has 32 bytes ([Hk]),
    [x] is the AES block of the key with the doubled zero block, and that
    [k1] has 16 bytes ([H1]). *)
Ltac constructed Hx :=
  match type of Hx with
  | newWithManualNonces ?key = Ret ?x =>
      destruct (newWithManualNonces_inv key x Hx) as (Hk & ->);
      pose proof (double_spec_length (aes_encrypt_block key (repeat x00 16))) as H1
  end.

(** The same from [Hx : New key = Ret x], with [E] the shape of [Seal] on
    an empty nonce. *)
Ltac constructed_auto Hx rng dst pt ad :=
  let Hm := fresh "Hm" in
  unfold New in Hx;
  match type of Hx with
  | match newWithManualNonces ?key with _ => _ end = Ret ?x =>
      let m := fresh "m" in
      destruct (newWithManualNonces key) as [m| |] eqn:Hm; inversion Hx; subst x;
      destruct (xaes256gcm_Seal_shape m rng dst pt ad) as (sp' & _ & E);
      constructed Hm
  end.

Section Claims.
Context {P : Primitives} {Pok : PrimitivesOk P}.

(** C1: for every instance built from a 32-byte key, every 24-byte
    nonce, every plaintext and every associated data, Open applied to
    what manual-nonce Seal appended, with the same instance, nonce and
    associated data, succeeds and returns exactly the plaintext
    (appended to its own destination). *)
Theorem manual_open_seal_roundtrip
    (key : list byte) (x : xaes256gcmManual) (nonce pt ad : list byte) (dst dst' : slice) :
  newWithManualNonces key = Ret x ->
  length nonce = NonceSize ->
  exists ct sealed opened,
    xaes256gcmManual_Seal x dst nonce pt ad = Ret sealed
    /\ elems sealed = elems dst ++ ct
    /\ xaes256gcmManual_Open x dst' nonce ct ad = Ret opened
    /\ elems opened = elems dst' ++ pt.
Proof.
  intros Hx Hn. constructed Hx.
  eexists _, _, _. split; [|split; [|split]].
  - now apply xaes256gcmManual_Seal_24.
  - apply elems_appendTo.
  - rewrite xaes256gcmManual_Open_24 by assumption.
    rewrite gcm_open_seal; [reflexivity| |].
    + now apply DerivedKey_spec_length; rewrite ?length_firstn, ?Hn.
    + now rewrite length_skipn, Hn.
  - apply elems_appendTo.
Qed.

(** C2: for every instance and every 12-byte nonce prefix N1, the
    derived key is the AES-256 encryption under the master key of
    (00 01 'X' 00 || N1) XOR K1, followed by that of
    (00 02 'X' 00 || N1) XOR K1, and is exactly 32 bytes long. *)
Theorem deriveKey_two_blocks (key : list byte) (x : xaes256gcmManual) (N1 : list byte) :
  newWithManualNonces key = Ret x ->
  length N1 = 12 ->
  exists k,
    deriveKey x N1 = Ret k
    /\ elems k
       = aes_encrypt_block key (xor_bytes ([x00; x01; x58; x00] ++ N1) (k1 x))
         ++ aes_encrypt_block key (xor_bytes ([x00; x02; x58; x00] ++ N1) (k1 x))
    /\ len k = 32.
Proof.
  intros Hx Hn. constructed Hx.
  eexists. split; [now apply deriveKey_12|]. cbn [elems k1]. split; [reflexivity|].
  unfold len. cbn [elems]. now apply DerivedKey_spec_length.
Qed.

(** C3: for every 32-byte master key, construction encrypts the
    all-zero block under the key and stores as K1 its double in
    GF(2^128): the 16 bytes shifted left by one bit, the last byte then
    XORed with 0x87 exactly when the top bit of the encrypted block was
    set. *)
Theorem k1_is_doubled_zero_block (key : list byte) :
  length key = KeySize ->
  exists x,
    newWithManualNonces key = Ret x
    /\ c x = Some (mkBlock key)
    /\ k1 x = double_spec (aes_encrypt_block key (repeat x00 16)).
Proof.
  intros Hk. eexists. split; [now apply newWithManualNonces_32|].
  split; reflexivity.
Qed.

(** C4, as the code has it: with automatic nonces, Open called with a
    non-empty nonce returns the error "xaes256gcm: bad nonce length",
    a returned error that is not [errOpen]. *)
Theorem auto_open_nonempty_nonce
    (x : xaes256gcm) (dst : slice) (nonce ct ad : list byte) :
  length nonce <> 0 ->
  xaes256gcm_Open x dst nonce ct ad = Err (errors_New "xaes256gcm: bad nonce length")
  /\ xaes256gcm_Open x dst nonce ct ad <> Err errOpen.
Proof.
  intros Hn. unfold xaes256gcm_Open.
  apply Nat.eqb_neq in Hn. rewrite Hn. cbn [negb].
  split; [reflexivity | discriminate].
Qed.

(** C5, on the code: for a key whose length is not 32, New returns the
    error "xaes256gcm: bad key length" and the nil interface, but
    NewWithManualNonces returns beside that error an interface value
    that is not nil: it holds the nil [*xaes256gcmManual], and its
    [NonceSize()] answers 24.  For a 32-byte key both return an instance
    and no error. *)
Theorem construction_checks_key_length (key : list byte) :
  (length key <> KeySize ->
     New key = Err (errors_New "xaes256gcm: bad key length")
     /\ NewWithManualNonces key
        = Ret (AEAD_manual None, Some (errors_New "xaes256gcm: bad key length"))
     /\ AEAD_manual None <> AEAD_nil
     /\ cipher_AEAD_NonceSize (AEAD_manual None) = Ret 24)
  /\ (length key = KeySize ->
        exists x, NewWithManualNonces key = Ret (AEAD_manual (Some x), None)
                  /\ New key = Ret (mkAuto x)).
Proof.
  unfold NewWithManualNonces, New, KeySize. split; intros H.
  - rewrite newWithManualNonces_bad by assumption.
    repeat split; discriminate.
  - rewrite newWithManualNonces_32 by assumption. eauto.
Qed.

(** C6: for a nonce whose length is not 24, manual-nonce Seal panics
    and manual-nonce Open returns the error
    "xaes256gcm: bad nonce length"; for a 24-byte nonce Seal returns and
    Open returns a plaintext or the authentication error of GCM. *)
Theorem manual_nonce_length_checks
    (key : list byte) (x : xaes256gcmManual) (dst : slice) (nonce pt ct ad : list byte) :
  newWithManualNonces key = Ret x ->
  (length nonce <> NonceSize ->
     xaes256gcmManual_Seal x dst nonce pt ad = Panic "xaes256gcm: bad nonce length"
     /\ xaes256gcmManual_Open x dst nonce ct ad
        = Err (errors_New "xaes256gcm: bad nonce length"))
  /\ (length nonce = NonceSize ->
        (exists s, xaes256gcmManual_Seal x dst nonce pt ad = Ret s)
        /\ ((exists s, xaes256gcmManual_Open x dst nonce ct ad = Ret s)
            \/ xaes256gcmManual_Open x dst nonce ct ad = Err cipher_errOpen)).
Proof.
  intros Hx. split; intros Hn.
  - unfold xaes256gcmManual_Seal, xaes256gcmManual_Open.
    apply Nat.eqb_neq in Hn. now rewrite Hn.
  - constructed Hx.
    rewrite xaes256gcmManual_Seal_24, xaes256gcmManual_Open_24 by assumption.
    split; [eauto|]. destruct (gcm_open _ _ _ _); eauto.
Qed.

(** C7, on the code: automatic Seal called in place, with
    [dst = plaintext[:0]] on a buffer that has the capacity for the
    output, writes the nonce over the plaintext before sealing it.  On
    the vector's key, nonce and 12-byte plaintext it returns the nonce
    followed by the manual-mode ciphertext of the first 12 bytes of the
    nonce, not of the plaintext, and Open of the result returns those 12
    bytes; on a plaintext of 30 bytes GCM panics on the overlap.
    Manual-nonce Seal on the same in-place call returns the ciphertext of
    the plaintext. *)
Theorem auto_seal_in_place_seals_the_nonce :
  (exists s h1,
     Mem.xaes256gcm_Seal (P := Std) kat_auto kat_nonce shared_heap
       (Mem.upto shared_plaintext 0) Mem.nil_ref shared_plaintext Mem.nil_ref
     = ((Ret s, h1), [])
     /\ Mem.rlen s = Mem.rlen shared_plaintext + Overhead
     /\ firstn NonceSize (Mem.read h1 s) = kat_nonce
     /\ Mem.read h1 shared_plaintext = firstn 12 kat_nonce
     /\ xaes256gcmManual_Seal (P := Std) kat_manual nil_slice kat_nonce
          (firstn 12 kat_nonce) []
        = Ret (mkSlice (skipn NonceSize (Mem.read h1 s)) [])
     /\ xaes256gcmManual_Seal (P := Std) kat_manual nil_slice kat_nonce kat_plaintext []
        <> Ret (mkSlice (skipn NonceSize (Mem.read h1 s)) [])
     /\ Mem.lift (Mem.xaes256gcm_Open (P := Std) kat_auto h1 Mem.nil_ref Mem.nil_ref s
                    Mem.nil_ref)
        = Ret (mkSlice (firstn 12 kat_nonce) []))
  /\ fst (fst (Mem.xaes256gcm_Seal (P := Std) kat_auto kat_nonce long_heap
                 (Mem.upto long_plaintext 0) Mem.nil_ref long_plaintext Mem.nil_ref))
     = Panic "crypto/cipher: invalid buffer overlap"
  /\ (exists s h1,
        Mem.xaes256gcmManual_Seal (P := Std) kat_manual shared_heap
          (Mem.upto shared_plaintext 0) shared_nonce shared_plaintext Mem.nil_ref
        = (Ret s, h1)
        /\ xaes256gcmManual_Seal (P := Std) kat_manual nil_slice kat_nonce kat_plaintext []
           = Ret (mkSlice (Mem.read h1 s) [])).
Proof.
  split; [| split].
  - eexists. eexists. split; [vm_compute; reflexivity |].
    split; [reflexivity |].
    split; [vm_compute; reflexivity |].
    split; [vm_compute; reflexivity |].
    split; [vm_compute; reflexivity |].
    split; [vm_compute; discriminate |].
    vm_compute; reflexivity.
  - vm_compute. reflexivity.
  - eexists. eexists. split; [vm_compute; reflexivity |].
    vm_compute. reflexivity.
Qed.


(** C9: in manual-nonce Seal and Open, the errors dropped when the
    inner AES cipher and GCM are built are always nil: the derived key
    has exactly 32 bytes, [aes.NewCipher] accepts it, the block it
    returns has the 16-byte block size, and [cipher.NewGCM] accepts
    that block. *)
Theorem inner_constructors_never_fail
    (key : list byte) (x : xaes256gcmManual) (nonce : list byte) :
  newWithManualNonces key = Ret x ->
  length nonce = NonceSize ->
  exists n1 k b a,
    bytes_upto nonce 12 = Ret n1
    /\ deriveKey x n1 = Ret k
    /\ len k = 32
    /\ aes_NewCipher (elems k) = (Some b, None)
    /\ Block_BlockSize b = 16
    /\ cipher_NewGCM (Some b) = Ret (Some a, None).
Proof.
  intros Hx Hn. constructed Hx.
  destruct (nonce_halves nonce Hn) as (E1 & _ & L1 & _).
  pose proof (DerivedKey_spec_length key _ _ Hk H1 L1) as Ld.
  eexists _, _, _, _. split; [exact E1|].
  split; [now apply deriveKey_12|]. split; [exact Ld|]. cbn [elems].
  split; [now apply aes_NewCipher_32|]. split; reflexivity.
Qed.

(** C10: for every destination [dst], whatever its capacity, the buffer
    returned by Seal with automatic nonces starts with the [len(dst)]
    bytes [dst] held; Seal does return when the random source supplies
    24 bytes. *)
Theorem auto_seal_keeps_dst
    (key : list byte) (x : xaes256gcm) (rng : Rand) (dst : slice) (pt ad : list byte) :
  New key = Ret x ->
  (NonceSize <= length rng ->
     exists s rng', xaes256gcm_Seal x rng dst [] pt ad = (Ret s, rng'))
  /\ (forall nonce s rng',
        xaes256gcm_Seal x rng dst nonce pt ad = (Ret s, rng') ->
        firstn (len dst) (elems s) = elems dst).
Proof.
  intros Hx. constructed_auto Hx rng dst pt ad.
  split.
  - intros Hr. rewrite E.
    unfold rand_Read. apply Nat.leb_le in Hr. rewrite Hr.
    rewrite xaes256gcmManual_Seal_24; eauto.
    rewrite length_firstn. apply Nat.leb_le in Hr. unfold NonceSize in *. lia.
  - intros nonce s rng' Hs. destruct nonce as [|b t]; [|discriminate Hs].
    rewrite E in Hs. clear E.
    destruct (rand_Read rng NonceSize) as [[r|] rng1] eqn:Hr; [|discriminate Hs].
    destruct (rand_Read_some _ _ _ _ Hr) as (_ & _ & _ & Lr).
    rewrite xaes256gcmManual_Seal_24 in Hs by assumption.
    inversion Hs; subst. rewrite elems_appendTo. cbn [elems].
    rewrite <- app_assoc. now apply firstn_app_exact.
Qed.

End Claims.

(* ===================================================================== *)
(** ** The claims on the test vector *)
(* ===================================================================== *)

Example double_spec_vector :
  double_spec (FIPS197.Cipher kat_key (repeat x00 16)) = kat_k1.
Proof. vm_compute. reflexivity. Qed.

Example double_spec_reduces :
  double_spec (x80 :: repeat x00 15) = repeat x00 15 ++ [x87].
Proof. vm_compute. reflexivity. Qed.

Lemma manual_open_seal_roundtrip_witness :
  newWithManualNonces (P := Std) kat_key = Ret kat_manual
  /\ length kat_nonce = NonceSize
  /\ exists ct sealed opened,
       xaes256gcmManual_Seal (P := Std) kat_manual roomy_dst kat_nonce kat_plaintext [x2a]
       = Ret sealed
       /\ elems sealed = elems roomy_dst ++ ct
       /\ xaes256gcmManual_Open (P := Std) kat_manual tight_dst kat_nonce ct [x2a] = Ret opened
       /\ elems opened = elems tight_dst ++ kat_plaintext.
Proof.
  assert (Hx : newWithManualNonces (P := Std) kat_key = Ret kat_manual)
    by (vm_compute; reflexivity).
  assert (Hn : length kat_nonce = NonceSize) by reflexivity.
  exact (conj Hx (conj Hn
    (manual_open_seal_roundtrip (Pok := StdOk) kat_key kat_manual kat_nonce
       kat_plaintext [x2a] roomy_dst tight_dst Hx Hn))).
Defined.

Lemma deriveKey_two_blocks_witness :
  newWithManualNonces (P := Std) kat_key = Ret kat_manual
  /\ length (firstn 12 kat_nonce) = 12
  /\ exists k,
       deriveKey (P := Std) kat_manual (firstn 12 kat_nonce) = Ret k
       /\ elems k
          = FIPS197.Cipher kat_key
              (xor_bytes ([x00; x01; x58; x00] ++ firstn 12 kat_nonce) kat_k1)
            ++ FIPS197.Cipher kat_key
                 (xor_bytes ([x00; x02; x58; x00] ++ firstn 12 kat_nonce) kat_k1)
       /\ len k = 32.
Proof.
  assert (Hx : newWithManualNonces (P := Std) kat_key = Ret kat_manual)
    by (vm_compute; reflexivity).
  assert (Hn : length (firstn 12 kat_nonce) = 12) by reflexivity.
  exact (conj Hx (conj Hn
    (deriveKey_two_blocks (Pok := StdOk) kat_key kat_manual (firstn 12 kat_nonce) Hx Hn))).
Defined.

Lemma k1_is_doubled_zero_block_witness :
  length kat_key = KeySize
  /\ exists x,
       newWithManualNonces (P := Std) kat_key = Ret x
       /\ c x = Some (mkBlock kat_key)
       /\ k1 x = double_spec (FIPS197.Cipher kat_key (repeat x00 16)).
Proof.
  assert (Hk : length kat_key = KeySize) by reflexivity.
  exact (conj Hk (k1_is_doubled_zero_block (Pok := StdOk) kat_key Hk)).
Defined.

(** C4 as the specification has it fails here: the instance of the test
    vector, asked to open with a one-byte nonce, returns the nonce-length
    error, not [errOpen]. *)
Lemma auto_open_nonempty_nonce_counterexample :
  New (P := Std) kat_key = Ret kat_auto
  /\ xaes256gcm_Open (P := Std) kat_auto nil_slice [x00] (kat_nonce ++ kat_ciphertext) []
     = Err (errors_New "xaes256gcm: bad nonce length")
  /\ xaes256gcm_Open (P := Std) kat_auto nil_slice [x00] (kat_nonce ++ kat_ciphertext) []
     <> Err errOpen.
Proof.
  split; [vm_compute; reflexivity|]. split; [vm_compute; reflexivity|].
  vm_compute. discriminate.
Qed.

Lemma auto_open_nonempty_nonce_witness :
  length [x00] <> 0
  /\ xaes256gcm_Open (P := Std) kat_auto nil_slice [x00] (kat_nonce ++ kat_ciphertext) []
     = Err (errors_New "xaes256gcm: bad nonce length")
  /\ xaes256gcm_Open (P := Std) kat_auto nil_slice [x00] (kat_nonce ++ kat_ciphertext) []
     <> Err errOpen.
Proof.
  assert (Hn : length [x00] <> 0) by (simpl; lia).
  exact (conj Hn
    (auto_open_nonempty_nonce (P := Std) kat_auto nil_slice [x00]
       (kat_nonce ++ kat_ciphertext) [] Hn)).
Defined.

Lemma construction_checks_key_length_witness :
  length (repeat x01 16) <> KeySize
  /\ length kat_key = KeySize
  /\ (New (P := Std) (repeat x01 16) = Err (errors_New "xaes256gcm: bad key length")
      /\ NewWithManualNonces (P := Std) (repeat x01 16)
         = Ret (AEAD_manual None, Some (errors_New "xaes256gcm: bad key length"))
      /\ AEAD_manual None <> AEAD_nil
      /\ cipher_AEAD_NonceSize (AEAD_manual None) = Ret 24)
  /\ (exists x, NewWithManualNonces (P := Std) kat_key = Ret (AEAD_manual (Some x), None)
                /\ New (P := Std) kat_key = Ret (mkAuto x)).
Proof.
  assert (H16 : length (repeat x01 16) <> KeySize) by (vm_compute; lia).
  assert (H32 : length kat_key = KeySize) by reflexivity.
  exact (conj H16 (conj H32
    (conj (proj1 (construction_checks_key_length (Pok := StdOk) (repeat x01 16)) H16)
          (proj2 (construction_checks_key_length (Pok := StdOk) kat_key) H32)))).
Defined.

Lemma manual_nonce_length_checks_witness :
  newWithManualNonces (P := Std) kat_key = Ret kat_manual
  /\ length (firstn 23 kat_nonce) <> NonceSize
  /\ length kat_nonce = NonceSize
  /\ (xaes256gcmManual_Seal (P := Std) kat_manual nil_slice (firstn 23 kat_nonce)
        kat_plaintext [] = Panic "xaes256gcm: bad nonce length"
      /\ xaes256gcmManual_Open (P := Std) kat_manual nil_slice (firstn 23 kat_nonce)
           kat_ciphertext [] = Err (errors_New "xaes256gcm: bad nonce length"))
  /\ ((exists s, xaes256gcmManual_Seal (P := Std) kat_manual nil_slice kat_nonce
                   kat_plaintext [] = Ret s)
      /\ ((exists s, xaes256gcmManual_Open (P := Std) kat_manual nil_slice kat_nonce
                       kat_ciphertext [] = Ret s)
          \/ xaes256gcmManual_Open (P := Std) kat_manual nil_slice kat_nonce
               kat_ciphertext [] = Err cipher_errOpen)).
Proof.
  assert (Hx : newWithManualNonces (P := Std) kat_key = Ret kat_manual)
    by (vm_compute; reflexivity).
  assert (Hb : length (firstn 23 kat_nonce) <> NonceSize) by (vm_compute; lia).
  assert (Hg : length kat_nonce = NonceSize) by reflexivity.
  exact (conj Hx (conj Hb (conj Hg
    (conj (proj1 (manual_nonce_length_checks (Pok := StdOk) kat_key kat_manual nil_slice
                    (firstn 23 kat_nonce) kat_plaintext kat_ciphertext [] Hx) Hb)
          (proj2 (manual_nonce_length_checks (Pok := StdOk) kat_key kat_manual nil_slice
                    kat_nonce kat_plaintext kat_ciphertext [] Hx) Hg))))).
Defined.


Lemma inner_constructors_never_fail_witness :
  newWithManualNonces (P := Std) kat_key = Ret kat_manual
  /\ length kat_nonce = NonceSize
  /\ exists n1 k b a,
       bytes_upto kat_nonce 12 = Ret n1
       /\ deriveKey (P := Std) kat_manual n1 = Ret k
       /\ len k = 32
       /\ aes_NewCipher (elems k) = (Some b, None)
       /\ Block_BlockSize b = 16
       /\ cipher_NewGCM (Some b) = Ret (Some a, None).
Proof.
  assert (Hx : newWithManualNonces (P := Std) kat_key = Ret kat_manual)
    by (vm_compute; reflexivity).
  assert (Hn : length kat_nonce = NonceSize) by reflexivity.
  exact (conj Hx (conj Hn
    (inner_constructors_never_fail (Pok := StdOk) kat_key kat_manual kat_nonce Hx Hn))).
Defined.

Lemma auto_seal_keeps_dst_witness :
  New (P := Std) kat_key = Ret kat_auto
  /\ NonceSize <= length kat_nonce
  /\ xaes256gcm_Seal (P := Std) kat_auto kat_nonce tight_dst [] kat_plaintext []
     = (Ret (mkSlice (elems tight_dst ++ kat_nonce ++ kat_ciphertext) []), [])
  /\ xaes256gcm_Seal (P := Std) kat_auto kat_nonce roomy_dst [] kat_plaintext []
     = (Ret (mkSlice (elems roomy_dst ++ kat_nonce ++ kat_ciphertext) (repeat x00 12)), [])
  /\ (exists s rng',
        xaes256gcm_Seal (P := Std) kat_auto kat_nonce tight_dst [] kat_plaintext []
        = (Ret s, rng'))
  /\ firstn (len tight_dst) (elems tight_dst ++ kat_nonce ++ kat_ciphertext)
     = elems tight_dst
  /\ firstn (len roomy_dst) (elems roomy_dst ++ kat_nonce ++ kat_ciphertext)
     = elems roomy_dst.
Proof.
  assert (Hx : New (P := Std) kat_key = Ret kat_auto) by (vm_compute; reflexivity).
  assert (Hr : NonceSize <= length kat_nonce) by (vm_compute; lia).
  assert (Ht : xaes256gcm_Seal (P := Std) kat_auto kat_nonce tight_dst [] kat_plaintext []
               = (Ret (mkSlice (elems tight_dst ++ kat_nonce ++ kat_ciphertext) []), []))
    by (vm_compute; reflexivity).
  assert (Hy : xaes256gcm_Seal (P := Std) kat_auto kat_nonce roomy_dst [] kat_plaintext []
               = (Ret (mkSlice (elems roomy_dst ++ kat_nonce ++ kat_ciphertext)
                         (repeat x00 12)), []))
    by (vm_compute; reflexivity).
  exact (conj Hx (conj Hr (conj Ht (conj Hy
    (conj (proj1 (auto_seal_keeps_dst (Pok := StdOk) kat_key kat_auto kat_nonce tight_dst
                    kat_plaintext [] Hx) Hr)
    (conj (proj2 (auto_seal_keeps_dst (Pok := StdOk) kat_key kat_auto kat_nonce tight_dst
                    kat_plaintext [] Hx) [] _ _ Ht)
          (proj2 (auto_seal_keeps_dst (Pok := StdOk) kat_key kat_auto kat_nonce roomy_dst
                    kat_plaintext [] Hx) [] _ _ Hy))))))).
Defined.

(* ===================================================================== *)
(** ** Further properties of Seal and Open *)
(* ===================================================================== *)

Section Further.
Context {P : Primitives} {Pok : PrimitivesOk P}.

Lemma xaes256gcm_Open_long (m : xaes256gcmManual) (dst : slice) (ct ad : list byte) :
  NonceSize <= length ct ->
  xaes256gcm_Open (mkAuto m) dst [] ct ad
  = xaes256gcmManual_Open m dst (firstn NonceSize ct) (skipn NonceSize ct) ad.
Proof.
  intros H. unfold xaes256gcm_Open, bytes_upto, bytes_from. cbn [length Nat.eqb negb manual].
  replace (length ct <? NonceSize) with false by (symmetry; now apply Nat.ltb_ge).
  apply Nat.leb_le in H. now rewrite H.
Qed.

Lemma xaes256gcm_Open_short (m : xaes256gcmManual) (dst : slice) (ct ad : list byte) :
  length ct < NonceSize -> xaes256gcm_Open (mkAuto m) dst [] ct ad = Err errOpen.
Proof.
  intros H. unfold xaes256gcm_Open. cbn [length Nat.eqb negb].
  apply Nat.ltb_lt in H. now rewrite H.
Qed.

(** With 24 bytes [r] from the random source, [Seal] on an empty nonce
    returns [dst], [r] and the GCM output under the key derived from [r]. *)
Lemma xaes256gcm_Seal_24 (key K1 : list byte) (rng : Rand) (dst : slice)
    (pt ad r : list byte) (rng' : Rand) :
  length key = 32 -> length K1 = 16 ->
  rand_Read rng NonceSize = (Some r, rng') ->
  exists s,
    xaes256gcm_Seal (mkAuto (mkManual (Some (mkBlock key)) K1)) rng dst [] pt ad = (Ret s, rng')
    /\ elems s = elems dst ++ r
                 ++ gcm_seal (DerivedKey_spec key K1 (firstn 12 r)) (skipn 12 r) pt ad.
Proof.
  intros Hk H1 Hr.
  destruct (xaes256gcm_Seal_shape (mkManual (Some (mkBlock key)) K1) rng dst pt ad)
    as (sp' & _ & E).
  rewrite E, Hr. destruct (rand_Read_some _ _ _ _ Hr) as (_ & _ & _ & Lr).
  rewrite xaes256gcmManual_Seal_24 by assumption.
  eexists. split; [reflexivity|]. rewrite elems_appendTo. cbn [elems].
  now rewrite <- app_assoc.
Qed.

Lemma length_firstn_12 (r : list byte) : length r = NonceSize -> length (firstn 12 r) = 12.
Proof. intros H. rewrite length_firstn, H. reflexivity. Qed.

Lemma length_skipn_12 (r : list byte) : length r = NonceSize -> length (skipn 12 r) = 12.
Proof. intros H. rewrite length_skipn, H. reflexivity. Qed.

(** X3: manual-nonce Seal appends to [dst]: for a 24-byte nonce the
    result is the contents of [dst] followed by what Seal returns on an
    empty destination, and that is [Overhead()] = 16 bytes longer than the
    plaintext. *)
Theorem manual_seal_appends_overhead
    (key : list byte) (x : xaes256gcmManual) (dst : slice) (nonce pt ad : list byte) :
  newWithManualNonces key = Ret x ->
  length nonce = xaes256gcmManual_NonceSize x ->
  exists s s0,
    xaes256gcmManual_Seal x dst nonce pt ad = Ret s
    /\ xaes256gcmManual_Seal x nil_slice nonce pt ad = Ret s0
    /\ elems s = elems dst ++ elems s0
    /\ len s0 = length pt + xaes256gcmManual_Overhead x.
Proof.
  unfold xaes256gcmManual_NonceSize, xaes256gcmManual_Overhead, OverheadWithManualNonces.
  intros Hx Hn. constructed Hx.
  rewrite !xaes256gcmManual_Seal_24 by assumption.
  eexists _, _. split; [reflexivity|]. split; [reflexivity|].
  unfold len. rewrite !elems_appendTo. cbn [elems nil_slice app].
  split; [reflexivity | apply gcm_seal_length].
Qed.

(** X4: a sealed message is an AES-256-GCM message under the derived
    key.  For a 24-byte nonce, the GCM instance keyed with
    [deriveKey(nonce[:12])] opens, under [nonce[12:]], what manual-nonce
    Seal produced, and manual-nonce Open opens what that GCM instance
    seals. *)
Theorem sealed_is_gcm_under_derived_key
    (key : list byte) (x : xaes256gcmManual) (dst : slice) (nonce pt ad : list byte) :
  newWithManualNonces key = Ret x ->
  length nonce = NonceSize ->
  exists k a s g o1 o2,
    deriveKey x (firstn 12 nonce) = Ret k
    /\ cipher_NewGCM (fst (aes_NewCipher (elems k))) = Ret (Some a, None)
    /\ xaes256gcmManual_Seal x nil_slice nonce pt ad = Ret s
    /\ AEAD_Open (Some a) dst (skipn 12 nonce) (elems s) ad = Ret o1
    /\ elems o1 = elems dst ++ pt
    /\ AEAD_Seal (Some a) nil_slice (skipn 12 nonce) pt ad = Ret g
    /\ xaes256gcmManual_Open x dst nonce (elems g) ad = Ret o2
    /\ elems o2 = elems dst ++ pt.
Proof.
  intros Hx Hn. constructed Hx.
  pose proof (length_firstn_12 nonce Hn) as L1.
  pose proof (length_skipn_12 nonce Hn) as L2.
  pose proof (DerivedKey_spec_length key _ _ Hk H1 L1) as Ld.
  eexists _, _, _, _, _, _.
  split; [now apply deriveKey_12|]. cbn [elems].
  rewrite aes_NewCipher_32 by assumption. cbn [fst].
  split; [apply cipher_NewGCM_aes|].
  split; [now apply xaes256gcmManual_Seal_24|].
  rewrite elems_appendTo. cbn [elems nil_slice app].
  unfold AEAD_Open, AEAD_Seal, gcmStandardNonceSize. rewrite L2.
  cbn [Nat.eqb negb aead_block blk_key].
  rewrite gcm_open_seal by assumption.
  split; [reflexivity|]. split; [apply elems_appendTo|].
  split; [reflexivity|].
  rewrite elems_appendTo. cbn [elems nil_slice app].
  rewrite xaes256gcmManual_Open_24, gcm_open_seal by assumption.
  split; [reflexivity | apply elems_appendTo].
Qed.

End Further.

Section Buffers.
Context {P : Primitives} {Pok : PrimitivesOk P}.

(** The room [Seal] works in: the spare capacity of [dst] when it
    suffices, else that of a fresh array of exactly the final length. *)
Lemma xaes256gcm_Seal_room (m : xaes256gcmManual) (rng : Rand) (dst : slice) (pt ad : list byte) :
  let total := len dst + length pt + Overhead in
  let room := if cap dst <? total then repeat x00 (total - len dst) else spare dst in
  length pt + 40 <= length room
  /\ xaes256gcm_Seal (mkAuto m) rng dst [] pt ad
     = match rand_Read rng NonceSize with
       | (Some r, rng') =>
           (xaes256gcmManual_Seal m (mkSlice (elems dst ++ r) (skipn 24 room)) r pt ad, rng')
       | (None, rng') => (Panic "crypto/rand: read failed", rng')
       end.
Proof.
  destruct dst as [e sp]. intros total room.
  unfold xaes256gcm_Seal. cbn [length Nat.eqb negb manual]. cbv zeta. fold total.
  assert (D :
    (if cap (mkSlice e sp) <? total
     then tmp <- make (len (mkSlice e sp)) total ;; Ret (copy tmp (elems (mkSlice e sp)))
     else Ret (mkSlice e sp)) = Ret (mkSlice e room)
    /\ length pt + 40 <= length room).
  { unfold room. destruct (cap (mkSlice e sp) <? total) eqn:C.
    - split.
      + apply make_copy. unfold total, len. cbn [elems]. lia.
      + rewrite repeat_length. unfold total, len, Overhead. cbn [elems]. lia.
    - split; [reflexivity|].
      apply Nat.ltb_ge in C. unfold total, cap, len, Overhead in C.
      cbn [elems spare] in *. lia. }
  destruct D as (-> & Hroom). split; [exact Hroom|].
  change (len (mkSlice e room)) with (length e). unfold NonceSize in *.
  rewrite sub_spare by lia.
  assert (Lw : length (firstn 24 room) = 24) by (rewrite length_firstn; lia).
  rewrite Lw. cbn [elems].
  destruct (rand_Read rng 24) as [[r|] rng'] eqn:Hr; [|reflexivity].
  destruct (rand_Read_some _ _ _ _ Hr) as (_ & _ & _ & Lr).
  rewrite store_spare by lia.
  change (len (mkSlice e (r ++ skipn (length r) room))) with (length e).
  replace (length e + 24) with (length e + length r) by (now rewrite Lr).
  rewrite upto_spare. cbn [bind]. now rewrite Lr.
Qed.

Lemma Ret_inj {A : Type} (a b : A) : Ret a = Ret b -> a = b.
Proof. intros H. now inversion H. Qed.

(** X6: an input shorter than [Overhead()] = 40 bytes is never opened
    with automatic nonces, given that GCM refuses inputs shorter than its
    16-byte tag; but the error tells the two cases apart: [errOpen] of
    this package below 24 bytes, the error of [crypto/cipher] from 24 to
    39 bytes. *)
Theorem auto_open_rejects_short_input
    (key : list byte) (x : xaes256gcm) (dst : slice) (ct ad : list byte) :
  (forall k n c0 a, length c0 < 16 -> gcm_open k n c0 a = None) ->
  New key = Ret x ->
  length ct < xaes256gcm_Overhead x ->
  (length ct < NonceSize -> xaes256gcm_Open x dst [] ct ad = Err errOpen)
  /\ (NonceSize <= length ct -> xaes256gcm_Open x dst [] ct ad = Err cipher_errOpen)
  /\ errOpen <> cipher_errOpen.
Proof.
  unfold xaes256gcm_Overhead, Overhead. intros Hshort Hx Hlen.
  unfold New in Hx.
  destruct (newWithManualNonces key) as [m| |] eqn:Hm; inversion Hx; subst x.
  constructed Hm. split; [|split].
  - intros Hs. now apply xaes256gcm_Open_short.
  - intros Hl. rewrite xaes256gcm_Open_long by assumption.
    assert (Ln : length (firstn NonceSize ct) = NonceSize) by (rewrite length_firstn; lia).
    rewrite xaes256gcmManual_Open_24 by assumption.
    rewrite Hshort; [reflexivity|]. rewrite length_skipn. unfold NonceSize in *. lia.
  - discriminate.
Qed.

(** X7: when automatic Seal returns, it has taken from the random
    source exactly the 24 bytes it put behind [dst]; so two calls whose
    sources start with different 24 bytes never return the same bytes. *)
Theorem auto_seal_consumes_its_nonce
    (key : list byte) (x : xaes256gcm) (rng rng2 : Rand) (dst : slice) (nonce pt ad : list byte) :
  New key = Ret x ->
  (forall s rng',
     xaes256gcm_Seal x rng dst nonce pt ad = (Ret s, rng') ->
     rng = firstn NonceSize (skipn (len dst) (elems s)) ++ rng'
     /\ NonceSize <= length rng)
  /\ (forall s s2 rng' rng2',
        xaes256gcm_Seal x rng dst nonce pt ad = (Ret s, rng') ->
        xaes256gcm_Seal x rng2 dst nonce pt ad = (Ret s2, rng2') ->
        firstn NonceSize rng <> firstn NonceSize rng2 ->
        elems s <> elems s2).
Proof.
  intros Hx. unfold New in Hx.
  destruct (newWithManualNonces key) as [m| |] eqn:Hm; inversion Hx; subst x.
  constructed Hm.
  assert (R : forall g s g',
    xaes256gcm_Seal
      (mkAuto (mkManual (Some (mkBlock key))
                 (double_spec (aes_encrypt_block key (repeat x00 16)))))
      g dst nonce pt ad = (Ret s, g') ->
    g = firstn NonceSize (skipn (len dst) (elems s)) ++ g'
    /\ NonceSize <= length g
    /\ firstn NonceSize (skipn (len dst) (elems s)) = firstn NonceSize g).
  { intros g s g' Hs. destruct nonce as [|b t]; [|discriminate Hs].
    destruct (rand_Read g NonceSize) as [[r|] g1] eqn:Hr.
    - destruct (rand_Read_some _ _ _ _ Hr) as (Hle & -> & -> & Lr).
      destruct (xaes256gcm_Seal_24 key _ g dst pt ad _ _ Hk H1 Hr) as (s1 & Es & Hs1).
      rewrite Es in Hs. inversion Hs; subst s1 g'. clear Hs.
      rewrite Hs1, skipn_app_exact, firstn_app_exact by (reflexivity || assumption).
      rewrite firstn_skipn. auto.
    - destruct (xaes256gcm_Seal_shape
                  (mkManual (Some (mkBlock key))
                     (double_spec (aes_encrypt_block key (repeat x00 16))))
                  g dst pt ad) as (sp' & _ & E).
      rewrite E, Hr in Hs. discriminate Hs. }
  split.
  - intros s rng' Hs. destruct (R _ _ _ Hs) as (? & ? & _). auto.
  - intros s s2 rng' rng2' Hs Hs2 Hne Heq.
    destruct (R _ _ _ Hs) as (_ & _ & F1). destruct (R _ _ _ Hs2) as (_ & _ & F2).
    apply Hne. now rewrite <- F1, <- F2, Heq.
Qed.

(** X8: automatic Seal allocates at most once.  The returned slice has
    length [len(dst) + len(plaintext) + 40]; when [dst] has that much
    capacity it is [dst]'s array, written in place, with the capacity of
    [dst] and the spare bytes behind the output untouched; otherwise it
    is a fresh array of exactly that length. *)
Theorem auto_seal_capacity
    (key : list byte) (x : xaes256gcm) (rng rng' : Rand) (dst s : slice) (pt ad : list byte) :
  New key = Ret x ->
  xaes256gcm_Seal x rng dst [] pt ad = (Ret s, rng') ->
  len s = len dst + length pt + Overhead
  /\ cap s = Nat.max (cap dst) (len dst + length pt + Overhead)
  /\ (len dst + length pt + Overhead <= cap dst ->
      spare s = skipn (length pt + Overhead) (spare dst)).
Proof.
  intros Hx Hs. unfold New in Hx.
  destruct (newWithManualNonces key) as [m| |] eqn:Hm; inversion Hx; subst x.
  destruct (xaes256gcm_Seal_room m rng dst pt ad) as (Hroom & E).
  constructed Hm. rewrite E in Hs. clear E.
  destruct (rand_Read rng NonceSize) as [[r|] g1] eqn:Hr; [|discriminate Hs].
  destruct (rand_Read_some _ _ _ _ Hr) as (_ & _ & _ & Lr).
  rewrite xaes256gcmManual_Seal_24 in Hs by assumption.
  pose proof (Ret_inj _ _ (f_equal fst Hs)) as Es. cbn [fst] in Es. subst s. clear Hs.
  set (out := gcm_seal _ _ _ _) in *.
  assert (Lo : length out = length pt + 16) by apply gcm_seal_length.
  set (room := if cap dst <? len dst + length pt + Overhead
               then repeat x00 (len dst + length pt + Overhead - len dst)
               else spare dst) in *.
  rewrite appendTo_fits by (rewrite length_skipn; lia).
  unfold len, cap in *. cbn [elems spare].
  rewrite !length_app, !length_skipn, Lo, Lr. unfold NonceSize, Overhead in *.
  assert (Hcase : (length (elems dst) + length (spare dst)
                   < length (elems dst) + length pt + 40
                   /\ length room = length pt + 40)
                  \/ (length (elems dst) + length pt + 40
                      <= length (elems dst) + length (spare dst)
                      /\ room = spare dst)).
  { unfold room.
    destruct (length (elems dst) + length (spare dst)
              <? length (elems dst) + length pt + 40) eqn:C.
    - left. apply Nat.ltb_lt in C. split; [exact C|]. rewrite repeat_length. lia.
    - right. apply Nat.ltb_ge in C. auto. }
  destruct Hcase as [(C & Lroom) | (C & Eroom)].
  - repeat split; try lia.
  - rewrite Eroom in *. repeat split; try lia.
    intros _. rewrite skipn_skipn. f_equal. lia.
Qed.

End Buffers.

(* ===================================================================== *)
(** ** The package on shared storage: lemmas *)
(* ===================================================================== *)

Lemma arrays_write (h : Mem.heap) (a pos : nat) (bs : list byte) (a' : nat) :
  Mem.arrays (Mem.write h a pos bs) a'
  = if a' =? a
    then firstn pos (Mem.arrays h a) ++ bs ++ skipn (pos + length bs) (Mem.arrays h a)
    else Mem.arrays h a'.
Proof. reflexivity. Qed.

Lemma arrays_write_other (h : Mem.heap) (a pos : nat) (bs : list byte) (a' : nat) :
  a' <> a -> Mem.arrays (Mem.write h a pos bs) a' = Mem.arrays h a'.
Proof. intros H. rewrite arrays_write. apply Nat.eqb_neq in H. now rewrite H. Qed.

Lemma arrays_alloc_other (h : Mem.heap) (bs : list byte) (a' : nat) :
  a' <> Mem.next h -> Mem.arrays (fst (Mem.alloc h bs)) a' = Mem.arrays h a'.
Proof. intros H. cbn. apply Nat.eqb_neq in H. now rewrite H. Qed.

Lemma arrays_alloc_new (h : Mem.heap) (bs : list byte) :
  Mem.arrays (fst (Mem.alloc h bs)) (Mem.next h) = bs.
Proof. cbn. now rewrite Nat.eqb_refl. Qed.

(** A slice reads the same in two heaps that agree on its array. *)
Lemma view_same_array (h h' : Mem.heap) (r : Mem.ref) :
  Mem.arrays h' (Mem.arr r) = Mem.arrays h (Mem.arr r) -> Mem.view h' r = Mem.view h r.
Proof. intros E. unfold Mem.view, Mem.read, Mem.room. now rewrite E. Qed.

Lemma read_same_array (h h' : Mem.heap) (r : Mem.ref) :
  Mem.arrays h' (Mem.arr r) = Mem.arrays h (Mem.arr r) -> Mem.read h' r = Mem.read h r.
Proof. intros E. unfold Mem.read. now rewrite E. Qed.

Lemma read_empty (h : Mem.heap) (r : Mem.ref) : Mem.rlen r = 0 -> Mem.read h r = [].
Proof. intros E. unfold Mem.read. now rewrite E. Qed.

Lemma view_no_capacity (h : Mem.heap) (r : Mem.ref) :
  Mem.rlen r <= Mem.rcap r -> Mem.rcap r = 0 -> Mem.view h r = mkSlice [] [].
Proof.
  intros Hl Hz. unfold Mem.view, Mem.read, Mem.room.
  replace (Mem.rlen r) with 0 by lia. now rewrite Hz.
Qed.

Lemma length_read (h : Mem.heap) (r : Mem.ref) :
  Mem.well_formed h r -> length (Mem.read h r) = Mem.rlen r.
Proof.
  intros (Hl & Hc). unfold Mem.read. rewrite length_firstn, length_skipn. lia.
Qed.

Lemma length_room (h : Mem.heap) (r : Mem.ref) :
  Mem.well_formed h r -> length (Mem.room h r) = Mem.rcap r - Mem.rlen r.
Proof.
  intros (Hl & Hc). unfold Mem.room. rewrite length_firstn, length_skipn. lia.
Qed.

(** The array of a slice: what lies before it, the slice, its room and
    what lies behind. *)
Lemma array_parts (h : Mem.heap) (r : Mem.ref) :
  Mem.rlen r <= Mem.rcap r ->
  Mem.off r + Mem.rcap r <= length (Mem.arrays h (Mem.arr r)) ->
  exists pre post,
    Mem.arrays h (Mem.arr r) = pre ++ Mem.read h r ++ Mem.room h r ++ post
    /\ length pre = Mem.off r.
Proof.
  intros Hl Hc. unfold Mem.read, Mem.room.
  set (A := Mem.arrays h (Mem.arr r)) in *.
  exists (firstn (Mem.off r) A), (skipn (Mem.off r + Mem.rcap r) A). split.
  - rewrite <- (firstn_skipn (Mem.off r) A) at 1. f_equal.
    rewrite <- (firstn_skipn (Mem.rlen r) (skipn (Mem.off r) A)) at 1. f_equal.
    rewrite skipn_skipn, (Nat.add_comm (Mem.rlen r)).
    rewrite <- (firstn_skipn (Mem.rcap r - Mem.rlen r) (skipn (Mem.off r + Mem.rlen r) A)) at 1.
    f_equal. rewrite skipn_skipn. f_equal. lia.
  - rewrite length_firstn. lia.
Qed.

(** Reading a slice of an array given by its parts. *)
Lemma view_of_parts (h : Mem.heap) (r : Mem.ref) (pre body sp post : list byte) :
  Mem.arrays h (Mem.arr r) = pre ++ body ++ sp ++ post ->
  length pre = Mem.off r -> length body = Mem.rlen r ->
  length sp = Mem.rcap r - Mem.rlen r ->
  Mem.view h r = mkSlice body sp.
Proof.
  intros E Hp Hb Hs. unfold Mem.view, Mem.read, Mem.room. rewrite E. f_equal.
  - rewrite skipn_app_exact by assumption. now apply firstn_app_exact.
  - replace (pre ++ body ++ sp ++ post) with ((pre ++ body) ++ sp ++ post)
      by (now rewrite <- app_assoc).
    rewrite skipn_app_exact by (rewrite length_app; lia).
    now apply firstn_app_exact.
Qed.

(** Writing nothing changes nothing. *)
Lemma write_nil (h : Mem.heap) (a pos : nat) (a' : nat) :
  Mem.arrays (Mem.write h a pos []) a' = Mem.arrays h a'.
Proof.
  rewrite arrays_write. destruct (Nat.eqb_spec a' a) as [->|]; [|reflexivity].
  cbn [length app]. rewrite Nat.add_0_r. apply firstn_skipn.
Qed.

(** Writing [bs] right behind a slice that has room for it. *)
Lemma write_behind (h : Mem.heap) (r : Mem.ref) (bs : list byte) :
  Mem.well_formed h r ->
  Mem.rlen r + length bs <= Mem.rcap r ->
  Mem.view (Mem.write h (Mem.arr r) (Mem.off r + Mem.rlen r) bs)
           (Mem.mkRef (Mem.arr r) (Mem.off r) (Mem.rlen r + length bs) (Mem.rcap r))
  = mkSlice (Mem.read h r ++ bs) (skipn (length bs) (Mem.room h r))
  /\ length (Mem.arrays (Mem.write h (Mem.arr r) (Mem.off r + Mem.rlen r) bs) (Mem.arr r))
     = length (Mem.arrays h (Mem.arr r)).
Proof.
  intros Hw Hn. pose proof (length_read h r Hw) as Lb. pose proof (length_room h r Hw) as Ls.
  destruct Hw as (Hl & [Hz | (_ & Hc)]).
  { assert (bs = []) as -> by (destruct bs; [reflexivity | cbn in Hn; lia]).
    split; [| now rewrite write_nil].
    unfold Mem.view, Mem.read, Mem.room. cbn [Mem.arr Mem.off Mem.rlen Mem.rcap length].
    replace (Mem.rlen r) with 0 by lia. rewrite Hz. reflexivity. }
  destruct (array_parts h r Hl Hc) as (pre & post & E & Hp).
  set (body := Mem.read h r) in *. set (sp := Mem.room h r) in *.
  assert (E' : Mem.arrays (Mem.write h (Mem.arr r) (Mem.off r + Mem.rlen r) bs) (Mem.arr r)
               = pre ++ (body ++ bs) ++ skipn (length bs) sp ++ post).
  { rewrite arrays_write, Nat.eqb_refl, E.
    replace (pre ++ body ++ sp ++ post) with ((pre ++ body) ++ sp ++ post)
      by (now rewrite <- app_assoc).
    rewrite firstn_app_exact by (rewrite length_app; lia).
    replace ((pre ++ body) ++ sp ++ post)
      with (((pre ++ body) ++ firstn (length bs) sp) ++ skipn (length bs) sp ++ post).
    - rewrite skipn_app_exact.
      + now rewrite <- !app_assoc.
      + rewrite !length_app, length_firstn. lia.
    - rewrite <- !app_assoc. do 2 f_equal. rewrite app_assoc. f_equal.
      apply firstn_skipn. }
  split.
  - apply view_of_parts with pre post; cbn [Mem.arr Mem.off Mem.rlen Mem.rcap]; auto.
    + rewrite length_app. lia.
    + rewrite length_skipn. lia.
  - rewrite E', E. rewrite !length_app, length_skipn. lia.
Qed.

Lemma extends_refl (h : Mem.heap) : Mem.extends h h.
Proof. split; [lia | reflexivity]. Qed.

Lemma extends_trans (h1 h2 h3 : Mem.heap) :
  Mem.extends h1 h2 -> Mem.extends h2 h3 -> Mem.extends h1 h3.
Proof.
  intros (N1 & L1) (N2 & L2). split; [lia |].
  intros a Ha. rewrite L2 by lia. now apply L1.
Qed.

Lemma well_formed_extends (h h' : Mem.heap) (r : Mem.ref) :
  Mem.extends h h' -> Mem.well_formed h r -> Mem.well_formed h' r.
Proof.
  intros (N & L) (Hl & [Hz | (Ha & Hc)]); split; auto.
  right. rewrite L by assumption. split; [lia | assumption].
Qed.

Lemma extends_alloc (h : Mem.heap) (bs : list byte) : Mem.extends h (fst (Mem.alloc h bs)).
Proof.
  split; cbn; [lia |]. intros a Ha.
  destruct (Nat.eqb_spec a (Mem.next h)); [lia | reflexivity].
Qed.

(** A write that keeps the length of the array. *)
Lemma extends_write (h : Mem.heap) (a pos : nat) (bs : list byte) :
  length (Mem.arrays (Mem.write h a pos bs) a) = length (Mem.arrays h a) ->
  Mem.extends h (Mem.write h a pos bs).
Proof.
  intros L. split; [cbn; lia |]. intros a' _.
  destruct (Nat.eq_dec a' a) as [-> | N]; [exact L |].
  now rewrite arrays_write_other.
Qed.

(** A slice of [h] reads the same after an allocation. *)
Lemma view_alloc (h : Mem.heap) (bs : list byte) (r : Mem.ref) :
  Mem.well_formed h r -> Mem.view (fst (Mem.alloc h bs)) r = Mem.view h r.
Proof.
  intros (Hl & [Hz | (Ha & _)]).
  - now rewrite !view_no_capacity.
  - apply view_same_array. apply arrays_alloc_other. lia.
Qed.

Lemma read_alloc (h : Mem.heap) (bs : list byte) (r : Mem.ref) :
  Mem.well_formed h r -> Mem.read (fst (Mem.alloc h bs)) r = Mem.read h r.
Proof. intros H. exact (f_equal elems (view_alloc h bs r H)). Qed.

(** A slice reads the same after changes to arrays other than its own. *)
Lemma read_framed (h h' : Mem.heap) (a : nat) (r : Mem.ref) :
  (forall a', a' <> a -> Mem.arrays h' a' = Mem.arrays h a') ->
  Mem.rlen r = 0 \/ Mem.arr r <> a -> Mem.read h' r = Mem.read h r.
Proof.
  intros F [Hz | Hn].
  - now rewrite !read_empty.
  - apply read_same_array. now apply F.
Qed.

Lemma view_framed (h h' : Mem.heap) (a : nat) (r : Mem.ref) :
  (forall a', a' <> a -> Mem.arrays h' a' = Mem.arrays h a') ->
  Mem.rlen r <= Mem.rcap r ->
  Mem.rcap r = 0 \/ Mem.arr r <> a -> Mem.view h' r = Mem.view h r.
Proof.
  intros F Hl [Hz | Hn].
  - now rewrite !view_no_capacity.
  - apply view_same_array. now apply F.
Qed.

Lemma no_overlap (a1 o1 l1 a2 o2 l2 : nat) :
  l1 = 0 \/ l2 = 0 \/ a1 <> a2 ->
  Mem.any_overlap a1 o1 l1 a2 o2 l2 = false
  /\ Mem.inexact_overlap a1 o1 l1 a2 o2 l2 = false.
Proof.
  intros H.
  assert (A : Mem.any_overlap a1 o1 l1 a2 o2 l2 = false).
  { unfold Mem.any_overlap. destruct H as [-> | [-> | H]].
    - reflexivity.
    - cbn. now rewrite andb_false_r.
    - apply Nat.eqb_neq in H. rewrite H. now rewrite !andb_false_r. }
  split; [exact A |]. unfold Mem.inexact_overlap. rewrite A. now destruct (_ || _).
Qed.

(** Where [sliceForAppend] puts the result, and that it leaves what was
    there to read. *)
Lemma sliceForAppend_place (h : Mem.heap) (dst : Mem.ref) (n : nat) :
  Mem.rlen dst <= Mem.rcap dst ->
  (n = 0
   \/ (Mem.arr (fst (Mem.sliceForAppend h dst n)) = Mem.arr dst /\ Mem.rcap dst <> 0)
   \/ Mem.arr (fst (Mem.sliceForAppend h dst n)) = Mem.next h)
  /\ forall r, Mem.well_formed h r ->
       Mem.read (snd (Mem.sliceForAppend h dst n)) r = Mem.read h r.
Proof.
  intros Hl. unfold Mem.sliceForAppend.
  destruct (Nat.leb_spec (Mem.rlen dst + n) (Mem.rcap dst)) as [Hfit | Hno].
  - cbn [fst snd Mem.arr]. split; [| reflexivity].
    destruct n; [now left | right; left; split; [reflexivity | lia]].
  - unfold Mem.alloc. cbn [fst snd Mem.arr]. split; [now right; right |].
    intros r Hr. exact (read_alloc h _ r Hr).
Qed.

(** No overlap between the place of the result and a slice apart from
    [dst]. *)
Lemma apart_no_overlap (h : Mem.heap) (dst r : Mem.ref) (n o1 l2 : nat) :
  Mem.rlen dst <= Mem.rcap dst ->
  Mem.well_formed h r -> Mem.apart r dst -> l2 <= Mem.rlen r ->
  Mem.any_overlap (Mem.arr (fst (Mem.sliceForAppend h dst n))) o1 n
    (Mem.arr r) (Mem.off r) l2 = false
  /\ Mem.inexact_overlap (Mem.arr (fst (Mem.sliceForAppend h dst n))) o1 n
       (Mem.arr r) (Mem.off r) l2 = false.
Proof.
  intros Hl Hr Hap Hl2. apply no_overlap.
  destruct (proj1 (sliceForAppend_place h dst n Hl)) as [Hz | [(Ha & Hc) | Ha]];
    [now left | |]; right.
  - destruct Hap as [Hz | [Hz | Hn]]; [left; lia | contradiction |].
    right. rewrite Ha. congruence.
  - destruct Hr as (Hlr & [Hz | (Hlt & _)]); [left; lia |].
    right. rewrite Ha. lia.
Qed.

(** [sliceForAppend] and the write of the new bytes, against [appendTo]
    on values. *)
Lemma sliceForAppend_write (h : Mem.heap) (dst : Mem.ref) (bs : list byte) :
  Mem.well_formed h dst ->
  exists ret h1,
    Mem.sliceForAppend h dst (length bs) = (ret, h1)
    /\ (if Mem.rlen dst + length bs <=? Mem.rcap dst
        then Mem.arr ret = Mem.arr dst else Mem.arr ret = Mem.next h)
    /\ Mem.view (Mem.write h1 (Mem.arr ret) (Mem.off ret + Mem.rlen dst) bs) ret
       = appendTo (Mem.view h dst) bs
    /\ Mem.well_formed (Mem.write h1 (Mem.arr ret) (Mem.off ret + Mem.rlen dst) bs) ret
    /\ Mem.extends h (Mem.write h1 (Mem.arr ret) (Mem.off ret + Mem.rlen dst) bs)
    /\ (forall a, a <> Mem.arr ret ->
          Mem.arrays (Mem.write h1 (Mem.arr ret) (Mem.off ret + Mem.rlen dst) bs) a
          = Mem.arrays h a).
Proof.
  intros Hw. pose proof (length_read h dst Hw) as Lb. pose proof (length_room h dst Hw) as Ls.
  unfold Mem.sliceForAppend, appendTo.
  cbn [elems spare Mem.view]. rewrite Ls.
  destruct (Nat.leb_spec (Mem.rlen dst + length bs) (Mem.rcap dst)) as [Hfit | Hno].
  - destruct (Nat.leb_spec (length bs) (Mem.rcap dst - Mem.rlen dst)) as [_ | ?]; [| lia].
    eexists _, _. split; [reflexivity |]. cbn [Mem.arr Mem.off Mem.rlen Mem.rcap].
    destruct (write_behind h dst bs Hw Hfit) as (V & L).
    split; [reflexivity | split; [exact V |]].
    assert (X : Mem.extends h (Mem.write h (Mem.arr dst) (Mem.off dst + Mem.rlen dst) bs))
      by (now apply extends_write).
    split; [| split; [exact X |]].
    + destruct Hw as (Hl & Hc). split; cbn [Mem.arr Mem.off Mem.rlen Mem.rcap]; [lia |].
      destruct Hc as [Hz | (Ha & Hc)]; [now left | right].
      split; [cbn; lia | rewrite L; exact Hc].
    + intros a Ha. now apply arrays_write_other.
  - destruct (Nat.leb_spec (length bs) (Mem.rcap dst - Mem.rlen dst)) as [? | _].
    { destruct Hw as (Hl & _). lia. }
    unfold Mem.alloc.
    eexists _, _. split; [reflexivity |]. cbn [Mem.arr Mem.off Mem.rlen Mem.rcap].
    set (h1 := Mem.mkHeap _ _).
    change h1 with (fst (Mem.alloc h (Mem.read h dst ++ repeat x00 (length bs)))).
    set (h1' := fst (Mem.alloc h (Mem.read h dst ++ repeat x00 (length bs)))). clear h1.
    assert (A2 : Mem.arrays (Mem.write h1' (Mem.next h) (0 + Mem.rlen dst) bs) (Mem.next h)
                 = Mem.read h dst ++ bs).
    { rewrite arrays_write, Nat.eqb_refl. unfold h1'. rewrite arrays_alloc_new.
      rewrite firstn_app_exact by lia.
      rewrite skipn_all2 by (rewrite length_app, repeat_length; lia).
      now rewrite app_nil_r. }
    split; [reflexivity |].
    split; [| split; [| split]].
    + unfold Mem.view, Mem.read at 1, Mem.room. cbn [Mem.arr Mem.off Mem.rlen Mem.rcap].
      rewrite A2. cbn [skipn]. rewrite Nat.sub_diag. cbn [firstn]. f_equal.
      apply firstn_all2. rewrite length_app. lia.
    + split; cbn [Mem.arr Mem.off Mem.rlen Mem.rcap]; [lia | right].
      rewrite A2, length_app. split; [cbn; lia | lia].
    + split; [cbn; lia |]. intros a Ha.
      rewrite arrays_write_other by lia. unfold h1'. now rewrite arrays_alloc_other by lia.
    + intros a Ha. rewrite arrays_write_other by assumption.
      unfold h1'. now rewrite arrays_alloc_other.
Qed.

(** Sub-slices. *)
Lemma well_formed_from (h : Mem.heap) (r : Mem.ref) (lo : nat) :
  Mem.well_formed h r -> lo <= Mem.rlen r -> Mem.well_formed h (Mem.from r lo).
Proof.
  intros (Hl & Hc) Hlo. split; cbn [Mem.from Mem.arr Mem.off Mem.rlen Mem.rcap]; [lia |].
  destruct Hc as [Hz | (Ha & Hc)]; [left; lia | right; split; [assumption | lia]].
Qed.

Lemma well_formed_upto (h : Mem.heap) (r : Mem.ref) (hi : nat) :
  Mem.well_formed h r -> hi <= Mem.rcap r -> Mem.well_formed h (Mem.upto r hi).
Proof.
  intros (Hl & Hc) Hhi. split; cbn [Mem.upto Mem.arr Mem.off Mem.rlen Mem.rcap]; assumption.
Qed.

Lemma read_from (h : Mem.heap) (r : Mem.ref) (lo : nat) :
  Mem.read h (Mem.from r lo) = skipn lo (Mem.read h r).
Proof.
  unfold Mem.read. cbn [Mem.from Mem.arr Mem.off Mem.rlen Mem.rcap].
  rewrite skipn_firstn_comm, skipn_skipn. do 2 f_equal. lia.
Qed.

Lemma read_upto (h : Mem.heap) (r : Mem.ref) (hi : nat) :
  hi <= Mem.rlen r -> Mem.read h (Mem.upto r hi) = firstn hi (Mem.read h r).
Proof.
  intros H. unfold Mem.read. cbn [Mem.upto Mem.arr Mem.off Mem.rlen Mem.rcap].
  rewrite firstn_firstn. f_equal. lia.
Qed.

Lemma apart_from (r dst : Mem.ref) (lo : nat) :
  Mem.apart r dst -> Mem.apart (Mem.from r lo) dst.
Proof.
  intros [Hz | [Hz | Hn]]; [left; cbn; lia | right; now left | right; now right].
Qed.

(** The slice right behind [l] bytes of another. *)
Lemma read_behind (h : Mem.heap) (a o l k c c' : nat) :
  Mem.read h (Mem.mkRef a (o + l) k c) = skipn l (Mem.read h (Mem.mkRef a o (l + k) c')).
Proof.
  unfold Mem.read. cbn [Mem.arr Mem.off Mem.rlen Mem.rcap].
  rewrite skipn_firstn_comm, skipn_skipn. f_equal; [lia | f_equal; lia].
Qed.

(** GCM accepts an input that is apart from [dst] or starts exactly where
    the output starts. *)
Lemma clear_no_inexact_overlap (h : Mem.heap) (dst r : Mem.ref) (n l2 : nat) :
  Mem.rlen dst <= Mem.rcap dst ->
  Mem.well_formed h r -> Mem.apart r dst \/ Mem.in_place r dst -> l2 <= Mem.rlen r ->
  Mem.inexact_overlap (Mem.arr (fst (Mem.sliceForAppend h dst n)))
    (Mem.off (fst (Mem.sliceForAppend h dst n)) + Mem.rlen dst) n
    (Mem.arr r) (Mem.off r) l2 = false.
Proof.
  intros Hl Hr [Ap | (Ea & Eo)] Hl2; [now apply apart_no_overlap |].
  unfold Mem.sliceForAppend.
  destruct (Mem.rlen dst + n <=? Mem.rcap dst); cbn [fst Mem.alloc Mem.arr Mem.off].
  - unfold Mem.inexact_overlap. rewrite Ea, Eo, !Nat.eqb_refl. cbn [andb].
    now rewrite orb_true_r.
  - apply no_overlap. destruct Hr as (Hlr & [Hz | (Hlt & _)]); [right; left; lia |].
    right; right. lia.
Qed.

Section OnTheHeap.
Context {P : Primitives} {Pok : PrimitivesOk P}.

(** GCM's Seal, on a plaintext apart from [dst] or in place and
    additional data apart from [dst], appends the sealed message to [dst],
    and leaves the other arrays as they were. *)
Lemma Mem_AEAD_Seal_clear (g : AEAD) (h : Mem.heap) (dst nonce pt ad : Mem.ref) :
  Mem.well_formed h dst -> Mem.well_formed h nonce ->
  Mem.well_formed h pt -> Mem.well_formed h ad ->
  Mem.apart pt dst \/ Mem.in_place pt dst -> Mem.apart ad dst ->
  Mem.rlen nonce = 12 ->
  exists ret h2,
    Mem.AEAD_Seal (Some g) h dst nonce pt ad = (Ret ret, h2)
    /\ Mem.view h2 ret
       = appendTo (Mem.view h dst)
           (gcm_seal (blk_key (aead_block g)) (Mem.read h nonce) (Mem.read h pt)
              (Mem.read h ad))
    /\ (if Mem.rlen dst + (Mem.rlen pt + 16) <=? Mem.rcap dst
        then Mem.arr ret = Mem.arr dst else Mem.arr ret = Mem.next h)
    /\ Mem.well_formed h2 ret
    /\ Mem.extends h h2
    /\ (forall a, a <> Mem.arr ret -> Mem.arrays h2 a = Mem.arrays h a).
Proof.
  intros Hd Hn Hp Ha Ap Aa Ln.
  set (out := gcm_seal (blk_key (aead_block g)) (Mem.read h nonce) (Mem.read h pt)
                (Mem.read h ad)).
  assert (Lo : Mem.rlen pt + Mem.gcmTagSize = length out).
  { unfold out. rewrite gcm_seal_length, length_read by assumption. reflexivity. }
  destruct (sliceForAppend_write h dst out Hd) as (ret & h1 & E & Hplace & V & W & X & F).
  pose proof (sliceForAppend_place h dst (length out) (proj1 Hd)) as (_ & Hread).
  pose proof (clear_no_inexact_overlap h dst pt (length out) (Mem.rlen pt) (proj1 Hd) Hp Ap
                (le_n _)) as O1.
  pose proof (apart_no_overlap h dst ad (length out) (Mem.off ret + Mem.rlen dst)
                (Mem.rlen ad) (proj1 Hd) Ha Aa (le_n _)) as (O2 & _).
  rewrite E in Hread, O1, O2. cbn [fst snd] in Hread, O1, O2.
  exists ret, (Mem.write h1 (Mem.arr ret) (Mem.off ret + Mem.rlen dst) out).
  change 16 with Mem.gcmTagSize. rewrite Lo.
  split; [| repeat (split; [assumption |]); assumption].
  unfold Mem.AEAD_Seal, gcmStandardNonceSize. rewrite Ln. cbn [Nat.eqb negb].
  rewrite Lo, E, O1, O2. rewrite !Hread by assumption. reflexivity.
Qed.

(** GCM's Open likewise, when an opened message is 16 bytes shorter than
    its input: the outcome is that of Open on values. *)
Lemma Mem_AEAD_Open_clear (g : AEAD) (h : Mem.heap) (dst nonce ct ad : Mem.ref) :
  Mem.well_formed h dst -> Mem.well_formed h nonce ->
  Mem.well_formed h ct -> Mem.well_formed h ad ->
  Mem.apart ct dst \/ Mem.in_place ct dst -> Mem.apart ad dst ->
  Mem.rlen nonce = 12 ->
  (forall p, gcm_open (blk_key (aead_block g)) (Mem.read h nonce) (Mem.read h ct)
               (Mem.read h ad) = Some p ->
             length (Mem.read h ct) = length p + 16) ->
  Mem.lift (Mem.AEAD_Open (Some g) h dst nonce ct ad)
  = AEAD_Open (Some g) (Mem.view h dst) (Mem.read h nonce) (Mem.read h ct) (Mem.read h ad).
Proof.
  intros Hd Hn Hc Ha Ac Aa Ln Hlen.
  pose proof (length_read h ct Hc) as Lc. pose proof (length_read h nonce Hn) as LN.
  unfold Mem.AEAD_Open, AEAD_Open, gcmStandardNonceSize. rewrite Ln, LN, Ln.
  cbn [Nat.eqb negb]. unfold Mem.gcmTagSize.
  destruct (Nat.ltb_spec (Mem.rlen ct) 16) as [Hs | Hs].
  { destruct (gcm_open _ _ _ _) as [p |] eqn:Eo; [| reflexivity].
    specialize (Hlen p eq_refl). lia. }
  set (n := Mem.rlen ct - 16).
  pose proof (sliceForAppend_place h dst n (proj1 Hd)) as (_ & Hread).
  pose proof (clear_no_inexact_overlap h dst ct n (Mem.rlen ct) (proj1 Hd) Hc Ac (le_n _))
    as O1.
  pose proof (apart_no_overlap h dst ad n
                (Mem.off (fst (Mem.sliceForAppend h dst n)) + Mem.rlen dst)
                (Mem.rlen ad) (proj1 Hd) Ha Aa (le_n _)) as (O2 & _).
  destruct (gcm_open _ _ _ _) as [p |] eqn:Eo.
  - specialize (Hlen p eq_refl).
    assert (Np : n = length p) by (unfold n; lia).
    destruct (sliceForAppend_write h dst p Hd) as (ret & h1 & E & Hplace & V & W & X & F).
    rewrite Np in *. rewrite E in *. cbn [fst snd] in *.
    rewrite O1, O2, !Hread, Eo by assumption. unfold Mem.lift. cbn [fst snd].
    now rewrite V.
  - destruct (Mem.sliceForAppend h dst n) as [ret h1]. cbn [fst snd] in *.
    rewrite O1, O2, !Hread, Eo by assumption. reflexivity.
Qed.

(** Manual-nonce Seal for an instance as the constructor makes it. *)
Lemma Mem_manual_Seal_24 (key K1 : list byte) (h : Mem.heap) (dst nonce pt ad : Mem.ref) :
  length key = 32 -> length K1 = 16 ->
  Mem.well_formed h dst -> Mem.well_formed h nonce ->
  Mem.well_formed h pt -> Mem.well_formed h ad ->
  Mem.apart pt dst \/ Mem.in_place pt dst -> Mem.apart ad dst ->
  Mem.rlen nonce = 24 ->
  exists ret h2,
    Mem.xaes256gcmManual_Seal (mkManual (Some (mkBlock key)) K1) h dst nonce pt ad
    = (Ret ret, h2)
    /\ Mem.view h2 ret
       = appendTo (Mem.view h dst)
           (gcm_seal (DerivedKey_spec key K1 (firstn 12 (Mem.read h nonce)))
              (skipn 12 (Mem.read h nonce)) (Mem.read h pt) (Mem.read h ad))
    /\ (if Mem.rlen dst + (Mem.rlen pt + 16) <=? Mem.rcap dst
        then Mem.arr ret = Mem.arr dst else Mem.arr ret = Mem.next h)
    /\ Mem.well_formed h2 ret
    /\ Mem.extends h h2
    /\ (forall a, a <> Mem.arr ret -> Mem.arrays h2 a = Mem.arrays h a).
Proof.
  intros Hk H1 Hd Hn Hp Ha Ap Aa Ln.
  pose proof (length_read h nonce Hn) as LN. rewrite Ln in LN.
  destruct (nonce_halves _ LN) as (_ & _ & L1 & L2).
  unfold Mem.xaes256gcmManual_Seal, NonceSize.
  destruct (Nat.eqb_spec (Mem.rlen nonce) 24) as [_ | ?]; [| contradiction]. cbn [negb].
  rewrite deriveKey_12 by assumption. cbn [elems].
  rewrite aes_NewCipher_32 by (now apply DerivedKey_spec_length).
  cbn [fst]. rewrite cipher_NewGCM_aes. cbn [fst].
  change (Mem.mkRef (Mem.arr nonce) (Mem.off nonce + 12) (Mem.rlen nonce - 12)
            (Mem.rcap nonce - 12)) with (Mem.from nonce 12).
  rewrite <- (read_from h nonce 12).
  apply Mem_AEAD_Seal_clear; auto.
  - apply well_formed_from; [assumption | lia].
  - cbn. lia.
Qed.

(** Manual-nonce Open has the outcome of Open on values. *)
Lemma Mem_manual_Open_clear (key K1 : list byte) (h : Mem.heap) (dst nonce ct ad : Mem.ref) :
  length key = 32 -> length K1 = 16 ->
  Mem.well_formed h dst -> Mem.well_formed h nonce ->
  Mem.well_formed h ct -> Mem.well_formed h ad ->
  Mem.apart ct dst \/ Mem.in_place ct dst -> Mem.apart ad dst ->
  (forall p, gcm_open (DerivedKey_spec key K1 (firstn 12 (Mem.read h nonce)))
               (skipn 12 (Mem.read h nonce)) (Mem.read h ct) (Mem.read h ad) = Some p ->
             length (Mem.read h ct) = length p + 16) ->
  Mem.lift (Mem.xaes256gcmManual_Open (mkManual (Some (mkBlock key)) K1) h dst nonce ct ad)
  = xaes256gcmManual_Open (mkManual (Some (mkBlock key)) K1) (Mem.view h dst)
      (Mem.read h nonce) (Mem.read h ct) (Mem.read h ad).
Proof.
  intros Hk H1 Hd Hn Hc Ha Ac Aa Hlen.
  pose proof (length_read h nonce Hn) as LN.
  destruct (Nat.eq_dec (Mem.rlen nonce) 24) as [Ln | Ln].
  - rewrite Ln in LN. destruct (nonce_halves _ LN) as (_ & _ & L1 & L2).
    rewrite xaes256gcmManual_Open_24 by assumption.
    unfold Mem.xaes256gcmManual_Open, NonceSize.
    destruct (Nat.eqb_spec (Mem.rlen nonce) 24) as [_ | ?]; [| contradiction]. cbn [negb].
    rewrite deriveKey_12 by assumption. cbn [elems].
    rewrite aes_NewCipher_32 by (now apply DerivedKey_spec_length).
    cbn [fst]. rewrite cipher_NewGCM_aes. cbn [fst].
    change (Mem.mkRef (Mem.arr nonce) (Mem.off nonce + 12) (Mem.rlen nonce - 12)
              (Mem.rcap nonce - 12)) with (Mem.from nonce 12).
    rewrite Mem_AEAD_Open_clear; auto.
    + unfold AEAD_Open, gcmStandardNonceSize. rewrite read_from, L2. reflexivity.
    + apply well_formed_from; [assumption | lia].
    + cbn. lia.
    + rewrite read_from. exact Hlen.
  - unfold Mem.xaes256gcmManual_Open, xaes256gcmManual_Open, NonceSize.
    rewrite LN. apply Nat.eqb_neq in Ln. rewrite Ln. reflexivity.
Qed.

(** Automatic Open likewise. *)
Lemma Mem_auto_Open_apart (key K1 : list byte) (h : Mem.heap) (dst nonce ct ad : Mem.ref) :
  length key = 32 -> length K1 = 16 ->
  Mem.well_formed h dst -> Mem.well_formed h nonce ->
  Mem.well_formed h ct -> Mem.well_formed h ad ->
  Mem.apart ct dst -> Mem.apart ad dst ->
  (forall p, gcm_open (DerivedKey_spec key K1 (firstn 12 (Mem.read h ct)))
               (skipn 12 (firstn 24 (Mem.read h ct))) (skipn 24 (Mem.read h ct))
               (Mem.read h ad) = Some p ->
             length (skipn 24 (Mem.read h ct)) = length p + 16) ->
  Mem.lift (Mem.xaes256gcm_Open (mkAuto (mkManual (Some (mkBlock key)) K1)) h dst nonce ct ad)
  = xaes256gcm_Open (mkAuto (mkManual (Some (mkBlock key)) K1)) (Mem.view h dst)
      (Mem.read h nonce) (Mem.read h ct) (Mem.read h ad).
Proof.
  intros Hk H1 Hd Hn Hc Ha Ac Aa Hlen.
  pose proof (length_read h nonce Hn) as LN. pose proof (length_read h ct Hc) as LC.
  unfold Mem.xaes256gcm_Open.
  destruct (Nat.eqb_spec (Mem.rlen nonce) 0) as [Ln | Ln]; cbn [negb].
  2:{ unfold xaes256gcm_Open. rewrite LN. apply Nat.eqb_neq in Ln. now rewrite Ln. }
  assert (EN : Mem.read h nonce = []) by (apply length_zero_iff_nil; lia).
  rewrite EN.
  destruct (Nat.ltb_spec (Mem.rlen ct) NonceSize) as [Hs | Hs].
  { rewrite xaes256gcm_Open_short by (rewrite LC; exact Hs). reflexivity. }
  rewrite xaes256gcm_Open_long by (rewrite LC; exact Hs). cbn [manual].
  change (Mem.mkRef (Mem.arr ct) (Mem.off ct) NonceSize (Mem.rcap ct))
    with (Mem.upto ct NonceSize).
  change (Mem.mkRef (Mem.arr ct) (Mem.off ct + NonceSize) (Mem.rlen ct - NonceSize)
            (Mem.rcap ct - NonceSize)) with (Mem.from ct NonceSize).
  unfold NonceSize in *.
  rewrite Mem_manual_Open_clear; auto.
  - now rewrite read_upto, read_from by assumption.
  - apply well_formed_upto; [assumption | destruct Hc; lia].
  - apply well_formed_from; assumption.
  - left. now apply apart_from.
  - rewrite read_upto, read_from by assumption.
    rewrite firstn_firstn. exact Hlen.
Qed.

End OnTheHeap.

Section AutomaticOnTheHeap.
Context {P : Primitives} {Pok : PrimitivesOk P}.

(** Automatic Seal into a [dst] that has the capacity: the nonce goes
    behind [dst], the sealed message behind the nonce. *)
Lemma Mem_auto_Seal_in_place (key K1 : list byte) (rng : Rand) (h : Mem.heap)
    (dst nonce pt ad : Mem.ref) (r : list byte) (rng' : Rand) :
  length key = 32 -> length K1 = 16 ->
  Mem.well_formed h dst -> Mem.well_formed h pt -> Mem.well_formed h ad ->
  Mem.apart pt dst -> Mem.apart ad dst ->
  Mem.rlen nonce = 0 ->
  Mem.rlen dst + Mem.rlen pt + Overhead <= Mem.rcap dst ->
  rand_Read rng NonceSize = (Some r, rng') ->
  exists s h2,
    Mem.xaes256gcm_Seal (mkAuto (mkManual (Some (mkBlock key)) K1)) rng h dst nonce pt ad
    = ((Ret s, h2), rng')
    /\ Mem.view h2 s
       = appendTo (mkSlice (Mem.read h dst ++ r) (skipn 24 (Mem.room h dst)))
           (gcm_seal (DerivedKey_spec key K1 (firstn 12 r)) (skipn 12 r)
              (Mem.read h pt) (Mem.read h ad))
    /\ Mem.arr s = Mem.arr dst
    /\ Mem.well_formed h2 s
    /\ Mem.extends h h2
    /\ (forall a, a <> Mem.arr s -> Mem.arrays h2 a = Mem.arrays h a).
Proof.
  intros Hk H1 Hd Hp Ha Ap Aa Ln Hcap Hr.
  destruct (rand_Read_some _ _ _ _ Hr) as (_ & _ & _ & Lr).
  unfold Overhead, NonceSize in *.
  assert (Hc0 : Mem.rcap dst <> 0) by lia.
  unfold Mem.xaes256gcm_Seal, Overhead, NonceSize. rewrite Ln. cbn [Nat.eqb negb].
  destruct (Nat.ltb_spec (Mem.rcap dst) (Mem.rlen dst + Mem.rlen pt + 40)) as [? | _]; [lia |].
  destruct (Nat.ltb_spec (Mem.rcap dst) (Mem.rlen dst + 24)) as [? | _]; [lia |].
  rewrite Hr. cbn [Mem.arr Mem.off Mem.rlen Mem.rcap manual].
  set (h1 := Mem.write h (Mem.arr dst) (Mem.off dst + Mem.rlen dst) r).
  set (dst' := Mem.mkRef (Mem.arr dst) (Mem.off dst) (Mem.rlen dst + 24) (Mem.rcap dst)).
  set (n := Mem.mkRef (Mem.arr dst) (Mem.off dst + Mem.rlen dst) 24
              (Mem.rcap dst - Mem.rlen dst)).
  destruct (write_behind h dst r Hd) as (V & L); [lia |]. fold h1 in V, L.
  rewrite Lr in V. fold dst' in V.
  assert (X : Mem.extends h h1) by (now apply extends_write).
  assert (Wd : Mem.well_formed h1 dst').
  { destruct Hd as (Hl & [? | (Hlt & Hb)]); [lia |].
    split; cbn [dst' Mem.arr Mem.off Mem.rlen Mem.rcap]; [lia | right].
    split; [exact Hlt | rewrite L; exact Hb]. }
  assert (Wn : Mem.well_formed h1 n).
  { destruct Hd as (Hl & [? | (Hlt & Hb)]); [lia |].
    split; cbn [n Mem.arr Mem.off Mem.rlen Mem.rcap]; [lia | right].
    split; [exact Hlt | rewrite L; lia]. }
  assert (Rn : Mem.read h1 n = r).
  { unfold n. rewrite (read_behind h1 _ _ _ _ _ (Mem.rcap dst)). fold dst'.
    change (Mem.read h1 dst') with (elems (Mem.view h1 dst')). rewrite V. cbn [elems].
    apply skipn_app_exact. now apply length_read. }
  assert (F1 : forall a, a <> Mem.arr dst -> Mem.arrays h1 a = Mem.arrays h a).
  { intros a Hne. now apply arrays_write_other. }
  assert (Rp : Mem.read h1 pt = Mem.read h pt).
  { apply (read_framed h h1 (Mem.arr dst)); [exact F1 |].
    destruct Ap as [? | [? | ?]]; [now left | contradiction | now right]. }
  assert (Ra : Mem.read h1 ad = Mem.read h ad).
  { apply (read_framed h h1 (Mem.arr dst)); [exact F1 |].
    destruct Aa as [? | [? | ?]]; [now left | contradiction | now right]. }
  assert (Ap' : Mem.apart pt dst') by exact Ap.
  assert (Aa' : Mem.apart ad dst') by exact Aa.
  destruct (Mem_manual_Seal_24 key K1 h1 dst' n pt ad Hk H1 Wd Wn
              (well_formed_extends h h1 pt X Hp) (well_formed_extends h h1 ad X Ha)
              (or_introl Ap') Aa' eq_refl)
    as (s & h2 & E & V2 & Hpl & W2 & X2 & F2).
  rewrite E. exists s, h2. split; [reflexivity |].
  cbn [dst' Mem.arr Mem.off Mem.rlen Mem.rcap] in Hpl.
  destruct (Nat.leb_spec (Mem.rlen dst + 24 + (Mem.rlen pt + 16)) (Mem.rcap dst)) as [_ | ?];
    [| lia].
  rewrite V2, V, Rn, Rp, Ra.
  split; [reflexivity |]. split; [exact Hpl |]. split; [exact W2 |].
  split; [now apply extends_trans with h1 |].
  intros a Hne. rewrite F2 by assumption. apply F1. congruence.
Qed.

(** When [dst] lacks the capacity, Seal goes on with a copy of it in a new
    array of the full size. *)
Lemma Mem_auto_Seal_alloc (x : xaes256gcm) (rng : Rand) (h : Mem.heap)
    (dst nonce pt ad : Mem.ref) :
  Mem.rlen nonce = 0 ->
  Mem.rcap dst < Mem.rlen dst + Mem.rlen pt + Overhead ->
  Mem.xaes256gcm_Seal x rng h dst nonce pt ad
  = Mem.xaes256gcm_Seal x rng
      (fst (Mem.alloc h (Mem.read h dst
                         ++ repeat x00 (Mem.rlen dst + Mem.rlen pt + Overhead - Mem.rlen dst))))
      (Mem.mkRef (Mem.next h) 0 (Mem.rlen dst) (Mem.rlen dst + Mem.rlen pt + Overhead))
      nonce pt ad.
Proof.
  intros Ln Hc. unfold Mem.xaes256gcm_Seal. rewrite Ln. cbn [Nat.eqb negb].
  cbn [Mem.arr Mem.off Mem.rlen Mem.rcap]. rewrite Nat.ltb_irrefl.
  apply Nat.ltb_lt in Hc. rewrite Hc. reflexivity.
Qed.

(** Automatic Seal on slices that keep apart from [dst]. *)
Lemma Mem_auto_Seal_apart (key K1 : list byte) (rng : Rand) (h : Mem.heap)
    (dst nonce pt ad : Mem.ref) (r : list byte) (rng' : Rand) :
  length key = 32 -> length K1 = 16 ->
  Mem.well_formed h dst -> Mem.well_formed h pt -> Mem.well_formed h ad ->
  Mem.apart pt dst -> Mem.apart ad dst ->
  Mem.rlen nonce = 0 ->
  rand_Read rng NonceSize = (Some r, rng') ->
  exists s h2,
    Mem.xaes256gcm_Seal (mkAuto (mkManual (Some (mkBlock key)) K1)) rng h dst nonce pt ad
    = ((Ret s, h2), rng')
    /\ Mem.view h2 s
       = appendTo
           (mkSlice (Mem.read h dst ++ r)
              (skipn 24 (if Mem.rcap dst <? Mem.rlen dst + Mem.rlen pt + Overhead
                         then repeat x00 (Mem.rlen dst + Mem.rlen pt + Overhead - Mem.rlen dst)
                         else Mem.room h dst)))
           (gcm_seal (DerivedKey_spec key K1 (firstn 12 r)) (skipn 12 r)
              (Mem.read h pt) (Mem.read h ad))
    /\ (if Mem.rcap dst <? Mem.rlen dst + Mem.rlen pt + Overhead
        then Mem.arr s = Mem.next h else Mem.arr s = Mem.arr dst)
    /\ Mem.well_formed h2 s
    /\ Mem.extends h h2
    /\ (forall a, a <> Mem.arr s -> Mem.arrays h2 a = Mem.arrays h a).
Proof.
  intros Hk H1 Hd Hp Ha Ap Aa Ln Hr.
  destruct (Nat.ltb_spec (Mem.rcap dst) (Mem.rlen dst + Mem.rlen pt + Overhead)) as [Hc | Hc].
  2:{ now apply Mem_auto_Seal_in_place. }
  rewrite Mem_auto_Seal_alloc by assumption.
  set (total := Mem.rlen dst + Mem.rlen pt + Overhead) in *.
  set (zeros := repeat x00 (total - Mem.rlen dst)).
  set (h0 := fst (Mem.alloc h (Mem.read h dst ++ zeros))).
  set (d0 := Mem.mkRef (Mem.next h) 0 (Mem.rlen dst) total).
  pose proof (length_read h dst Hd) as Ld.
  assert (Lz : length zeros = total - Mem.rlen dst) by apply repeat_length.
  assert (A0 : Mem.arrays h0 (Mem.next h) = [] ++ Mem.read h dst ++ zeros ++ [])
    by (unfold h0; rewrite arrays_alloc_new, app_nil_r; reflexivity).
  assert (V0 : Mem.view h0 d0 = mkSlice (Mem.read h dst) zeros).
  { apply (view_of_parts h0 d0 [] _ _ [] A0); cbn [d0 Mem.off Mem.rlen Mem.rcap];
      auto. }
  assert (X0 : Mem.extends h h0) by apply extends_alloc.
  assert (W0 : Mem.well_formed h0 d0).
  { split; cbn [d0 Mem.arr Mem.off Mem.rlen Mem.rcap]; [unfold total; lia | right].
    rewrite A0. cbn [app]. rewrite !length_app, Ld, Lz. cbn [length].
    split; [cbn; lia | unfold total; lia]. }
  assert (Fresh : forall q, Mem.well_formed h q -> Mem.apart q d0).
  { intros q (Hl & [Hz | (Hlt & _)]); [left; lia | right; right].
    cbn [d0 Mem.arr]. lia. }
  destruct (Mem_auto_Seal_in_place key K1 rng h0 d0 nonce pt ad r rng' Hk H1 W0
              (well_formed_extends h h0 pt X0 Hp) (well_formed_extends h h0 ad X0 Ha)
              (Fresh pt Hp) (Fresh ad Ha) Ln (le_n _) Hr)
    as (s & h2 & E & V2 & As & W2 & X2 & F2).
  exists s, h2. split; [exact E |].
  change (Mem.read h0 d0) with (elems (Mem.view h0 d0)) in V2.
  change (Mem.room h0 d0) with (spare (Mem.view h0 d0)) in V2.
  rewrite V0 in V2. cbn [elems spare] in V2.
  unfold h0 in V2. rewrite !read_alloc in V2 by assumption.
  split; [exact V2 |]. split; [exact As |]. split; [exact W2 |].
  split; [now apply extends_trans with h0 |].
  intros a Hne. rewrite F2 by assumption. unfold h0. apply arrays_alloc_other.
  rewrite As in Hne. exact Hne.
Qed.

(** On slices that keep apart from [dst], automatic Seal on the heap is
    automatic Seal on values: the same outcome, the same returned bytes
    and capacity, the same bytes left in the random source. *)
Lemma Mem_auto_Seal_lift (key K1 : list byte) (rng : Rand) (h : Mem.heap)
    (dst nonce pt ad : Mem.ref) :
  length key = 32 -> length K1 = 16 ->
  Mem.well_formed h dst -> Mem.well_formed h nonce ->
  Mem.well_formed h pt -> Mem.well_formed h ad ->
  Mem.apart pt dst -> Mem.apart ad dst ->
  let x := mkAuto (mkManual (Some (mkBlock key)) K1) in
  Mem.lift (fst (Mem.xaes256gcm_Seal x rng h dst nonce pt ad))
  = fst (xaes256gcm_Seal x rng (Mem.view h dst) (Mem.read h nonce) (Mem.read h pt)
           (Mem.read h ad))
  /\ snd (Mem.xaes256gcm_Seal x rng h dst nonce pt ad)
     = snd (xaes256gcm_Seal x rng (Mem.view h dst) (Mem.read h nonce) (Mem.read h pt)
              (Mem.read h ad)).
Proof.
  intros Hk H1 Hd Hn Hp Ha Ap Aa x.
  pose proof (length_read h nonce Hn) as LN.
  destruct (Nat.eq_dec (Mem.rlen nonce) 0) as [Ln | Ln].
  2:{ unfold Mem.xaes256gcm_Seal, xaes256gcm_Seal. rewrite LN.
      apply Nat.eqb_neq in Ln. rewrite Ln. split; reflexivity. }
  assert (EN : Mem.read h nonce = []) by (apply length_zero_iff_nil; lia).
  rewrite EN.
  destruct (xaes256gcm_Seal_room (mkManual (Some (mkBlock key)) K1) rng (Mem.view h dst)
              (Mem.read h pt) (Mem.read h ad)) as (_ & E).
  unfold x. rewrite E. clear E.
  pose proof (length_read h dst Hd) as Ld. pose proof (length_room h dst Hd) as Lr.
  pose proof (length_read h pt Hp) as Lp.
  assert (Ec : cap (Mem.view h dst) = Mem.rcap dst).
  { unfold cap. cbn [Mem.view elems spare]. rewrite Ld, Lr. destruct Hd. lia. }
  unfold len. cbn [Mem.view elems spare] in *. rewrite Ec, Ld, Lp.
  destruct (rand_Read rng NonceSize) as [[r |] rng'] eqn:Hr.
  - destruct (Mem_auto_Seal_apart key K1 rng h dst nonce pt ad r rng'
                Hk H1 Hd Hp Ha Ap Aa Ln Hr) as (s & h2 & E & V & _).
    destruct (rand_Read_some _ _ _ _ Hr) as (_ & _ & _ & Lr').
    rewrite E. unfold Mem.lift. cbn [fst snd].
    rewrite xaes256gcmManual_Seal_24 by assumption.
    rewrite V. split; reflexivity.
  - unfold Mem.xaes256gcm_Seal. rewrite Ln. cbn [Nat.eqb negb].
    destruct (Nat.ltb_spec (Mem.rcap dst) (Mem.rlen dst + Mem.rlen pt + Overhead)) as [Hc | Hc];
      cbn [Mem.alloc Mem.rlen Mem.rcap Mem.arr Mem.off].
    + destruct (Nat.ltb_spec (Mem.rlen dst + Mem.rlen pt + Overhead)
                  (Mem.rlen dst + NonceSize)) as [Hb | _];
        [unfold NonceSize, Overhead in Hb; lia |].
      rewrite Hr. split; reflexivity.
    + destruct (Nat.ltb_spec (Mem.rcap dst) (Mem.rlen dst + NonceSize)) as [Hb | _];
        [unfold NonceSize, Overhead in *; lia |].
      rewrite Hr. split; reflexivity.
Qed.

End AutomaticOnTheHeap.

Section Shared.
Context {P : Primitives} {Pok : PrimitivesOk P}.

(** Manual-nonce Seal on the heap has the outcome of Seal on values. *)
Lemma Mem_manual_Seal_lift (key K1 : list byte) (h : Mem.heap) (dst nonce pt ad : Mem.ref) :
  length key = 32 -> length K1 = 16 ->
  Mem.well_formed h dst -> Mem.well_formed h nonce ->
  Mem.well_formed h pt -> Mem.well_formed h ad ->
  Mem.apart pt dst \/ Mem.in_place pt dst -> Mem.apart ad dst ->
  Mem.lift (Mem.xaes256gcmManual_Seal (mkManual (Some (mkBlock key)) K1) h dst nonce pt ad)
  = xaes256gcmManual_Seal (mkManual (Some (mkBlock key)) K1) (Mem.view h dst)
      (Mem.read h nonce) (Mem.read h pt) (Mem.read h ad).
Proof.
  intros Hk H1 Hd Hn Hp Ha Ap Aa.
  pose proof (length_read h nonce Hn) as LN.
  destruct (Nat.eq_dec (Mem.rlen nonce) 24) as [Ln | Ln].
  - destruct (Mem_manual_Seal_24 key K1 h dst nonce pt ad Hk H1 Hd Hn Hp Ha Ap Aa Ln)
      as (s & h2 & E & V & _).
    rewrite E, xaes256gcmManual_Seal_24 by (auto; lia).
    unfold Mem.lift. cbn [fst snd]. now rewrite V.
  - unfold Mem.xaes256gcmManual_Seal, xaes256gcmManual_Seal, NonceSize.
    rewrite LN. apply Nat.eqb_neq in Ln. rewrite Ln. reflexivity.
Qed.

(** Opening, with manual nonces, a message sealed under the same nonce
    and additional data. *)
Lemma Mem_manual_Open_sealed (key K1 : list byte) (h : Mem.heap) (dst n c ad : Mem.ref)
    (pt : list byte) :
  length key = 32 -> length K1 = 16 ->
  Mem.well_formed h dst -> Mem.well_formed h n ->
  Mem.well_formed h c -> Mem.well_formed h ad ->
  Mem.apart c dst \/ Mem.in_place c dst -> Mem.apart ad dst ->
  Mem.rlen n = 24 ->
  Mem.read h c = gcm_seal (DerivedKey_spec key K1 (firstn 12 (Mem.read h n)))
                   (skipn 12 (Mem.read h n)) pt (Mem.read h ad) ->
  Mem.lift (Mem.xaes256gcmManual_Open (mkManual (Some (mkBlock key)) K1) h dst n c ad)
  = Ret (appendTo (Mem.view h dst) pt).
Proof.
  intros Hk H1 Hd Hn Hc Ha Ac Aa Ln Ec.
  pose proof (length_read h n Hn) as LN. rewrite Ln in LN.
  destruct (nonce_halves _ LN) as (_ & _ & L1 & L2).
  assert (Eo : gcm_open (DerivedKey_spec key K1 (firstn 12 (Mem.read h n)))
                 (skipn 12 (Mem.read h n)) (Mem.read h c) (Mem.read h ad) = Some pt).
  { rewrite Ec. apply gcm_open_seal; [now apply DerivedKey_spec_length | exact L2]. }
  rewrite Mem_manual_Open_clear; auto.
  - rewrite xaes256gcmManual_Open_24 by assumption. now rewrite Eo.
  - intros p Hp. rewrite Eo in Hp. inversion Hp; subst p.
    rewrite Ec. apply gcm_seal_length.
Qed.

(** The same with automatic nonces, the nonce in front of the message. *)
Lemma Mem_auto_Open_sealed (key K1 : list byte) (h : Mem.heap) (dst nonce c ad : Mem.ref)
    (N pt : list byte) :
  length key = 32 -> length K1 = 16 ->
  Mem.well_formed h dst -> Mem.well_formed h nonce ->
  Mem.well_formed h c -> Mem.well_formed h ad ->
  Mem.apart c dst -> Mem.apart ad dst ->
  Mem.rlen nonce = 0 -> length N = 24 ->
  Mem.read h c = N ++ gcm_seal (DerivedKey_spec key K1 (firstn 12 N)) (skipn 12 N) pt
                        (Mem.read h ad) ->
  Mem.lift (Mem.xaes256gcm_Open (mkAuto (mkManual (Some (mkBlock key)) K1)) h dst nonce c ad)
  = Ret (appendTo (Mem.view h dst) pt).
Proof.
  intros Hk H1 Hd Hn Hc Ha Ac Aa Ln LN Ec.
  destruct (nonce_halves _ LN) as (_ & _ & L1 & L2).
  assert (F24 : firstn 24 (Mem.read h c) = N) by (rewrite Ec; now apply firstn_app_exact).
  assert (S24 : skipn 24 (Mem.read h c)
                = gcm_seal (DerivedKey_spec key K1 (firstn 12 N)) (skipn 12 N) pt
                    (Mem.read h ad)) by (rewrite Ec; now apply skipn_app_exact).
  assert (F12 : firstn 12 (Mem.read h c) = firstn 12 N).
  { rewrite <- F24, firstn_firstn. reflexivity. }
  assert (Eo : gcm_open (DerivedKey_spec key K1 (firstn 12 N)) (skipn 12 N)
                 (skipn 24 (Mem.read h c)) (Mem.read h ad) = Some pt).
  { rewrite S24. apply gcm_open_seal; [now apply DerivedKey_spec_length | exact L2]. }
  pose proof (length_read h nonce Hn) as LNo.
  assert (EN : Mem.read h nonce = []) by (apply length_zero_iff_nil; lia).
  rewrite Mem_auto_Open_apart; auto.
  - rewrite EN, xaes256gcm_Open_long
      by (rewrite Ec, length_app; unfold NonceSize; lia).
    unfold NonceSize. rewrite F24.
    rewrite xaes256gcmManual_Open_24 by assumption. now rewrite Eo.
  - rewrite F12, F24. intros p Hp. rewrite Eo in Hp. inversion Hp; subst p.
    rewrite S24. apply gcm_seal_length.
Qed.

(** A slice in an array of [h] other than the one Seal returned, or
    without capacity, is after Seal what it was. *)
Lemma outside_unchanged (h h1 : Mem.heap) (dst s q : Mem.ref) :
  Mem.well_formed h q ->
  (Mem.arr s = Mem.arr dst \/ Mem.arr s = Mem.next h) ->
  (forall a, a <> Mem.arr s -> Mem.arrays h1 a = Mem.arrays h a) ->
  Mem.rcap q = 0 \/ Mem.arr q <> Mem.arr dst ->
  Mem.view h1 q = Mem.view h q /\ (Mem.rcap q = 0 \/ Mem.arr q <> Mem.arr s).
Proof.
  intros (Hl & Hq) Hs F Hne.
  assert (N : Mem.rcap q = 0 \/ Mem.arr q <> Mem.arr s).
  { destruct Hne as [? | Hne]; [now left |].
    destruct Hq as [? | (Hlt & _)]; [now left | right].
    destruct Hs as [-> | ->]; [assumption | lia]. }
  split; [| exact N]. now apply (view_framed h h1 (Mem.arr s)).
Qed.

(** X11: on slices that keep apart from [dst], the four methods on shared
    storage return what they return on values: the same outcome, the same
    bytes and capacity, and for automatic Seal the same bytes left in the
    random source.  For Open this takes that GCM opens only an input 16
    bytes longer than its output. *)
Theorem shared_storage_agrees_when_apart
    (key : list byte) (x : xaes256gcmManual) (rng : Rand) (h : Mem.heap)
    (dst nonce input ad : Mem.ref) :
  newWithManualNonces key = Ret x ->
  Mem.well_formed h dst -> Mem.well_formed h nonce ->
  Mem.well_formed h input -> Mem.well_formed h ad ->
  Mem.apart input dst -> Mem.apart ad dst ->
  (Mem.lift (Mem.xaes256gcmManual_Seal x h dst nonce input ad)
   = xaes256gcmManual_Seal x (Mem.view h dst) (Mem.read h nonce) (Mem.read h input)
       (Mem.read h ad))
  /\ (Mem.lift (fst (Mem.xaes256gcm_Seal (mkAuto x) rng h dst nonce input ad))
      = fst (xaes256gcm_Seal (mkAuto x) rng (Mem.view h dst) (Mem.read h nonce)
               (Mem.read h input) (Mem.read h ad)))
  /\ (snd (Mem.xaes256gcm_Seal (mkAuto x) rng h dst nonce input ad)
      = snd (xaes256gcm_Seal (mkAuto x) rng (Mem.view h dst) (Mem.read h nonce)
               (Mem.read h input) (Mem.read h ad)))
  /\ ((forall k n c a p, gcm_open k n c a = Some p -> length c = length p + 16) ->
      Mem.lift (Mem.xaes256gcmManual_Open x h dst nonce input ad)
      = xaes256gcmManual_Open x (Mem.view h dst) (Mem.read h nonce) (Mem.read h input)
          (Mem.read h ad)
      /\ Mem.lift (Mem.xaes256gcm_Open (mkAuto x) h dst nonce input ad)
         = xaes256gcm_Open (mkAuto x) (Mem.view h dst) (Mem.read h nonce)
             (Mem.read h input) (Mem.read h ad)).
Proof.
  intros Hx Hd Hn Hi Ha Ai Aa. constructed Hx.
  split; [apply Mem_manual_Seal_lift; auto |].
  split; [now apply Mem_auto_Seal_lift |].
  split; [now apply Mem_auto_Seal_lift |].
  intros Hlen. split.
  - apply Mem_manual_Open_clear; auto.
    intros p Hp. exact (Hlen _ _ _ _ _ Hp).
  - apply Mem_auto_Open_apart; auto.
    intros p Hp. exact (Hlen _ _ _ _ _ Hp).
Qed.

End Shared.

Section SharedFurther.
Context {P : Primitives} {Pok : PrimitivesOk P}.

Lemma well_formed_nil (h : Mem.heap) : Mem.well_formed h Mem.nil_ref.
Proof. split; cbn; [lia | now left]. Qed.

Lemma view_nil (h : Mem.heap) : Mem.view h Mem.nil_ref = nil_slice.
Proof. reflexivity. Qed.

Lemma apart_nil (r : Mem.ref) : Mem.apart r Mem.nil_ref.
Proof. right; now left. Qed.

(** What automatic Seal leaves, for slices that keep apart from [dst]:
    the returned slice holds [dst], the nonce and the sealed message; a
    slice apart from [dst] reads as before; a slice in another array than
    [dst]'s is as before, and is not in the array returned. *)
Lemma Mem_auto_Seal_post (key K1 : list byte) (rng : Rand) (h : Mem.heap)
    (dst nonce pt ad : Mem.ref) (r : list byte) (rng' : Rand) :
  length key = 32 -> length K1 = 16 ->
  Mem.well_formed h dst -> Mem.well_formed h pt -> Mem.well_formed h ad ->
  Mem.apart pt dst -> Mem.apart ad dst ->
  Mem.rlen nonce = 0 ->
  rand_Read rng NonceSize = (Some r, rng') ->
  exists s h1,
    Mem.xaes256gcm_Seal (mkAuto (mkManual (Some (mkBlock key)) K1)) rng h dst nonce pt ad
    = ((Ret s, h1), rng')
    /\ Mem.read h1 s
       = Mem.read h dst ++ r
         ++ gcm_seal (DerivedKey_spec key K1 (firstn 12 r)) (skipn 12 r)
              (Mem.read h pt) (Mem.read h ad)
    /\ Mem.rlen s = Mem.rlen dst + Mem.rlen pt + Overhead
    /\ Mem.well_formed h1 s
    /\ Mem.extends h h1
    /\ (forall q, Mem.well_formed h q -> Mem.apart q dst -> Mem.read h1 q = Mem.read h q)
    /\ (forall q, Mem.well_formed h q -> Mem.rcap q = 0 \/ Mem.arr q <> Mem.arr dst ->
          Mem.view h1 q = Mem.view h q /\ (Mem.rcap q = 0 \/ Mem.arr q <> Mem.arr s)).
Proof.
  intros Hk H1 Hd Hp Ha Ap Aa Ln Hr.
  destruct (Mem_auto_Seal_apart key K1 rng h dst nonce pt ad r rng'
              Hk H1 Hd Hp Ha Ap Aa Ln Hr) as (s & h1 & E & V & Hpl & W & X & F).
  destruct (rand_Read_some _ _ _ _ Hr) as (_ & _ & _ & Lr).
  exists s, h1. split; [exact E |].
  assert (R : Mem.read h1 s
              = Mem.read h dst ++ r
                ++ gcm_seal (DerivedKey_spec key K1 (firstn 12 r)) (skipn 12 r)
                     (Mem.read h pt) (Mem.read h ad)).
  { change (Mem.read h1 s) with (elems (Mem.view h1 s)).
    rewrite V, elems_appendTo. cbn [elems]. now rewrite <- app_assoc. }
  split; [exact R |].
  split.
  { rewrite <- (length_read h1 s W), R, !length_app, gcm_seal_length, Lr.
    rewrite !length_read by assumption. unfold NonceSize, Overhead. lia. }
  split; [exact W |]. split; [exact X |].
  assert (Hs : Mem.arr s = Mem.arr dst /\ Mem.rcap dst <> 0 \/ Mem.arr s = Mem.next h).
  { destruct (Nat.ltb_spec (Mem.rcap dst) (Mem.rlen dst + Mem.rlen pt + Overhead));
      [now right | left; split; [assumption | unfold Overhead in *; lia]]. }
  split.
  - intros q (Hl & Hq) Aq. apply (read_framed h h1 (Mem.arr s)); [exact F |].
    destruct Hq as [? | (Hlt & _)]; [left; lia |].
    destruct Hs as [(-> & Hc) | ->]; [| right; lia].
    destruct Aq as [? | [? | ?]]; [now left | contradiction | now right].
  - intros q Hq Hne. apply (outside_unchanged h h1 dst s q); auto.
    destruct Hs as [(? & _) | ?]; [now left | now right].
Qed.

(** The same for manual-nonce Seal. *)
Lemma Mem_manual_Seal_post (key K1 : list byte) (h : Mem.heap) (dst nonce pt ad : Mem.ref) :
  length key = 32 -> length K1 = 16 ->
  Mem.well_formed h dst -> Mem.well_formed h nonce ->
  Mem.well_formed h pt -> Mem.well_formed h ad ->
  Mem.apart pt dst \/ Mem.in_place pt dst -> Mem.apart ad dst ->
  Mem.rlen nonce = 24 ->
  exists s h1,
    Mem.xaes256gcmManual_Seal (mkManual (Some (mkBlock key)) K1) h dst nonce pt ad
    = (Ret s, h1)
    /\ Mem.read h1 s
       = Mem.read h dst
         ++ gcm_seal (DerivedKey_spec key K1 (firstn 12 (Mem.read h nonce)))
              (skipn 12 (Mem.read h nonce)) (Mem.read h pt) (Mem.read h ad)
    /\ Mem.well_formed h1 s
    /\ Mem.extends h h1
    /\ (forall q, Mem.well_formed h q -> Mem.apart q dst ->
          Mem.read h1 q = Mem.read h q /\ (Mem.rlen q = 0 \/ Mem.arr q <> Mem.arr s))
    /\ (forall q, Mem.well_formed h q -> Mem.rcap q = 0 \/ Mem.arr q <> Mem.arr dst ->
          Mem.view h1 q = Mem.view h q /\ (Mem.rcap q = 0 \/ Mem.arr q <> Mem.arr s)).
Proof.
  intros Hk H1 Hd Hn Hp Ha Ap Aa Ln.
  destruct (Mem_manual_Seal_24 key K1 h dst nonce pt ad Hk H1 Hd Hn Hp Ha Ap Aa Ln)
    as (s & h1 & E & V & Hpl & W & X & F).
  exists s, h1. split; [exact E |].
  split.
  { change (Mem.read h1 s) with (elems (Mem.view h1 s)).
    rewrite V, elems_appendTo. reflexivity. }
  split; [exact W |]. split; [exact X |].
  assert (Hs : Mem.arr s = Mem.arr dst /\ Mem.rcap dst <> 0 \/ Mem.arr s = Mem.next h).
  { destruct (Nat.leb_spec (Mem.rlen dst + (Mem.rlen pt + 16)) (Mem.rcap dst));
      [left; split; [assumption | lia] | now right]. }
  split.
  - intros q (Hl & Hq) Aq.
    assert (N : Mem.rlen q = 0 \/ Mem.arr q <> Mem.arr s).
    { destruct Hq as [? | (Hlt & _)]; [left; lia |].
      destruct Hs as [(-> & Hc) | ->]; [| right; lia].
      destruct Aq as [? | [? | ?]]; [now left | contradiction | now right]. }
    split; [| exact N]. now apply (read_framed h h1 (Mem.arr s)).
  - intros q Hq Hne. apply (outside_unchanged h h1 dst s q); auto.
    destruct Hs as [(? & _) | ?]; [now left | now right].
Qed.

Lemma apart_outside (c q : Mem.ref) (a : nat) :
  Mem.arr c = a -> Mem.rcap q = 0 \/ Mem.arr q <> a -> Mem.apart c q.
Proof. intros <- [? | ?]; right; [now left | right; congruence]. Qed.

(** X1: with automatic nonces, on slices that keep apart from their
    destinations: whenever the random source supplies 24 bytes Seal
    returns, and Open applied to what Seal appended to [dst] returns the
    plaintext as it was before Seal, appended to its own destination. *)
Theorem auto_open_seal_roundtrip
    (key : list byte) (x : xaes256gcm) (rng : Rand) (h : Mem.heap)
    (dst pt ad dst' : Mem.ref) :
  New key = Ret x ->
  NonceSize <= length rng ->
  Mem.well_formed h dst -> Mem.well_formed h pt -> Mem.well_formed h ad ->
  Mem.well_formed h dst' ->
  Mem.apart pt dst -> Mem.apart ad dst ->
  (Mem.rcap dst' = 0 \/ Mem.arr dst' <> Mem.arr dst) -> Mem.apart ad dst' ->
  exists s h1 rng',
    Mem.xaes256gcm_Seal x rng h dst Mem.nil_ref pt ad = ((Ret s, h1), rng')
    /\ Mem.lift (Mem.xaes256gcm_Open x h1 dst' Mem.nil_ref (Mem.from s (Mem.rlen dst)) ad)
       = Ret (appendTo (Mem.view h dst') (Mem.read h pt)).
Proof.
  intros Hx Hrng Hd Hp Ha Hd' Ap Aa Hne Aa'.
  unfold New in Hx. destruct (newWithManualNonces key) as [m | |] eqn:Hm; inversion Hx; subst x.
  clear Hx. constructed Hm.
  assert (Hread : rand_Read rng NonceSize = (Some (firstn NonceSize rng), skipn NonceSize rng)).
  { unfold rand_Read. apply Nat.leb_le in Hrng. now rewrite Hrng. }
  destruct (rand_Read_some _ _ _ _ Hread) as (_ & _ & _ & Lr).
  destruct (Mem_auto_Seal_post key _ rng h dst Mem.nil_ref pt ad _ _
              Hk H1 Hd Hp Ha Ap Aa eq_refl Hread)
    as (s & h1 & E & R & Ls & W & X & Fr & Fo).
  set (r := firstn NonceSize rng) in *.
  exists s, h1, (skipn NonceSize rng). split; [exact E |].
  destruct (Fo dst' Hd' Hne) as (Vd & Nd).
  rewrite <- Vd.
  assert (Wc : Mem.well_formed h1 (Mem.from s (Mem.rlen dst)))
    by (apply well_formed_from; [assumption | lia]).
  assert (Ac : Mem.apart (Mem.from s (Mem.rlen dst)) dst')
    by (now apply (apart_outside _ _ (Mem.arr s))).
  assert (Ec : Mem.read h1 (Mem.from s (Mem.rlen dst))
               = r ++ gcm_seal (DerivedKey_spec key
                                  (double_spec (aes_encrypt_block key (repeat x00 16)))
                                  (firstn 12 r))
                        (skipn 12 r) (Mem.read h pt) (Mem.read h1 ad)).
  { rewrite read_from, R, skipn_app_exact by (now apply length_read).
    now rewrite (Fr ad Ha Aa). }
  exact (Mem_auto_Open_sealed key _ h1 dst' Mem.nil_ref (Mem.from s (Mem.rlen dst)) ad r
           (Mem.read h pt) Hk H1 (well_formed_extends h h1 dst' X Hd') (well_formed_nil h1)
           Wc (well_formed_extends h h1 ad X Ha) Ac Aa' eq_refl Lr Ec).
Qed.

(** X2: the two constructors give instances that read each other's
    output, on slices that keep apart from their destinations.  What
    manual-nonce Seal appends to its own nonce ([Seal(nonce, nonce, ...)])
    opens under automatic nonces; what automatic Seal returns opens under
    manual nonces with its first 24 bytes as the nonce. *)
Theorem manual_and_auto_interoperate
    (key : list byte) (xm : xaes256gcmManual) (xa : xaes256gcm) (rng : Rand) (h : Mem.heap)
    (dst nonce pt ad dst' : Mem.ref) :
  NewWithManualNonces key = Ret (AEAD_manual (Some xm), None) ->
  New key = Ret xa ->
  Mem.well_formed h dst -> Mem.well_formed h nonce -> Mem.well_formed h pt ->
  Mem.well_formed h ad -> Mem.well_formed h dst' ->
  Mem.apart ad dst' ->
  (Mem.rlen nonce = NonceSize ->
   Mem.apart pt nonce -> Mem.apart ad nonce ->
   Mem.rcap dst' = 0 \/ Mem.arr dst' <> Mem.arr nonce ->
     exists s h1,
       Mem.xaes256gcmManual_Seal xm h nonce nonce pt ad = (Ret s, h1)
       /\ Mem.lift (Mem.xaes256gcm_Open xa h1 dst' Mem.nil_ref s ad)
          = Ret (appendTo (Mem.view h dst') (Mem.read h pt)))
  /\ (NonceSize <= length rng ->
      Mem.apart pt dst -> Mem.apart ad dst ->
      Mem.rcap dst' = 0 \/ Mem.arr dst' <> Mem.arr dst ->
        exists s h1 rng',
          Mem.xaes256gcm_Seal xa rng h dst Mem.nil_ref pt ad = ((Ret s, h1), rng')
          /\ Mem.lift (Mem.xaes256gcmManual_Open xm h1 dst'
                         (Mem.upto (Mem.from s (Mem.rlen dst)) NonceSize)
                         (Mem.from s (Mem.rlen dst + NonceSize)) ad)
             = Ret (appendTo (Mem.view h dst') (Mem.read h pt))).
Proof.
  unfold NewWithManualNonces, New. intros Hm Hx Hd Hn Hp Ha Hd' Aa'.
  destruct (newWithManualNonces key) as [m | |] eqn:Hc; inversion Hm; subst xm.
  inversion Hx; subst xa. clear Hm Hx. constructed Hc.
  split.
  - intros Ln Ap Aa Hne. unfold NonceSize in Ln.
    destruct (Mem_manual_Seal_post key _ h nonce nonce pt ad Hk H1 Hn Hn Hp Ha
                (or_introl Ap) Aa Ln)
      as (s & h1 & E & R & W & X & Fr & Fo).
    exists s, h1. split; [exact E |].
    destruct (Fo dst' Hd' Hne) as (Vd & Nd).
    rewrite <- Vd.
    assert (Ac : Mem.apart s dst') by (now apply (apart_outside _ _ (Mem.arr s))).
    assert (LN : length (Mem.read h nonce) = 24) by (rewrite <- Ln; now apply length_read).
    rewrite <- (proj1 (Fr ad Ha Aa)) in R.
    exact (Mem_auto_Open_sealed key _ h1 dst' Mem.nil_ref s ad (Mem.read h nonce)
             (Mem.read h pt) Hk H1 (well_formed_extends h h1 dst' X Hd') (well_formed_nil h1)
             W (well_formed_extends h h1 ad X Ha) Ac Aa' eq_refl LN R).
  - intros Hrng Ap Aa Hne.
    assert (Hread : rand_Read rng NonceSize
                    = (Some (firstn NonceSize rng), skipn NonceSize rng)).
    { unfold rand_Read. apply Nat.leb_le in Hrng. now rewrite Hrng. }
    destruct (rand_Read_some _ _ _ _ Hread) as (_ & _ & _ & Lr).
    destruct (Mem_auto_Seal_post key _ rng h dst Mem.nil_ref pt ad _ _
                Hk H1 Hd Hp Ha Ap Aa eq_refl Hread)
      as (s & h1 & E & R & Ls & W & X & Fr & Fo).
    set (r := firstn NonceSize rng) in *.
    exists s, h1, (skipn NonceSize rng). split; [exact E |].
    destruct (Fo dst' Hd' Hne) as (Vd & Nd).
    pose proof (length_read h dst Hd) as Ld.
    assert (Wc : Mem.well_formed h1 (Mem.from s (Mem.rlen dst)))
      by (apply well_formed_from; [assumption | lia]).
    assert (Rn : Mem.read h1 (Mem.upto (Mem.from s (Mem.rlen dst)) NonceSize) = r).
    { rewrite read_upto by (cbn; unfold Overhead, NonceSize in *; lia).
      rewrite read_from, R, skipn_app_exact by assumption.
      now apply firstn_app_exact. }
    rewrite <- Vd.
    assert (Wn : Mem.well_formed h1 (Mem.upto (Mem.from s (Mem.rlen dst)) NonceSize)).
    { apply well_formed_upto; [assumption |].
      destruct W. cbn. unfold Overhead, NonceSize in *. lia. }
    assert (Wb : Mem.well_formed h1 (Mem.from s (Mem.rlen dst + NonceSize))).
    { apply well_formed_from; [assumption | unfold Overhead, NonceSize in *; lia]. }
    assert (Ac : Mem.apart (Mem.from s (Mem.rlen dst + NonceSize)) dst')
      by (now apply (apart_outside _ _ (Mem.arr s))).
    assert (Ec : Mem.read h1 (Mem.from s (Mem.rlen dst + NonceSize))
                 = gcm_seal (DerivedKey_spec key
                               (double_spec (aes_encrypt_block key (repeat x00 16)))
                               (firstn 12 (Mem.read h1
                                  (Mem.upto (Mem.from s (Mem.rlen dst)) NonceSize))))
                     (skipn 12 (Mem.read h1
                                  (Mem.upto (Mem.from s (Mem.rlen dst)) NonceSize)))
                     (Mem.read h pt) (Mem.read h1 ad)).
    { rewrite Rn, read_from, R, app_assoc.
      rewrite skipn_app_exact by (rewrite length_app; lia).
      now rewrite (Fr ad Ha Aa). }
    exact (Mem_manual_Open_sealed key _ h1 dst' _ _ ad (Mem.read h pt) Hk H1
             (well_formed_extends h h1 dst' X Hd') Wn Wb
             (well_formed_extends h h1 ad X Ha) (or_introl Ac) Aa' eq_refl Ec).
Qed.

(** X5: for an instance from the constructor, on an input and additional
    data that keep apart from [dst], Open never panics, with manual and
    with automatic nonces, whatever the nonce and the input; and [dst]
    only says where the plaintext goes: Open fails with [dst] exactly as
    it fails with no destination, and otherwise returns the contents of
    [dst] followed by what it returns there.  This takes that GCM opens
    only an input 16 bytes longer than its output. *)
Theorem open_never_panics_and_appends
    (key : list byte) (x : xaes256gcmManual) (h : Mem.heap) (dst nonce ct ad : Mem.ref) :
  newWithManualNonces key = Ret x ->
  (forall k n c a p, gcm_open k n c a = Some p -> length c = length p + 16) ->
  Mem.well_formed h dst -> Mem.well_formed h nonce ->
  Mem.well_formed h ct -> Mem.well_formed h ad ->
  Mem.apart ct dst -> Mem.apart ad dst ->
  appends_to (Mem.view h dst)
    (Mem.lift (Mem.xaes256gcmManual_Open x h Mem.nil_ref nonce ct ad))
    (Mem.lift (Mem.xaes256gcmManual_Open x h dst nonce ct ad))
  /\ appends_to (Mem.view h dst)
       (Mem.lift (Mem.xaes256gcm_Open (mkAuto x) h Mem.nil_ref nonce ct ad))
       (Mem.lift (Mem.xaes256gcm_Open (mkAuto x) h dst nonce ct ad)).
Proof.
  intros Hx Hlen Hd Hn Hc Ha Ac Aa. constructed Hx.
  pose proof (well_formed_nil h) as H0.
  pose proof (apart_nil ct) as Ac0. pose proof (apart_nil ad) as Aa0.
  rewrite !Mem_manual_Open_clear, !Mem_auto_Open_apart; auto;
    try (intros p Hp; exact (Hlen _ _ _ _ _ Hp)).
  rewrite view_nil.
  set (m := mkManual (Some (mkBlock key))
              (double_spec (aes_encrypt_block key (repeat x00 16)))).
  assert (M : forall n c0,
    appends_to (Mem.view h dst) (xaes256gcmManual_Open m nil_slice n c0 (Mem.read h ad))
               (xaes256gcmManual_Open m (Mem.view h dst) n c0 (Mem.read h ad))).
  { intros n c0. unfold appends_to, m.
    destruct (Nat.eq_dec (length n) NonceSize) as [En | En].
    - rewrite !xaes256gcmManual_Open_24 by assumption.
      destruct (gcm_open _ _ _ _); [| reflexivity].
      eexists. split; [reflexivity |]. now rewrite !elems_appendTo.
    - unfold xaes256gcmManual_Open. apply Nat.eqb_neq in En. now rewrite En. }
  split; [apply M |].
  destruct (Nat.eq_dec (length (Mem.read h nonce)) 0) as [En | En].
  - destruct (Mem.read h nonce); [| discriminate En].
    destruct (Nat.lt_ge_cases (length (Mem.read h ct)) NonceSize) as [Hs | Hl].
    + unfold appends_to. now rewrite !xaes256gcm_Open_short.
    + rewrite !xaes256gcm_Open_long by assumption. apply M.
  - unfold appends_to, xaes256gcm_Open. apply Nat.eqb_neq in En. now rewrite En.
Qed.

(** X12: automatic Seal on a plaintext and additional data that keep
    apart from [dst].  With an empty nonce and a random source of at least
    24 bytes it returns [dst], the 24 bytes taken from the source and what
    manual-nonce Seal produces for them, the plaintext length plus 40
    bytes behind [dst], and leaves the plaintext and the additional data
    as they were; it panics on a non-empty nonce and when the random
    source fails. *)
Theorem auto_seal_layout_apart
    (key : list byte) (x : xaes256gcm) (rng : Rand) (h : Mem.heap)
    (dst nonce pt ad : Mem.ref) :
  New key = Ret x ->
  Mem.well_formed h dst -> Mem.well_formed h nonce ->
  Mem.well_formed h pt -> Mem.well_formed h ad ->
  Mem.apart pt dst -> Mem.apart ad dst ->
  (Mem.rlen nonce <> 0 ->
     fst (fst (Mem.xaes256gcm_Seal x rng h dst nonce pt ad))
     = Panic "xaes256gcm: bad nonce length")
  /\ (Mem.rlen nonce = 0 -> length rng < NonceSize ->
        exists msg, fst (fst (Mem.xaes256gcm_Seal x rng h dst nonce pt ad)) = Panic msg)
  /\ (Mem.rlen nonce = 0 -> NonceSize <= length rng ->
        exists s h1 ct,
          Mem.xaes256gcm_Seal x rng h dst nonce pt ad
          = ((Ret s, h1), skipn NonceSize rng)
          /\ xaes256gcmManual_Seal (manual x) nil_slice (firstn NonceSize rng)
               (Mem.read h pt) (Mem.read h ad) = Ret ct
          /\ Mem.read h1 s = Mem.read h dst ++ firstn NonceSize rng ++ elems ct
          /\ Mem.rlen s = Mem.rlen dst + Mem.rlen pt + Overhead
          /\ Mem.read h1 pt = Mem.read h pt
          /\ Mem.read h1 ad = Mem.read h ad).
Proof.
  intros Hx Hd Hn Hp Ha Ap Aa.
  unfold New in Hx. destruct (newWithManualNonces key) as [m | |] eqn:Hm; inversion Hx; subst x.
  clear Hx. constructed Hm.
  split; [| split].
  - intros Ln. unfold Mem.xaes256gcm_Seal. apply Nat.eqb_neq in Ln. now rewrite Ln.
  - intros Ln Hrng.
    destruct (Mem_auto_Seal_lift key _ rng h dst nonce pt ad Hk H1 Hd Hn Hp Ha Ap Aa)
      as (E & _).
    destruct (Mem.xaes256gcm_Seal _ rng h dst nonce pt ad) as [[o h1] g].
    unfold Mem.lift in E. cbn [fst snd] in *.
    pose proof (length_read h nonce Hn) as LN.
    assert (EN : Mem.read h nonce = []) by (apply length_zero_iff_nil; lia).
    rewrite EN in E.
    destruct (xaes256gcm_Seal_room
                (mkManual (Some (mkBlock key))
                   (double_spec (aes_encrypt_block key (repeat x00 16))))
                rng (Mem.view h dst) (Mem.read h pt) (Mem.read h ad)) as (_ & E2).
    rewrite E2 in E. unfold rand_Read in E.
    replace (NonceSize <=? length rng) with false in E
      by (symmetry; apply Nat.leb_gt; exact Hrng).
    cbn [fst] in E. destruct o; [discriminate | discriminate | eauto].
  - intros Ln Hrng.
    assert (Hread : rand_Read rng NonceSize
                    = (Some (firstn NonceSize rng), skipn NonceSize rng)).
    { unfold rand_Read. apply Nat.leb_le in Hrng. now rewrite Hrng. }
    destruct (rand_Read_some _ _ _ _ Hread) as (_ & _ & _ & Lr).
    destruct (Mem_auto_Seal_post key _ rng h dst nonce pt ad _ _
                Hk H1 Hd Hp Ha Ap Aa Ln Hread)
      as (s & h1 & E & R & Ls & W & X & Fr & Fo).
    exists s, h1. eexists. split; [exact E |]. cbn [manual].
    rewrite xaes256gcmManual_Seal_24 by assumption.
    split; [reflexivity |]. rewrite elems_appendTo. cbn [elems nil_slice app].
    split; [exact R |]. split; [exact Ls |].
    split; [now apply Fr | now apply Fr].
Qed.

(** X13: with manual nonces the in-place calls work.  Seal with
    [dst = plaintext[:0]] returns what it returns with no destination,
    the sealed plaintext; and Open with [dst = ciphertext[:0]] on that,
    under the same nonce and additional data, returns the plaintext as it
    was before Seal.  The nonce and the additional data lie outside the
    buffer. *)
Theorem manual_in_place_roundtrip
    (key : list byte) (x : xaes256gcmManual) (h : Mem.heap) (nonce pt ad : Mem.ref) :
  newWithManualNonces key = Ret x ->
  Mem.rlen nonce = NonceSize ->
  Mem.well_formed h nonce -> Mem.well_formed h pt -> Mem.well_formed h ad ->
  Mem.apart nonce pt -> Mem.apart ad pt ->
  exists s h1 ct,
    Mem.xaes256gcmManual_Seal x h (Mem.upto pt 0) nonce pt ad = (Ret s, h1)
    /\ xaes256gcmManual_Seal x nil_slice (Mem.read h nonce) (Mem.read h pt) (Mem.read h ad)
       = Ret ct
    /\ Mem.read h1 s = elems ct
    /\ exists opened,
         Mem.lift (Mem.xaes256gcmManual_Open x h1 (Mem.upto s 0) nonce s ad) = Ret opened
         /\ elems opened = Mem.read h pt.
Proof.
  intros Hx Ln Hn Hp Ha An Aa. constructed Hx. unfold NonceSize in Ln.
  assert (Wd : Mem.well_formed h (Mem.upto pt 0)) by (apply well_formed_upto; [assumption | lia]).
  assert (Ip : Mem.in_place pt (Mem.upto pt 0)) by (split; cbn; lia).
  destruct (Mem_manual_Seal_post key _ h (Mem.upto pt 0) nonce pt ad Hk H1 Wd Hn Hp Ha
              (or_intror Ip) Aa Ln)
    as (s & h1 & E & R & W & X & Fr & Fo).
  pose proof (length_read h nonce Hn) as LN. rewrite Ln in LN.
  rewrite (read_empty h (Mem.upto pt 0) eq_refl) in R. cbn [app] in R.
  exists s, h1. eexists. split; [exact E |].
  rewrite xaes256gcmManual_Seal_24 by assumption.
  split; [reflexivity |]. rewrite elems_appendTo. cbn [elems nil_slice app].
  split; [exact R |].
  destruct (Fr nonce Hn An) as (Rn & _). destruct (Fr ad Ha Aa) as (Ra & Na).
  assert (Wd' : Mem.well_formed h1 (Mem.upto s 0))
    by (apply well_formed_upto; [assumption | lia]).
  assert (Is : Mem.in_place s (Mem.upto s 0)) by (split; cbn; lia).
  assert (Aa' : Mem.apart ad (Mem.upto s 0)).
  { destruct Na as [? | ?]; [now left | right; now right]. }
  rewrite <- Rn, <- Ra in R.
  eexists. split.
  - exact (Mem_manual_Open_sealed key _ h1 (Mem.upto s 0) nonce s ad (Mem.read h pt) Hk H1
             Wd' (well_formed_extends h h1 nonce X Hn) W
             (well_formed_extends h h1 ad X Ha) (or_intror Is) Aa' Ln R).
  - rewrite elems_appendTo. cbn [Mem.view elems].
    now rewrite (read_empty h1 (Mem.upto s 0) eq_refl).
Qed.

End SharedFurther.

(* ===================================================================== *)
(** ** Derived keys of different nonces *)
(* ===================================================================== *)

Lemma byte_xor_cancel_r (a b k : byte) : byte.xor a k = byte.xor b k -> a = b.
Proof.
  intros H. rewrite <- (byte_xor_involutive a k), H. apply byte_xor_involutive.
Qed.

Lemma xor_bytes_cancel_r (a b k : list byte) :
  length a = length b -> length a <= length k ->
  xor_bytes a k = xor_bytes b k -> a = b.
Proof.
  revert b k. induction a as [|x a IH]; intros [|y b] [|z k] Hl Hk H;
    try discriminate; try reflexivity; cbn [length] in *; try lia.
  cbn [xor_bytes] in H. injection H as Hh Ht.
  f_equal; [now apply byte_xor_cancel_r with z|].
  apply IH with k; auto; lia.
Qed.

Section Distinct.
Context {P : Primitives} {Pok : PrimitivesOk P}.

(** X9: when AES under the master key is one-to-one on blocks, as a block
    cipher is, the derived keys of two different 12-byte prefixes differ
    in their first 16 bytes and in their last 16 bytes, and the first
    half of a derived key is never the second half of one, of the same
    prefix or of another. *)
Theorem derived_keys_differ (key : list byte) (x : xaes256gcmManual) (N1 N2 : list byte) :
  (forall a b, length a = 16 -> length b = 16 ->
               aes_encrypt_block key a = aes_encrypt_block key b -> a = b) ->
  newWithManualNonces key = Ret x ->
  length N1 = 12 -> length N2 = 12 ->
  exists ka kb,
    deriveKey x N1 = Ret ka
    /\ deriveKey x N2 = Ret kb
    /\ (N1 <> N2 ->
        firstn 16 (elems ka) <> firstn 16 (elems kb)
        /\ skipn 16 (elems ka) <> skipn 16 (elems kb))
    /\ firstn 16 (elems ka) <> skipn 16 (elems ka)
    /\ firstn 16 (elems ka) <> skipn 16 (elems kb).
Proof.
  intros Hinj Hx L1 L2. constructed Hx.
  set (K1 := double_spec (aes_encrypt_block key (repeat x00 16))) in *.
  rewrite !deriveKey_12 by assumption. eexists _, _.
  split; [reflexivity|]. split; [reflexivity|]. cbn [elems]. unfold DerivedKey_spec.
  assert (B : forall h N, length h = 4 -> length N = 12 ->
              length (xor_bytes (h ++ N) K1) = 16).
  { intros h N Hh HN. rewrite length_xor_bytes, length_app, Hh, HN, H1. reflexivity. }
  assert (A : forall h N, length h = 4 -> length N = 12 ->
              length (aes_encrypt_block key (xor_bytes (h ++ N) K1)) = 16).
  { intros h N Hh HN. apply aes_encrypt_block_length; auto. }
  assert (I : forall h h' N N', length h = 4 -> length h' = 4 ->
              length N = 12 -> length N' = 12 ->
              aes_encrypt_block key (xor_bytes (h ++ N) K1)
              = aes_encrypt_block key (xor_bytes (h' ++ N') K1) ->
              h ++ N = h' ++ N').
  { intros h h' N N' Hh Hh' HN HN' E.
    apply Hinj in E; auto.
    apply xor_bytes_cancel_r with K1; auto; rewrite !length_app; lia. }
  rewrite !firstn_app_exact, !skipn_app_exact by (apply A; auto).
  split; [|split].
  - intros Hne. split; intros E; apply I in E; auto; apply Hne;
      now apply app_inv_head in E.
  - intros E. apply I in E; auto. discriminate E.
  - intros E. apply I in E; auto. discriminate E.
Qed.

End Distinct.

(* ===================================================================== *)
(** ** AES-256 encryption is one-to-one *)
(* ===================================================================== *)

Module AESFacts.
Import FIPS197 FIPS197_Inv.

Local Open Scope Z_scope.

Lemma testbit_unsigned_high (a : byte) (n : Z) : 8 <= n -> Z.testbit (byte.unsigned a) n = false.
Proof.
  intros H. rewrite <- (byte.wrap_unsigned a). unfold byte.wrap.
  apply Z.mod_pow2_bits_high. lia.
Qed.

Lemma unsigned_xor (a b : byte) :
  byte.unsigned (byte.xor a b) = Z.lxor (byte.unsigned a) (byte.unsigned b).
Proof.
  unfold byte.xor. rewrite byte.unsigned_of_Z. unfold byte.wrap.
  apply Z.bits_inj'. intros n Hn.
  destruct (Z.lt_ge_cases n 8) as [Lt|Ge].
  - now rewrite Z.mod_pow2_bits_low by lia.
  - rewrite Z.mod_pow2_bits_high by lia.
    now rewrite Z.lxor_spec, !testbit_unsigned_high by lia.
Qed.

(** Equations between XORs of bytes, decided bit by bit. *)
Ltac xor_bits :=
  apply byte.unsigned_inj; rewrite ?unsigned_xor;
  apply Z.bits_inj'; intros ?n ?Hn; rewrite ?Z.lxor_spec;
  btauto.

Lemma xor_assoc (a b c : byte) : byte.xor a (byte.xor b c) = byte.xor (byte.xor a b) c.
Proof. xor_bits. Qed.

Lemma xor_comm (a b : byte) : byte.xor a b = byte.xor b a.
Proof. xor_bits. Qed.

Lemma xor_self (a : byte) : byte.xor a a = x00.
Proof. destruct a; reflexivity. Qed.

Lemma xor_x00_l (a : byte) : byte.xor x00 a = a.
Proof. destruct a; reflexivity. Qed.


Lemma shr1_xor (a b : byte) : shr (byte.xor a b) 1 = byte.xor (shr a 1) (shr b 1).
Proof.
  apply byte.unsigned_inj. unfold shr. rewrite !unsigned_xor, !byte.unsigned_of_Z.
  unfold byte.wrap.
  apply Z.bits_inj'. intros n Hn.
  destruct (Z.lt_ge_cases n 8) as [Lt|Ge].
  - rewrite Z.lxor_spec, !Z.mod_pow2_bits_low by lia.
    now rewrite Z.shiftr_lxor, Z.lxor_spec.
  - rewrite Z.lxor_spec, !Z.mod_pow2_bits_high by lia. reflexivity.
Qed.

Lemma gmul_loop_linear (n : nat) (k a b acc1 acc2 : byte) :
  FIPS197.gmul_loop n k (byte.xor a b) (byte.xor acc1 acc2)
  = byte.xor (FIPS197.gmul_loop n k a acc1) (FIPS197.gmul_loop n k b acc2).
Proof.
  revert k a b acc1 acc2. induction n as [|n IH]; intros k a b acc1 acc2; [reflexivity|].
  cbn [FIPS197.gmul_loop]. rewrite shr1_xor, unsigned_xor, Z.lxor_spec.
  destruct (Z.testbit (byte.unsigned a) 0), (Z.testbit (byte.unsigned b) 0);
    cbn [xorb]; rewrite <- IH; f_equal; xor_bits.
Qed.

Lemma gmul_linear (k a b : byte) :
  FIPS197.gmul k (byte.xor a b) = byte.xor (FIPS197.gmul k a) (FIPS197.gmul k b).
Proof.
  unfold FIPS197.gmul. rewrite <- gmul_loop_linear. f_equal.
Qed.

Local Close Scope Z_scope.

Lemma inv_sbox_sbox (a : byte) : inv_sbox (sbox a) = a.
Proof. destruct a; vm_compute; reflexivity. Qed.


Lemma unmix_0 (a : byte) :
  byte.xor (gmul x0e (gmul x02 a))
    (byte.xor (gmul x0b a) (byte.xor (gmul x0d a) (gmul x09 (gmul x03 a)))) = a.
Proof. destruct a; vm_compute; reflexivity. Qed.


Lemma unmix_1 (a : byte) :
  byte.xor (gmul x0e (gmul x03 a))
    (byte.xor (gmul x0b (gmul x02 a)) (byte.xor (gmul x0d a) (gmul x09 a))) = x00.
Proof. destruct a; vm_compute; reflexivity. Qed.

Lemma unmix_2 (a : byte) :
  byte.xor (gmul x0e a)
    (byte.xor (gmul x0b (gmul x03 a)) (byte.xor (gmul x0d (gmul x02 a)) (gmul x09 a))) = x00.
Proof. destruct a; vm_compute; reflexivity. Qed.

Lemma unmix_3 (a : byte) :
  byte.xor (gmul x0e a)
    (byte.xor (gmul x0b a) (byte.xor (gmul x0d (gmul x03 a)) (gmul x09 (gmul x02 a)))) = x00.
Proof. destruct a; vm_compute; reflexivity. Qed.

Lemma xor_transpose (a0 a1 a2 a3 b0 b1 b2 b3 c0 c1 c2 c3 d0 d1 d2 d3 : byte) :
  byte.xor (byte.xor a0 (byte.xor b1 (byte.xor c2 d3)))
    (byte.xor (byte.xor b0 (byte.xor c1 (byte.xor d2 a3)))
       (byte.xor (byte.xor c0 (byte.xor d1 (byte.xor a2 b3)))
          (byte.xor d0 (byte.xor a1 (byte.xor b2 c3)))))
  = byte.xor (byte.xor a0 (byte.xor a3 (byte.xor a2 a1)))
      (byte.xor (byte.xor b1 (byte.xor b0 (byte.xor b3 b2)))
         (byte.xor (byte.xor c2 (byte.xor c1 (byte.xor c0 c3)))
            (byte.xor d3 (byte.xor d2 (byte.xor d1 d0))))).
Proof. xor_bits. Qed.

(** One byte of [InvMixColumns] after [MixColumns]. *)
Lemma unmix_row (a b c d : byte) :
  byte.xor
    (gmul x0e (byte.xor (gmul x02 a) (byte.xor (gmul x03 b) (byte.xor c d))))
    (byte.xor
       (gmul x0b (byte.xor (gmul x02 b) (byte.xor (gmul x03 c) (byte.xor d a))))
       (byte.xor
          (gmul x0d (byte.xor (gmul x02 c) (byte.xor (gmul x03 d) (byte.xor a b))))
          (gmul x09 (byte.xor (gmul x02 d) (byte.xor (gmul x03 a) (byte.xor b c))))))
  = a.
Proof.
  rewrite !gmul_linear, xor_transpose, unmix_0, unmix_1, unmix_2, unmix_3.
  change (byte.xor x00 (byte.xor x00 x00)) with x00. apply xor_x00_r.
Qed.

(** A list of 16 bytes, written out. *)
Ltac explode16 st H :=
  do 16 (destruct st as [|? st]; [discriminate H|]);
  destruct st; [clear H | discriminate H].

Ltac run16 :=
  cbv [AddRoundKey SubBytes ShiftRows MixColumns
       InvSubBytes InvShiftRows InvMixColumns
       build16 at16 map seq nth
       Nat.modulo Nat.div Nat.divmod Nat.add Nat.mul Nat.sub fst snd].

Lemma InvSubBytes_SubBytes (st : list byte) :
  length st = 16 -> InvSubBytes (SubBytes st) = st.
Proof. intros H. explode16 st H. run16. now rewrite !inv_sbox_sbox. Qed.

Lemma InvShiftRows_ShiftRows (st : list byte) :
  length st = 16 -> InvShiftRows (ShiftRows st) = st.
Proof. intros H. explode16 st H. reflexivity. Qed.

Lemma InvMixColumns_MixColumns (st : list byte) :
  length st = 16 -> InvMixColumns (MixColumns st) = st.
Proof. intros H. explode16 st H. run16. now rewrite !unmix_row. Qed.

Lemma AddRoundKey_twice (st rk : list byte) :
  length st = 16 -> AddRoundKey (AddRoundKey st rk) rk = st.
Proof. intros H. explode16 st H. run16. now rewrite !byte_xor_involutive. Qed.

Lemma build16_length (f : nat -> byte) : length (build16 f) = 16.
Proof. unfold build16. now rewrite length_map, length_seq. Qed.

Lemma undo_round_round (w : list word) (r : nat) (st : list byte) :
  length st = 16 ->
  undo_round w r (AddRoundKey (MixColumns (ShiftRows (SubBytes st))) (round_key w r)) = st.
Proof.
  intros H. unfold undo_round.
  rewrite AddRoundKey_twice by apply build16_length.
  rewrite InvMixColumns_MixColumns by apply build16_length.
  rewrite InvShiftRows_ShiftRows by apply build16_length.
  now apply InvSubBytes_SubBytes.
Qed.

Lemma inv_rounds_rounds (n r : nat) (w : list word) (st : list byte) :
  length st = 16 -> inv_rounds n r w (rounds n r w st) = st.
Proof.
  revert r st. induction n as [|n IH]; intros r st H; [reflexivity|].
  cbn [rounds inv_rounds]. rewrite IH by apply build16_length.
  now apply undo_round_round.
Qed.

Lemma rounds_length (n r : nat) (w : list word) (st : list byte) :
  length st = 16 -> length (rounds n r w st) = 16.
Proof.
  revert r st. induction n as [|n IH]; intros r st H; [exact H|].
  cbn [rounds]. apply IH, build16_length.
Qed.

(** AES-256 decryption undoes encryption, under every key. *)
Lemma InvCipher_Cipher (key block : list byte) :
  length block = 16 -> InvCipher key (Cipher key block) = block.
Proof.
  intros H. unfold InvCipher, Cipher.
  rewrite AddRoundKey_twice by apply build16_length.
  rewrite InvShiftRows_ShiftRows by apply build16_length.
  rewrite InvSubBytes_SubBytes by (apply rounds_length, build16_length).
  rewrite inv_rounds_rounds by apply build16_length.
  now apply AddRoundKey_twice.
Qed.

Lemma Cipher_injective (key a b : list byte) :
  length a = 16 -> length b = 16 -> Cipher key a = Cipher key b -> a = b.
Proof.
  intros Ha Hb E. rewrite <- (InvCipher_Cipher key a Ha), E.
  now apply InvCipher_Cipher.
Qed.

End AESFacts.

(* ===================================================================== *)
(** ** [deriveKey] away from 12-byte prefixes *)
(* ===================================================================== *)

Lemma len_append (s : slice) (bs : list byte) : len (append s bs) = len s + length bs.
Proof.
  unfold append, len. destruct (_ <=? _); cbn [elems]; apply length_app.
Qed.

Lemma cap_append_fits (s : slice) (bs : list byte) :
  len s + length bs <= cap s -> cap (append s bs) = cap s.
Proof.
  unfold append, len, cap. intros H.
  replace (length bs <=? length (spare s)) with true
    by (symmetry; apply Nat.leb_le; lia).
  cbn [elems spare]. rewrite length_app, length_skipn. lia.
Qed.

Lemma sub_prefix_ok (s : slice) (hi : nat) :
  hi <= cap s -> exists lo, sub s 0 hi = Ret lo /\ length lo = hi.
Proof.
  intros H. unfold sub. cbn [Nat.leb andb].
  replace (hi <=? cap s) with true by (symmetry; now apply Nat.leb_le).
  eexists. split; [reflexivity|].
  rewrite length_firstn, Nat.sub_0_r. cbn [skipn].
  unfold cap, mem in *. rewrite length_app. lia.
Qed.

Lemma sub_from_ok (s : slice) (lo : nat) :
  lo <= len s -> exists hi, sub_from s lo = Ret hi /\ length hi = len s - lo.
Proof.
  intros H. unfold sub_from. apply Nat.leb_le in H. rewrite H.
  eexists. split; [reflexivity|]. apply length_skipn.
Qed.

Lemma sub_from_panics (s : slice) (lo : nat) :
  len s < lo -> sub_from s lo = Panic "slice bounds out of range".
Proof.
  intros H. unfold sub_from.
  now replace (lo <=? len s) with false by (symmetry; apply Nat.leb_gt; lia).
Qed.

Lemma store_shape (s : slice) (off : nat) (w : list byte) :
  off + length w <= cap s ->
  len (store s off w) = len s /\ cap (store s off w) = cap s.
Proof.
  intros H. unfold store, len, cap, mem in *. cbn [elems spare].
  rewrite length_firstn, length_skipn, !length_app, length_firstn, length_skipn,
    length_app.
  lia.
Qed.

Section DeriveKeyBounds.
Context {P : Primitives} {Pok : PrimitivesOk P}.

Lemma subtle_XORBytes_self_ok (d y : list byte) :
  exists r, subtle_XORBytes d d y = Ret r /\ length r = length d.
Proof.
  unfold subtle_XORBytes.
  replace (length d <? Nat.min (length d) (length y)) with false
    by (symmetry; apply Nat.ltb_ge; lia).
  eexists. split; [reflexivity|].
  rewrite length_app, length_xor_bytes, !length_firstn, length_skipn. lia.
Qed.

Lemma Block_Encrypt_self_ok (key d : list byte) :
  length key = 32 -> 16 <= length d ->
  exists r, Block_Encrypt (Some (mkBlock key)) d d = Ret r /\ length r = length d.
Proof.
  intros Hk Hd. unfold Block_Encrypt, aes_BlockSize.
  replace (length d <? 16) with false by (symmetry; apply Nat.ltb_ge; lia).
  eexists. split; [reflexivity|]. cbn [blk_key].
  rewrite length_app, length_skipn, aes_encrypt_block_length; auto; [lia|].
  rewrite length_firstn. lia.
Qed.

Lemma Block_Encrypt_short (key d : list byte) :
  length d < 16 ->
  Block_Encrypt (Some (mkBlock key)) d d = Panic "crypto/aes: input not full block".
Proof.
  intros Hd. unfold Block_Encrypt, aes_BlockSize.
  now replace (length d <? 16) with true by (symmetry; apply Nat.ltb_lt; lia).
Qed.

Lemma len_le_cap (s : slice) : len s <= cap s.
Proof. unfold len, cap. lia. Qed.

(** X10: [deriveKey] needs its 12 bytes.  On a shorter prefix it panics:
    below 4 bytes when it slices [k[aes.BlockSize:]], from 4 to 11 bytes
    when the second [Encrypt] gets less than a block.  From 12 bytes on it
    returns [8 + 2 * len(nonce)] bytes, which is the 32 bytes of an
    AES-256 key for a 12-byte prefix only. *)
Theorem deriveKey_prefix_bounds (key : list byte) (x : xaes256gcmManual) (N : list byte) :
  newWithManualNonces key = Ret x ->
  (length N < 12 ->
     deriveKey x N
     = Panic (if length N <? 4 then "slice bounds out of range"
              else "crypto/aes: input not full block"))
  /\ (12 <= length N ->
        exists k, deriveKey x N = Ret k /\ len k = 8 + 2 * length N).
Proof.
  intros Hx. constructed Hx.
  set (K1 := double_spec (aes_encrypt_block key (repeat x00 16))) in *.
  unfold deriveKey. cbn [c k1].
  change (make 0 (2 * aes_BlockSize)) with (Ret (mkSlice [] (repeat x00 32))).
  cbn [bind]. unfold aes_BlockSize.
  set (k0 := mkSlice [] (repeat x00 32)).
  set (k1' := append k0 [x00; x01; x58; x00]).
  set (k2 := append k1' N).
  set (k3 := append k2 [x00; x02; x58; x00]).
  set (k4 := append k3 N).
  assert (L4 : len k4 = 8 + 2 * length N).
  { unfold k4, k3, k2, k1'. rewrite !len_append. change (len k0) with 0.
    cbn [length]. lia. }
  assert (C4 : length N <= 12 -> cap k4 = 32).
  { intros Hn.
    assert (C1 : cap k1' = 32) by reflexivity.
    assert (L1 : len k1' = 4) by reflexivity.
    assert (C2 : cap k2 = 32) by (unfold k2; rewrite cap_append_fits; lia).
    assert (L2 : len k2 = 4 + length N) by (unfold k2; rewrite len_append; lia).
    assert (C3 : cap k3 = 32)
      by (unfold k3; rewrite cap_append_fits; cbn [length]; lia).
    assert (L3 : len k3 = 8 + length N)
      by (unfold k3; rewrite len_append; cbn [length]; lia).
    unfold k4. rewrite cap_append_fits; lia. }
  assert (C4' : 16 <= cap k4).
  { destruct (Nat.le_gt_cases (length N) 12) as [Hn|Hn].
    - rewrite C4; lia.
    - pose proof (len_le_cap k4). lia. }
  clearbody k4. clear k0 k1' k2 k3.
  destruct (sub_prefix_ok k4 16) as (lo & -> & Llo); [lia|]. cbn [bind].
  destruct (subtle_XORBytes_self_ok lo K1) as (r1 & -> & Lr1). cbn [bind].
  destruct (store_shape k4 0 r1) as (L5 & C5); [lia|].
  set (k5 := store k4 0 r1) in *. clearbody k5.
  assert (Later : 4 <= length N ->
    exists k7 hi2,
      (hi <- sub_from k5 16 ;;
       r <- subtle_XORBytes hi hi K1 ;;
       lo0 <- sub (store k5 16 r) 0 16 ;;
       r0 <- Block_Encrypt (Some (mkBlock key)) lo0 lo0 ;;
       hi0 <- sub_from (store (store k5 16 r) 0 r0) 16 ;;
       r2 <- Block_Encrypt (Some (mkBlock key)) hi0 hi0 ;;
       Ret (store (store (store k5 16 r) 0 r0) 16 r2))
      = (r2 <- Block_Encrypt (Some (mkBlock key)) hi2 hi2 ;; Ret (store k7 16 r2))
      /\ len k7 = len k4 /\ cap k7 = cap k4 /\ length hi2 = len k4 - 16).
  { intros Hn4.
    destruct (sub_from_ok k5 16) as (hi & -> & Lhi); [lia|]. cbn [bind].
    destruct (subtle_XORBytes_self_ok hi K1) as (r2 & -> & Lr2). cbn [bind].
    pose proof (len_le_cap k5) as LC5.
    destruct (store_shape k5 16 r2) as (L6 & C6); [lia|].
    set (k6 := store k5 16 r2) in *. clearbody k6.
    destruct (sub_prefix_ok k6 16) as (lo2 & -> & Llo2); [lia|]. cbn [bind].
    destruct (Block_Encrypt_self_ok key lo2 Hk) as (r3 & -> & Lr3); [lia|]. cbn [bind].
    destruct (store_shape k6 0 r3) as (L7 & C7); [lia|].
    set (k7 := store k6 0 r3) in *. clearbody k7.
    destruct (sub_from_ok k7 16) as (hi2 & -> & Lhi2); [lia|]. cbn [bind].
    exists k7, hi2. split; [reflexivity|]. lia. }
  split.
  - intros Hn. destruct (length N <? 4) eqn:Short.
    + apply Nat.ltb_lt in Short. rewrite sub_from_panics by lia. reflexivity.
    + apply Nat.ltb_ge in Short.
      destruct (Later Short) as (k7 & hi2 & -> & L7 & C7 & Lhi2).
      rewrite Block_Encrypt_short by lia. reflexivity.
  - intros Hn. destruct Later as (k7 & hi2 & -> & L7 & C7 & Lhi2); [lia|].
    destruct (Block_Encrypt_self_ok key hi2 Hk) as (r4 & -> & Lr4); [lia|]. cbn [bind].
    eexists. split; [reflexivity|].
    pose proof (len_le_cap k7) as LC7.
    destruct (store_shape k7 16 r4) as (L8 & _); lia.
Qed.

End DeriveKeyBounds.

(* ===================================================================== *)
(** ** The further properties on the test vector *)
(* ===================================================================== *)

Lemma Std_open_short (k n c0 a : list byte) :
  length c0 < 16 -> gcm_open (Primitives := Std) k n c0 a = None.
Proof.
  intros H. cbn [gcm_open Std]. unfold SP800_38D.open.
  apply Nat.ltb_lt in H. now rewrite H.
Qed.

Lemma Std_open_length (k n c0 a p : list byte) :
  gcm_open (Primitives := Std) k n c0 a = Some p -> length c0 = length p + 16.
Proof.
  cbn [gcm_open Std]. unfold SP800_38D.open.
  destruct (Nat.ltb_spec (length c0) 16) as [? | Hl]; [discriminate |].
  destruct (SP800_38D.bytes_eqb _ _); [| discriminate].
  intros H. inversion H; subst p. rewrite GCTR_length, length_firstn. lia.
Qed.

Lemma manual_seal_appends_overhead_witness :
  newWithManualNonces (P := Std) kat_key = Ret kat_manual
  /\ length kat_nonce = xaes256gcmManual_NonceSize kat_manual
  /\ exists s s0,
       xaes256gcmManual_Seal (P := Std) kat_manual roomy_dst kat_nonce kat_plaintext [] = Ret s
       /\ xaes256gcmManual_Seal (P := Std) kat_manual nil_slice kat_nonce kat_plaintext []
          = Ret s0
       /\ elems s = elems roomy_dst ++ elems s0
       /\ len s0 = length kat_plaintext + xaes256gcmManual_Overhead kat_manual.
Proof.
  assert (Hx : newWithManualNonces (P := Std) kat_key = Ret kat_manual)
    by (vm_compute; reflexivity).
  assert (Hn : length kat_nonce = xaes256gcmManual_NonceSize kat_manual) by reflexivity.
  exact (conj Hx (conj Hn
    (manual_seal_appends_overhead (Pok := StdOk) kat_key kat_manual roomy_dst kat_nonce
       kat_plaintext [] Hx Hn))).
Defined.

Lemma sealed_is_gcm_under_derived_key_witness :
  newWithManualNonces (P := Std) kat_key = Ret kat_manual
  /\ length kat_nonce = NonceSize
  /\ exists k a s g o1 o2,
       deriveKey (P := Std) kat_manual (firstn 12 kat_nonce) = Ret k
       /\ cipher_NewGCM (fst (aes_NewCipher (elems k))) = Ret (Some a, None)
       /\ xaes256gcmManual_Seal (P := Std) kat_manual nil_slice kat_nonce kat_plaintext []
          = Ret s
       /\ AEAD_Open (P := Std) (Some a) tight_dst (skipn 12 kat_nonce) (elems s) [] = Ret o1
       /\ elems o1 = elems tight_dst ++ kat_plaintext
       /\ AEAD_Seal (P := Std) (Some a) nil_slice (skipn 12 kat_nonce) kat_plaintext []
          = Ret g
       /\ xaes256gcmManual_Open (P := Std) kat_manual tight_dst kat_nonce (elems g) []
          = Ret o2
       /\ elems o2 = elems tight_dst ++ kat_plaintext.
Proof.
  assert (Hx : newWithManualNonces (P := Std) kat_key = Ret kat_manual)
    by (vm_compute; reflexivity).
  assert (Hn : length kat_nonce = NonceSize) by reflexivity.
  exact (conj Hx (conj Hn
    (sealed_is_gcm_under_derived_key (Pok := StdOk) kat_key kat_manual tight_dst kat_nonce
       kat_plaintext [] Hx Hn))).
Defined.

Lemma auto_open_rejects_short_input_witness :
  (forall k n c0 a, length c0 < 16 -> gcm_open (Primitives := Std) k n c0 a = None)
  /\ New (P := Std) kat_key = Ret kat_auto
  /\ length (firstn 10 kat_nonce) < xaes256gcm_Overhead kat_auto
  /\ length (kat_nonce ++ firstn 15 kat_ciphertext) < xaes256gcm_Overhead kat_auto
  /\ xaes256gcm_Open (P := Std) kat_auto nil_slice [] (firstn 10 kat_nonce) [] = Err errOpen
  /\ xaes256gcm_Open (P := Std) kat_auto nil_slice []
       (kat_nonce ++ firstn 15 kat_ciphertext) [] = Err cipher_errOpen
  /\ errOpen <> cipher_errOpen.
Proof.
  assert (Hx : New (P := Std) kat_key = Ret kat_auto) by (vm_compute; reflexivity).
  assert (H10 : length (firstn 10 kat_nonce) < xaes256gcm_Overhead kat_auto)
    by (vm_compute; lia).
  assert (H39 : length (kat_nonce ++ firstn 15 kat_ciphertext) < xaes256gcm_Overhead kat_auto)
    by (vm_compute; lia).
  assert (S10 : length (firstn 10 kat_nonce) < NonceSize) by (vm_compute; lia).
  assert (S39 : NonceSize <= length (kat_nonce ++ firstn 15 kat_ciphertext))
    by (vm_compute; lia).
  exact (conj Std_open_short (conj Hx (conj H10 (conj H39
    (conj (proj1 (auto_open_rejects_short_input (Pok := StdOk) kat_key kat_auto nil_slice
                    (firstn 10 kat_nonce) [] Std_open_short Hx H10) S10)
    (conj (proj1 (proj2 (auto_open_rejects_short_input (Pok := StdOk) kat_key kat_auto
                           nil_slice (kat_nonce ++ firstn 15 kat_ciphertext) []
                           Std_open_short Hx H39)) S39)
          (proj2 (proj2 (auto_open_rejects_short_input (Pok := StdOk) kat_key kat_auto
                           nil_slice (firstn 10 kat_nonce) [] Std_open_short Hx H10))))))))).
Defined.

Lemma auto_seal_consumes_its_nonce_witness :
  New (P := Std) kat_key = Ret kat_auto
  /\ xaes256gcm_Seal (P := Std) kat_auto (kat_nonce ++ [x07]) tight_dst [] kat_plaintext []
     = (Ret (mkSlice (elems tight_dst ++ kat_nonce ++ kat_ciphertext) []), [x07])
  /\ xaes256gcm_Seal (P := Std) kat_auto kat_nonce2 tight_dst [] kat_plaintext []
     = (Ret kat_sealed2, [])
  /\ firstn NonceSize (kat_nonce ++ [x07]) <> firstn NonceSize kat_nonce2
  /\ (kat_nonce ++ [x07]
      = firstn NonceSize
          (skipn (len tight_dst) (elems tight_dst ++ kat_nonce ++ kat_ciphertext)) ++ [x07]
      /\ NonceSize <= length (kat_nonce ++ [x07]))
  /\ elems tight_dst ++ kat_nonce ++ kat_ciphertext <> elems kat_sealed2.
Proof.
  assert (Hx : New (P := Std) kat_key = Ret kat_auto) by (vm_compute; reflexivity).
  assert (H1 : xaes256gcm_Seal (P := Std) kat_auto (kat_nonce ++ [x07]) tight_dst []
                 kat_plaintext []
               = (Ret (mkSlice (elems tight_dst ++ kat_nonce ++ kat_ciphertext) []), [x07]))
    by (vm_compute; reflexivity).
  assert (H2 : xaes256gcm_Seal (P := Std) kat_auto kat_nonce2 tight_dst [] kat_plaintext []
               = (Ret kat_sealed2, [])) by (vm_compute; reflexivity).
  assert (Hd : firstn NonceSize (kat_nonce ++ [x07]) <> firstn NonceSize kat_nonce2)
    by (vm_compute; discriminate).
  exact (conj Hx (conj H1 (conj H2 (conj Hd
    (conj (proj1 (auto_seal_consumes_its_nonce (Pok := StdOk) kat_key kat_auto
                    (kat_nonce ++ [x07]) kat_nonce2 tight_dst [] kat_plaintext [] Hx)
             _ _ H1)
          (proj2 (auto_seal_consumes_its_nonce (Pok := StdOk) kat_key kat_auto
                    (kat_nonce ++ [x07]) kat_nonce2 tight_dst [] kat_plaintext [] Hx)
             _ _ _ _ H1 H2 Hd)))))).
Defined.

Lemma auto_seal_capacity_witness :
  New (P := Std) kat_key = Ret kat_auto
  /\ xaes256gcm_Seal (P := Std) kat_auto kat_nonce roomy_dst [] kat_plaintext []
     = (Ret (mkSlice (elems roomy_dst ++ kat_nonce ++ kat_ciphertext) (repeat x00 12)), [])
  /\ xaes256gcm_Seal (P := Std) kat_auto kat_nonce tight_dst [] kat_plaintext []
     = (Ret (mkSlice (elems tight_dst ++ kat_nonce ++ kat_ciphertext) []), [])
  /\ (len (mkSlice (elems roomy_dst ++ kat_nonce ++ kat_ciphertext) (repeat x00 12))
      = len roomy_dst + length kat_plaintext + Overhead
      /\ cap (mkSlice (elems roomy_dst ++ kat_nonce ++ kat_ciphertext) (repeat x00 12))
         = Nat.max (cap roomy_dst) (len roomy_dst + length kat_plaintext + Overhead)
      /\ (len roomy_dst + length kat_plaintext + Overhead <= cap roomy_dst ->
          spare (mkSlice (elems roomy_dst ++ kat_nonce ++ kat_ciphertext) (repeat x00 12))
          = skipn (length kat_plaintext + Overhead) (spare roomy_dst)))
  /\ (len (mkSlice (elems tight_dst ++ kat_nonce ++ kat_ciphertext) [])
      = len tight_dst + length kat_plaintext + Overhead
      /\ cap (mkSlice (elems tight_dst ++ kat_nonce ++ kat_ciphertext) [])
         = Nat.max (cap tight_dst) (len tight_dst + length kat_plaintext + Overhead)
      /\ (len tight_dst + length kat_plaintext + Overhead <= cap tight_dst ->
          spare (mkSlice (elems tight_dst ++ kat_nonce ++ kat_ciphertext) [])
          = skipn (length kat_plaintext + Overhead) (spare tight_dst))).
Proof.
  assert (Hx : New (P := Std) kat_key = Ret kat_auto) by (vm_compute; reflexivity).
  assert (Hy : xaes256gcm_Seal (P := Std) kat_auto kat_nonce roomy_dst [] kat_plaintext []
               = (Ret (mkSlice (elems roomy_dst ++ kat_nonce ++ kat_ciphertext)
                         (repeat x00 12)), []))
    by (vm_compute; reflexivity).
  assert (Ht : xaes256gcm_Seal (P := Std) kat_auto kat_nonce tight_dst [] kat_plaintext []
               = (Ret (mkSlice (elems tight_dst ++ kat_nonce ++ kat_ciphertext) []), []))
    by (vm_compute; reflexivity).
  exact (conj Hx (conj Hy (conj Ht
    (conj (auto_seal_capacity (Pok := StdOk) kat_key kat_auto kat_nonce [] roomy_dst _
             kat_plaintext [] Hx Hy)
          (auto_seal_capacity (Pok := StdOk) kat_key kat_auto kat_nonce [] tight_dst _
             kat_plaintext [] Hx Ht))))).
Defined.

Lemma derived_keys_differ_witness :
  (forall a b, length a = 16 -> length b = 16 ->
               FIPS197.Cipher kat_key a = FIPS197.Cipher kat_key b -> a = b)
  /\ newWithManualNonces (P := Std) kat_key = Ret kat_manual
  /\ length (firstn 12 kat_nonce) = 12
  /\ length (skipn 12 kat_nonce) = 12
  /\ exists ka kb,
       deriveKey (P := Std) kat_manual (firstn 12 kat_nonce) = Ret ka
       /\ deriveKey (P := Std) kat_manual (skipn 12 kat_nonce) = Ret kb
       /\ (firstn 12 kat_nonce <> skipn 12 kat_nonce ->
           firstn 16 (elems ka) <> firstn 16 (elems kb)
           /\ skipn 16 (elems ka) <> skipn 16 (elems kb))
       /\ firstn 16 (elems ka) <> skipn 16 (elems ka)
       /\ firstn 16 (elems ka) <> skipn 16 (elems kb).
Proof.
  assert (Hx : newWithManualNonces (P := Std) kat_key = Ret kat_manual)
    by (vm_compute; reflexivity).
  assert (L1 : length (firstn 12 kat_nonce) = 12) by reflexivity.
  assert (L2 : length (skipn 12 kat_nonce) = 12) by reflexivity.
  exact (conj (AESFacts.Cipher_injective kat_key) (conj Hx (conj L1 (conj L2
    (derived_keys_differ (Pok := StdOk) kat_key kat_manual (firstn 12 kat_nonce)
       (skipn 12 kat_nonce) (AESFacts.Cipher_injective kat_key) Hx L1 L2))))).
Defined.

Lemma deriveKey_prefix_bounds_witness :
  newWithManualNonces (P := Std) kat_key = Ret kat_manual
  /\ length (firstn 2 kat_nonce) < 12
  /\ length (firstn 8 kat_nonce) < 12
  /\ 12 <= length (firstn 14 kat_nonce)
  /\ deriveKey (P := Std) kat_manual (firstn 2 kat_nonce)
     = Panic (if length (firstn 2 kat_nonce) <? 4 then "slice bounds out of range"
              else "crypto/aes: input not full block")
  /\ deriveKey (P := Std) kat_manual (firstn 8 kat_nonce)
     = Panic (if length (firstn 8 kat_nonce) <? 4 then "slice bounds out of range"
              else "crypto/aes: input not full block")
  /\ exists k, deriveKey (P := Std) kat_manual (firstn 14 kat_nonce) = Ret k
               /\ len k = 8 + 2 * length (firstn 14 kat_nonce).
Proof.
  assert (Hx : newWithManualNonces (P := Std) kat_key = Ret kat_manual)
    by (vm_compute; reflexivity).
  assert (H2 : length (firstn 2 kat_nonce) < 12) by (vm_compute; lia).
  assert (H8 : length (firstn 8 kat_nonce) < 12) by (vm_compute; lia).
  assert (H14 : 12 <= length (firstn 14 kat_nonce)) by (vm_compute; lia).
  exact (conj Hx (conj H2 (conj H8 (conj H14
    (conj (proj1 (deriveKey_prefix_bounds (Pok := StdOk) kat_key kat_manual
                    (firstn 2 kat_nonce) Hx) H2)
    (conj (proj1 (deriveKey_prefix_bounds (Pok := StdOk) kat_key kat_manual
                    (firstn 8 kat_nonce) Hx) H8)
          (proj2 (deriveKey_prefix_bounds (Pok := StdOk) kat_key kat_manual
                    (firstn 14 kat_nonce) Hx) H14))))))).
Defined.

(** Facts about concrete storage, by evaluation. *)
Ltac storage := vm_compute; lia.

(** Automatic Open is not for in-place use: with [dst = ciphertext[:0]]
    the plaintext would go where the nonce and the start of the GCM input
    lie, and for a plaintext of more than 24 bytes GCM refuses the
    overlap.  With no destination the same message opens. *)
Example auto_open_in_place_panics :
  Mem.lift (Mem.xaes256gcm_Open (P := Std) kat_auto long_sealed_heap
              (Mem.upto long_sealed_ref 0) Mem.nil_ref long_sealed_ref Mem.nil_ref)
  = Panic "crypto/cipher: invalid buffer overlap"
  /\ Mem.lift (Mem.xaes256gcm_Open (P := Std) kat_auto long_sealed_heap
                 Mem.nil_ref Mem.nil_ref long_sealed_ref Mem.nil_ref)
     = Ret (mkSlice (repeat x61 30) []).
Proof. split; vm_compute; reflexivity. Qed.

Lemma auto_open_seal_roundtrip_witness :
  New (P := Std) kat_key = Ret kat_auto
  /\ NonceSize <= length kat_nonce
  /\ Mem.well_formed apart_heap apart_tight
  /\ Mem.well_formed apart_heap apart_plaintext
  /\ Mem.well_formed apart_heap apart_ad
  /\ Mem.well_formed apart_heap apart_roomy
  /\ Mem.apart apart_plaintext apart_tight
  /\ Mem.apart apart_ad apart_tight
  /\ (Mem.rcap apart_roomy = 0 \/ Mem.arr apart_roomy <> Mem.arr apart_tight)
  /\ Mem.apart apart_ad apart_roomy
  /\ exists s h1 rng',
       Mem.xaes256gcm_Seal (P := Std) kat_auto kat_nonce apart_heap apart_tight Mem.nil_ref
         apart_plaintext apart_ad = ((Ret s, h1), rng')
       /\ Mem.lift (Mem.xaes256gcm_Open (P := Std) kat_auto h1 apart_roomy Mem.nil_ref
                      (Mem.from s (Mem.rlen apart_tight)) apart_ad)
          = Ret (appendTo (Mem.view apart_heap apart_roomy)
                   (Mem.read apart_heap apart_plaintext)).
Proof.
  assert (Hx : New (P := Std) kat_key = Ret kat_auto) by (vm_compute; reflexivity).
  assert (Hr : NonceSize <= length kat_nonce) by storage.
  assert (W1 : Mem.well_formed apart_heap apart_tight) by storage.
  assert (W2 : Mem.well_formed apart_heap apart_plaintext) by storage.
  assert (W3 : Mem.well_formed apart_heap apart_ad) by storage.
  assert (W4 : Mem.well_formed apart_heap apart_roomy) by storage.
  assert (A1 : Mem.apart apart_plaintext apart_tight) by storage.
  assert (A2 : Mem.apart apart_ad apart_tight) by storage.
  assert (A3 : Mem.rcap apart_roomy = 0 \/ Mem.arr apart_roomy <> Mem.arr apart_tight)
    by storage.
  assert (A4 : Mem.apart apart_ad apart_roomy) by storage.
  exact (conj Hx (conj Hr (conj W1 (conj W2 (conj W3 (conj W4 (conj A1 (conj A2 (conj A3
    (conj A4
       (auto_open_seal_roundtrip (Pok := StdOk) kat_key kat_auto kat_nonce apart_heap
          apart_tight apart_plaintext apart_ad apart_roomy
          Hx Hr W1 W2 W3 W4 A1 A2 A3 A4))))))))))).
Defined.

Lemma manual_and_auto_interoperate_witness :
  NewWithManualNonces (P := Std) kat_key = Ret (AEAD_manual (Some kat_manual), None)
  /\ New (P := Std) kat_key = Ret kat_auto
  /\ Mem.well_formed apart_heap apart_tight
  /\ Mem.well_formed apart_heap apart_nonce
  /\ Mem.well_formed apart_heap apart_plaintext
  /\ Mem.well_formed apart_heap apart_ad
  /\ Mem.well_formed apart_heap apart_roomy
  /\ Mem.apart apart_ad apart_roomy
  /\ Mem.rlen apart_nonce = NonceSize
  /\ Mem.apart apart_plaintext apart_nonce
  /\ Mem.apart apart_ad apart_nonce
  /\ (Mem.rcap apart_roomy = 0 \/ Mem.arr apart_roomy <> Mem.arr apart_nonce)
  /\ NonceSize <= length kat_nonce2
  /\ Mem.apart apart_plaintext apart_tight
  /\ Mem.apart apart_ad apart_tight
  /\ (Mem.rcap apart_roomy = 0 \/ Mem.arr apart_roomy <> Mem.arr apart_tight)
  /\ (exists s h1,
        Mem.xaes256gcmManual_Seal (P := Std) kat_manual apart_heap apart_nonce apart_nonce
          apart_plaintext apart_ad = (Ret s, h1)
        /\ Mem.lift (Mem.xaes256gcm_Open (P := Std) kat_auto h1 apart_roomy Mem.nil_ref s
                       apart_ad)
           = Ret (appendTo (Mem.view apart_heap apart_roomy)
                    (Mem.read apart_heap apart_plaintext)))
  /\ (exists s h1 rng',
        Mem.xaes256gcm_Seal (P := Std) kat_auto kat_nonce2 apart_heap apart_tight Mem.nil_ref
          apart_plaintext apart_ad = ((Ret s, h1), rng')
        /\ Mem.lift (Mem.xaes256gcmManual_Open (P := Std) kat_manual h1 apart_roomy
                       (Mem.upto (Mem.from s (Mem.rlen apart_tight)) NonceSize)
                       (Mem.from s (Mem.rlen apart_tight + NonceSize)) apart_ad)
           = Ret (appendTo (Mem.view apart_heap apart_roomy)
                    (Mem.read apart_heap apart_plaintext))).
Proof.
  assert (Hm : NewWithManualNonces (P := Std) kat_key
               = Ret (AEAD_manual (Some kat_manual), None)) by (vm_compute; reflexivity).
  assert (Hx : New (P := Std) kat_key = Ret kat_auto) by (vm_compute; reflexivity).
  assert (W1 : Mem.well_formed apart_heap apart_tight) by storage.
  assert (W2 : Mem.well_formed apart_heap apart_nonce) by storage.
  assert (W3 : Mem.well_formed apart_heap apart_plaintext) by storage.
  assert (W4 : Mem.well_formed apart_heap apart_ad) by storage.
  assert (W5 : Mem.well_formed apart_heap apart_roomy) by storage.
  assert (A0 : Mem.apart apart_ad apart_roomy) by storage.
  assert (Ln : Mem.rlen apart_nonce = NonceSize) by reflexivity.
  assert (A1 : Mem.apart apart_plaintext apart_nonce) by storage.
  assert (A2 : Mem.apart apart_ad apart_nonce) by storage.
  assert (A3 : Mem.rcap apart_roomy = 0 \/ Mem.arr apart_roomy <> Mem.arr apart_nonce)
    by storage.
  assert (Hr : NonceSize <= length kat_nonce2) by storage.
  assert (B1 : Mem.apart apart_plaintext apart_tight) by storage.
  assert (B2 : Mem.apart apart_ad apart_tight) by storage.
  assert (B3 : Mem.rcap apart_roomy = 0 \/ Mem.arr apart_roomy <> Mem.arr apart_tight)
    by storage.
  exact (conj Hm (conj Hx (conj W1 (conj W2 (conj W3 (conj W4 (conj W5 (conj A0 (conj Ln
    (conj A1 (conj A2 (conj A3 (conj Hr (conj B1 (conj B2 (conj B3
    (conj (proj1 (manual_and_auto_interoperate (Pok := StdOk) kat_key kat_manual kat_auto
                    kat_nonce2 apart_heap apart_tight apart_nonce apart_plaintext apart_ad
                    apart_roomy Hm Hx W1 W2 W3 W4 W5 A0) Ln A1 A2 A3)
          (proj2 (manual_and_auto_interoperate (Pok := StdOk) kat_key kat_manual kat_auto
                    kat_nonce2 apart_heap apart_tight apart_nonce apart_plaintext apart_ad
                    apart_roomy Hm Hx W1 W2 W3 W4 W5 A0) Hr B1 B2 B3)))))))))))))))))).
Defined.

Lemma open_never_panics_and_appends_witness :
  newWithManualNonces (P := Std) kat_key = Ret kat_manual
  /\ (forall k n c0 a p,
        gcm_open (Primitives := Std) k n c0 a = Some p -> length c0 = length p + 16)
  /\ Mem.well_formed apart_heap apart_roomy
  /\ Mem.well_formed apart_heap Mem.nil_ref
  /\ Mem.well_formed apart_heap apart_sealed
  /\ Mem.apart apart_sealed apart_roomy
  /\ Mem.apart Mem.nil_ref apart_roomy
  /\ Mem.lift (Mem.xaes256gcm_Open (P := Std) kat_auto apart_heap Mem.nil_ref Mem.nil_ref
                 apart_sealed Mem.nil_ref)
     = Ret (mkSlice kat_plaintext [])
  /\ appends_to (Mem.view apart_heap apart_roomy)
       (Mem.lift (Mem.xaes256gcmManual_Open (P := Std) kat_manual apart_heap Mem.nil_ref
                    Mem.nil_ref apart_sealed Mem.nil_ref))
       (Mem.lift (Mem.xaes256gcmManual_Open (P := Std) kat_manual apart_heap apart_roomy
                    Mem.nil_ref apart_sealed Mem.nil_ref))
  /\ appends_to (Mem.view apart_heap apart_roomy)
       (Mem.lift (Mem.xaes256gcm_Open (P := Std) (mkAuto kat_manual) apart_heap Mem.nil_ref
                    Mem.nil_ref apart_sealed Mem.nil_ref))
       (Mem.lift (Mem.xaes256gcm_Open (P := Std) (mkAuto kat_manual) apart_heap apart_roomy
                    Mem.nil_ref apart_sealed Mem.nil_ref)).
Proof.
  assert (Hx : newWithManualNonces (P := Std) kat_key = Ret kat_manual)
    by (vm_compute; reflexivity).
  assert (W1 : Mem.well_formed apart_heap apart_roomy) by storage.
  assert (W2 : Mem.well_formed apart_heap Mem.nil_ref) by storage.
  assert (W3 : Mem.well_formed apart_heap apart_sealed) by storage.
  assert (A1 : Mem.apart apart_sealed apart_roomy) by storage.
  assert (A2 : Mem.apart Mem.nil_ref apart_roomy) by storage.
  assert (E : Mem.lift (Mem.xaes256gcm_Open (P := Std) kat_auto apart_heap Mem.nil_ref
                          Mem.nil_ref apart_sealed Mem.nil_ref)
              = Ret (mkSlice kat_plaintext [])) by (vm_compute; reflexivity).
  exact (conj Hx (conj Std_open_length (conj W1 (conj W2 (conj W3 (conj A1 (conj A2 (conj E
    (open_never_panics_and_appends (Pok := StdOk) kat_key kat_manual apart_heap apart_roomy
       Mem.nil_ref apart_sealed Mem.nil_ref Hx Std_open_length W1 W2 W3 W2 A1 A2))))))))).
Defined.

Lemma shared_storage_agrees_when_apart_witness :
  newWithManualNonces (P := Std) kat_key = Ret kat_manual
  /\ Mem.well_formed apart_heap apart_roomy
  /\ Mem.well_formed apart_heap apart_nonce
  /\ Mem.well_formed apart_heap apart_plaintext
  /\ Mem.well_formed apart_heap apart_ad
  /\ Mem.apart apart_plaintext apart_roomy
  /\ Mem.apart apart_ad apart_roomy
  /\ (forall k n c0 a p,
        gcm_open (Primitives := Std) k n c0 a = Some p -> length c0 = length p + 16)
  /\ (Mem.lift (Mem.xaes256gcmManual_Seal (P := Std) kat_manual apart_heap apart_roomy
                  apart_nonce apart_plaintext apart_ad)
      = xaes256gcmManual_Seal (P := Std) kat_manual (Mem.view apart_heap apart_roomy)
          (Mem.read apart_heap apart_nonce) (Mem.read apart_heap apart_plaintext)
          (Mem.read apart_heap apart_ad))
  /\ (Mem.lift (fst (Mem.xaes256gcm_Seal (P := Std) (mkAuto kat_manual) kat_nonce apart_heap
                       apart_roomy apart_nonce apart_plaintext apart_ad))
      = fst (xaes256gcm_Seal (P := Std) (mkAuto kat_manual) kat_nonce
               (Mem.view apart_heap apart_roomy) (Mem.read apart_heap apart_nonce)
               (Mem.read apart_heap apart_plaintext) (Mem.read apart_heap apart_ad)))
  /\ (snd (Mem.xaes256gcm_Seal (P := Std) (mkAuto kat_manual) kat_nonce apart_heap
             apart_roomy apart_nonce apart_plaintext apart_ad)
      = snd (xaes256gcm_Seal (P := Std) (mkAuto kat_manual) kat_nonce
               (Mem.view apart_heap apart_roomy) (Mem.read apart_heap apart_nonce)
               (Mem.read apart_heap apart_plaintext) (Mem.read apart_heap apart_ad)))
  /\ Mem.lift (Mem.xaes256gcmManual_Open (P := Std) kat_manual apart_heap apart_roomy
                 apart_nonce apart_plaintext apart_ad)
     = xaes256gcmManual_Open (P := Std) kat_manual (Mem.view apart_heap apart_roomy)
         (Mem.read apart_heap apart_nonce) (Mem.read apart_heap apart_plaintext)
         (Mem.read apart_heap apart_ad)
  /\ Mem.lift (Mem.xaes256gcm_Open (P := Std) (mkAuto kat_manual) apart_heap apart_roomy
                 apart_nonce apart_plaintext apart_ad)
     = xaes256gcm_Open (P := Std) (mkAuto kat_manual) (Mem.view apart_heap apart_roomy)
         (Mem.read apart_heap apart_nonce) (Mem.read apart_heap apart_plaintext)
         (Mem.read apart_heap apart_ad).
Proof.
  assert (Hx : newWithManualNonces (P := Std) kat_key = Ret kat_manual)
    by (vm_compute; reflexivity).
  assert (W1 : Mem.well_formed apart_heap apart_roomy) by storage.
  assert (W2 : Mem.well_formed apart_heap apart_nonce) by storage.
  assert (W3 : Mem.well_formed apart_heap apart_plaintext) by storage.
  assert (W4 : Mem.well_formed apart_heap apart_ad) by storage.
  assert (A1 : Mem.apart apart_plaintext apart_roomy) by storage.
  assert (A2 : Mem.apart apart_ad apart_roomy) by storage.
  destruct (shared_storage_agrees_when_apart (Pok := StdOk) kat_key kat_manual kat_nonce
              apart_heap apart_roomy apart_nonce apart_plaintext apart_ad
              Hx W1 W2 W3 W4 A1 A2) as (C1 & C2 & C3 & C4).
  exact (conj Hx (conj W1 (conj W2 (conj W3 (conj W4 (conj A1 (conj A2
    (conj Std_open_length (conj C1 (conj C2 (conj C3 (C4 Std_open_length)))))))))))).
Defined.

Lemma auto_seal_layout_apart_witness :
  New (P := Std) kat_key = Ret kat_auto
  /\ Mem.well_formed apart_heap apart_tight
  /\ Mem.well_formed apart_heap apart_nonce
  /\ Mem.well_formed apart_heap Mem.nil_ref
  /\ Mem.well_formed apart_heap apart_plaintext
  /\ Mem.well_formed apart_heap apart_ad
  /\ Mem.apart apart_plaintext apart_tight
  /\ Mem.apart apart_ad apart_tight
  /\ Mem.rlen apart_nonce <> 0
  /\ Mem.rlen Mem.nil_ref = 0
  /\ length (firstn 23 kat_nonce) < NonceSize
  /\ NonceSize <= length (kat_nonce ++ [x07])
  /\ fst (fst (Mem.xaes256gcm_Seal (P := Std) kat_auto kat_nonce apart_heap apart_tight
                 apart_nonce apart_plaintext apart_ad))
     = Panic "xaes256gcm: bad nonce length"
  /\ (exists msg,
        fst (fst (Mem.xaes256gcm_Seal (P := Std) kat_auto (firstn 23 kat_nonce) apart_heap
                    apart_tight Mem.nil_ref apart_plaintext apart_ad)) = Panic msg)
  /\ (exists s h1 ct,
        Mem.xaes256gcm_Seal (P := Std) kat_auto (kat_nonce ++ [x07]) apart_heap apart_tight
          Mem.nil_ref apart_plaintext apart_ad
        = ((Ret s, h1), skipn NonceSize (kat_nonce ++ [x07]))
        /\ xaes256gcmManual_Seal (P := Std) (manual kat_auto) nil_slice
             (firstn NonceSize (kat_nonce ++ [x07]))
             (Mem.read apart_heap apart_plaintext) (Mem.read apart_heap apart_ad) = Ret ct
        /\ Mem.read h1 s
           = Mem.read apart_heap apart_tight ++ firstn NonceSize (kat_nonce ++ [x07])
             ++ elems ct
        /\ Mem.rlen s = Mem.rlen apart_tight + Mem.rlen apart_plaintext + Overhead
        /\ Mem.read h1 apart_plaintext = Mem.read apart_heap apart_plaintext
        /\ Mem.read h1 apart_ad = Mem.read apart_heap apart_ad).
Proof.
  assert (Hx : New (P := Std) kat_key = Ret kat_auto) by (vm_compute; reflexivity).
  assert (W1 : Mem.well_formed apart_heap apart_tight) by storage.
  assert (W2 : Mem.well_formed apart_heap apart_nonce) by storage.
  assert (W0 : Mem.well_formed apart_heap Mem.nil_ref) by storage.
  assert (W3 : Mem.well_formed apart_heap apart_plaintext) by storage.
  assert (W4 : Mem.well_formed apart_heap apart_ad) by storage.
  assert (A1 : Mem.apart apart_plaintext apart_tight) by storage.
  assert (A2 : Mem.apart apart_ad apart_tight) by storage.
  assert (N1 : Mem.rlen apart_nonce <> 0) by storage.
  assert (N0 : Mem.rlen Mem.nil_ref = 0) by reflexivity.
  assert (R1 : length (firstn 23 kat_nonce) < NonceSize) by storage.
  assert (R2 : NonceSize <= length (kat_nonce ++ [x07])) by storage.
  exact (conj Hx (conj W1 (conj W2 (conj W0 (conj W3 (conj W4 (conj A1 (conj A2 (conj N1
    (conj N0 (conj R1 (conj R2
    (conj (proj1 (auto_seal_layout_apart (Pok := StdOk) kat_key kat_auto kat_nonce
                    apart_heap apart_tight apart_nonce apart_plaintext apart_ad
                    Hx W1 W2 W3 W4 A1 A2) N1)
    (conj (proj1 (proj2 (auto_seal_layout_apart (Pok := StdOk) kat_key kat_auto
                           (firstn 23 kat_nonce) apart_heap apart_tight Mem.nil_ref
                           apart_plaintext apart_ad Hx W1 W0 W3 W4 A1 A2)) N0 R1)
          (proj2 (proj2 (auto_seal_layout_apart (Pok := StdOk) kat_key kat_auto
                           (kat_nonce ++ [x07]) apart_heap apart_tight Mem.nil_ref
                           apart_plaintext apart_ad Hx W1 W0 W3 W4 A1 A2)) N0 R2))))))))))))))).
Defined.

Lemma manual_in_place_roundtrip_witness :
  newWithManualNonces (P := Std) kat_key = Ret kat_manual
  /\ Mem.rlen shared_nonce = NonceSize
  /\ Mem.well_formed shared_heap shared_nonce
  /\ Mem.well_formed shared_heap shared_plaintext
  /\ Mem.well_formed shared_heap Mem.nil_ref
  /\ Mem.apart shared_nonce shared_plaintext
  /\ Mem.apart Mem.nil_ref shared_plaintext
  /\ exists s h1 ct,
       Mem.xaes256gcmManual_Seal (P := Std) kat_manual shared_heap
         (Mem.upto shared_plaintext 0) shared_nonce shared_plaintext Mem.nil_ref
       = (Ret s, h1)
       /\ xaes256gcmManual_Seal (P := Std) kat_manual nil_slice
            (Mem.read shared_heap shared_nonce) (Mem.read shared_heap shared_plaintext)
            (Mem.read shared_heap Mem.nil_ref) = Ret ct
       /\ Mem.read h1 s = elems ct
       /\ exists opened,
            Mem.lift (Mem.xaes256gcmManual_Open (P := Std) kat_manual h1 (Mem.upto s 0)
                        shared_nonce s Mem.nil_ref) = Ret opened
            /\ elems opened = Mem.read shared_heap shared_plaintext.
Proof.
  assert (Hx : newWithManualNonces (P := Std) kat_key = Ret kat_manual)
    by (vm_compute; reflexivity).
  assert (Ln : Mem.rlen shared_nonce = NonceSize) by reflexivity.
  assert (W1 : Mem.well_formed shared_heap shared_nonce) by storage.
  assert (W2 : Mem.well_formed shared_heap shared_plaintext) by storage.
  assert (W3 : Mem.well_formed shared_heap Mem.nil_ref) by storage.
  assert (A1 : Mem.apart shared_nonce shared_plaintext) by storage.
  assert (A2 : Mem.apart Mem.nil_ref shared_plaintext) by storage.
  exact (conj Hx (conj Ln (conj W1 (conj W2 (conj W3 (conj A1 (conj A2
    (manual_in_place_roundtrip (Pok := StdOk) kat_key kat_manual shared_heap shared_nonce
       shared_plaintext Mem.nil_ref Hx Ln W1 W2 W3 A1 A2)))))))).
Defined.
